(** * Salfoon Ramadan League: the standings / match / playoff core

    A shallow embedding of the computation core of the platform
    (tournamentEngine.js, standingsEngine.js, matchEngine.js and the playoff
    engine) together with the properties its specification states about it.

    Conventions of the embedding:
    - a JavaScript Number that the core handles is an integer and is modelled
      as [Z]; [null] (and an absent property) is [None];
    - values that reach the core from forms are modelled by [Js.Val], with
      [parseInt] written out on them;
    - localStorage is a record with one optional slot per key; [load] parses a
      fresh copy and [save] rewrites the slot wholesale, so the engines that
      go load / mutate / save are state passing functions on that record; a
      write always succeeds (quota faults belong to the store, not the core);
    - the playoff engine also keeps its bracket in memory between calls, so
      its state is the store together with that object;
    - an exception that an engine method throws and catches itself is the
      [inl] of its result, carrying the message (which the match engine
      returns in [{success: false, error}] and the playoff engine logs
      before it returns [null]). *)

From Stdlib Require Import ZArith Lia Ascii String.
From stdpp Require Import base list strings sorting.

Local Open Scope string_scope.
Local Open Scope Z_scope.

(** ** JavaScript values at the input boundary *)

Module Js.

(** The values a form or a caller can hand over for a goals field. *)
Inductive Val :=
| JNull
| JUndefined
| JNum (z : Z)
| JStr (s : string).

(** [x !== null && x !== undefined] *)
Definition provided (v : Val) : bool :=
  match v with
  | JNull | JUndefined => false
  | _ => true
  end.

(** StrWhiteSpaceChar, on the ASCII range: TAB, LF, VT, FF, CR, SP. *)
Definition isWhiteSpace (c : ascii) : bool :=
  let n := nat_of_ascii c in
  ((9 <=? n) && (n <=? 13))%nat || (n =? 32)%nat.

(** The value of a radix-10 digit. *)
Definition digitValue (c : ascii) : option Z :=
  let n := nat_of_ascii c in
  if ((48 <=? n) && (n <=? 57))%nat then Some (Z.of_nat n - 48) else None.

(** The value of a radix-16 digit. *)
Definition hexDigitValue (c : ascii) : option Z :=
  let n := nat_of_ascii c in
  if ((48 <=? n) && (n <=? 57))%nat then Some (Z.of_nat n - 48)
  else if ((97 <=? n) && (n <=? 102))%nat then Some (Z.of_nat n - 87)
  else if ((65 <=? n) && (n <=? 70))%nat then Some (Z.of_nat n - 55)
  else None.

Fixpoint trimStart (s : string) : string :=
  match s with
  | String c s' => if isWhiteSpace c then trimStart s' else s
  | EmptyString => s
  end.

(** The longest prefix of [s] made of digits of the radix, read as a number;
    [acc] is [None] until a first digit is seen. *)
Fixpoint readDigits (digit : ascii -> option Z) (radix : Z)
    (acc : option Z) (s : string) : option Z :=
  match s with
  | String c s' =>
      match digit c with
      | Some d => readDigits digit radix (Some (default 0 acc * radix + d)) s'
      | None => acc
      end
  | EmptyString => acc
  end.

(** [parseInt(string)] with no radix argument: leading white space is
    skipped, a sign is read, a [0x] / [0X] prefix selects radix 16, and the
    longest run of digits is the result; everything after it is ignored.
    [None] is NaN. The value is exact: the rounding of results beyond 2^53
    is not modelled. *)
Definition parseIntString (s : string) : option Z :=
  let s1 := trimStart s in
  let '(sign, s2) :=
    match s1 with
    | String "-" r => (-1, r)
    | String "+" r => (1, r)
    | _ => (1, s1)
    end in
  let mag :=
    match s2 with
    | String "0" (String "x" r) | String "0" (String "X" r) =>
        readDigits hexDigitValue 16 None r
    | _ => readDigits digitValue 10 None s2
    end in
  (fun m => sign * m) <$> mag.

(** [parseInt(v)]: the argument is first converted to a string. An integer
    Number prints as its decimal expansion, which reads back as itself;
    [null] and [undefined] print as words and give NaN. *)
Definition parseInt (v : Val) : option Z :=
  match v with
  | JNull | JUndefined => None
  | JNum z => Some z
  | JStr s => parseIntString s
  end.

(** Truthiness of an optional string: [null], [undefined] and the empty
    string are falsy. *)
Definition truthy (o : option string) : bool :=
  match o with
  | Some (String _ _) => true
  | _ => false
  end.

(** [x || null] on an optional string. *)
Definition orNull (o : option string) : option string :=
  if truthy o then o else None.

(** [x || null] on a Number or [null]: 0 is falsy. *)
Definition numOrNull (o : option Z) : option Z :=
  match o with
  | Some 0 => None
  | _ => o
  end.

(** [Array.prototype.sort(compare)]. For a consistent comparator the
    language fixes the result: the stable sorted permutation, which is what
    this insertion from the right computes. *)
Fixpoint insertBy {A} (compare : A -> A -> Z) (x : A) (l : list A) : list A :=
  match l with
  | [] => [x]
  | y :: l' =>
      if compare x y <=? 0 then x :: l else y :: insertBy compare x l'
  end.

Definition sortBy {A} (compare : A -> A -> Z) (l : list A) : list A :=
  foldr (insertBy compare) [] l.

End Js.

(** ** Data model (teams.json / matches.json records) *)

Module Status.

Inductive t := scheduled | played | postponed.

Global Instance eq_dec : EqDecision t.
Proof. solve_decision. Defined.

End Status.

Record Match := mkMatch {
  m_id : string;
  day : Z;
  homeTeam : string;
  awayTeam : string;
  scheduledTime : string;
  homeGoals : option Z;
  awayGoals : option Z;
  status : Status.t;
  bestPlayer : option string;
  postponementReason : option string;
  lastUpdated : string
}.

Record Statistics := mkStatistics {
  played : Z;
  won : Z;
  drawn : Z;
  lost : Z;
  goalsFor : Z;
  goalsAgainst : Z;
  points : Z
}.

Record Team := mkTeam {
  t_id : string;
  name : string;
  shortName : string;
  statistics : Statistics
}.

(** ** Points rule (tournamentEngine.js) *)

Module Tournament.

Inductive MatchOutcome := not_played | home_win | away_win | draw.

Record Points := mkPoints {
  homePoints : Z;
  awayPoints : Z;
  result : MatchOutcome
}.

(** [this.pointsSystem] *)
Definition pointsSystem_win : Z := 3.
Definition pointsSystem_draw : Z := 1.
Definition pointsSystem_loss : Z := 0.

(** [calculatePoints(matchResult)]: reads only the two goals fields. *)
Definition calculatePoints (hg ag : option Z) : Points :=
  match hg, ag with
  | Some h, Some a =>
      match Js.parseInt (Js.JNum h), Js.parseInt (Js.JNum a) with
      | Some homeGoals, Some awayGoals =>
          if homeGoals >? awayGoals then
            mkPoints pointsSystem_win pointsSystem_loss home_win
          else if awayGoals >? homeGoals then
            mkPoints pointsSystem_loss pointsSystem_win away_win
          else
            mkPoints pointsSystem_draw pointsSystem_draw draw
      | _, _ => mkPoints pointsSystem_draw pointsSystem_draw draw
      end
  | _, _ => mkPoints 0 0 not_played
  end.

End Tournament.

(** ** Data store (storage.js)

    One slot per key; [None] is a key that is absent, for which [load]
    returns [null]. *)

Record LocalStorage := mkStorage {
  ls_teams : option (list Team);
  ls_matches : option (list Match)
}.

(** ** Standings calculator (standingsEngine.js) *)

Module Standings.

Inductive FormResult := W | D | L.

(** A standings row; the display-only properties (logo, colors, the
    qualification caption) are left out. *)
Record Row := mkRow {
  teamId : string;
  teamName : string;
  played : Z;
  won : Z;
  drawn : Z;
  lost : Z;
  goalsFor : Z;
  goalsAgainst : Z;
  goalDifference : Z;
  points : Z;
  form : list FormResult;
  qualified : bool;
  position : Z
}.

Definition playoffQualifiers : Z := 4.

(** The row a team starts with. *)
Definition initialRow (team : Team) : Row :=
  mkRow (t_id team) (name team) 0 0 0 0 0 0 0 0 [] false 0.

(** [played += 1; goalsFor += gf; goalsAgainst += ga; points += pts] *)
Definition addResult (gf ga pts : Z) (r : Row) : Row :=
  mkRow (teamId r) (teamName r) (played r + 1) (won r) (drawn r) (lost r)
    (goalsFor r + gf) (goalsAgainst r + ga) (goalDifference r)
    (points r + pts) (form r) (qualified r) (position r).

(** [won += 1] *)
Definition addWon (r : Row) : Row :=
  mkRow (teamId r) (teamName r) (played r) (won r + 1) (drawn r) (lost r)
    (goalsFor r) (goalsAgainst r) (goalDifference r) (points r) (form r)
    (qualified r) (position r).

(** [drawn += 1] *)
Definition addDrawn (r : Row) : Row :=
  mkRow (teamId r) (teamName r) (played r) (won r) (drawn r + 1) (lost r)
    (goalsFor r) (goalsAgainst r) (goalDifference r) (points r) (form r)
    (qualified r) (position r).

(** [lost += 1] *)
Definition addLost (r : Row) : Row :=
  mkRow (teamId r) (teamName r) (played r) (won r) (drawn r) (lost r + 1)
    (goalsFor r) (goalsAgainst r) (goalDifference r) (points r) (form r)
    (qualified r) (position r).

Definition setForm (f : list FormResult) (r : Row) : Row :=
  mkRow (teamId r) (teamName r) (played r) (won r) (drawn r) (lost r)
    (goalsFor r) (goalsAgainst r) (goalDifference r) (points r) f
    (qualified r) (position r).

(** [form.push(x)] *)
Definition pushForm (x : FormResult) (r : Row) : Row :=
  setForm (form r ++ [x]) r.

(** [if (form.length > 5) form = form.slice(-5)] *)
Definition capForm (r : Row) : Row :=
  if (5 <? length (form r))%nat
  then setForm (drop (length (form r) - 5) (form r)) r
  else r.

(** [goalDifference = goalsFor - goalsAgainst] *)
Definition setGoalDifference (r : Row) : Row :=
  mkRow (teamId r) (teamName r) (played r) (won r) (drawn r) (lost r)
    (goalsFor r) (goalsAgainst r) (goalsFor r - goalsAgainst r) (points r)
    (form r) (qualified r) (position r).

(** [standings.find(team => team.teamId === id)], as the index of the row:
    the rows are objects shared by reference, so every later assignment goes
    to that slot of the array. *)
Definition findRow (id : string) (standings : list Row) : option nat :=
  fst <$> list_find (fun r => teamId r = id) standings.

(** The filter of [calculateStandings]: played, with both goals present. *)
Definition isPlayed (m : Match) : bool :=
  bool_decide (status m = Status.played) && bool_decide (homeGoals m <> None)
  && bool_decide (awayGoals m <> None).

(** The body of [playedMatches.forEach]: the assignments in source order,
    each one on the slot of the object it names (home and away are the same
    slot when a match names one team twice). A goals value that is [null]
    adds as 0. *)
Definition foldMatch (standings : list Row) (m : Match) : list Row :=
  match findRow (homeTeam m) standings, findRow (awayTeam m) standings with
  | Some h, Some a =>
      let hg := default 0 (homeGoals m) in
      let ag := default 0 (awayGoals m) in
      let pts := Tournament.calculatePoints (homeGoals m) (awayGoals m) in
      let s1 := alter (addResult hg ag (Tournament.homePoints pts)) h standings in
      let s2 := alter (addResult ag hg (Tournament.awayPoints pts)) a s1 in
      let s3 :=
        match Tournament.result pts with
        | Tournament.home_win =>
            alter (pushForm L) a (alter (pushForm W) h
              (alter addLost a (alter addWon h s2)))
        | Tournament.away_win =>
            alter (pushForm L) h (alter (pushForm W) a
              (alter addLost h (alter addWon a s2)))
        | Tournament.draw =>
            alter (pushForm D) a (alter (pushForm D) h
              (alter addDrawn a (alter addDrawn h s2)))
        | Tournament.not_played => s2
        end in
      alter capForm a (alter capForm h s3)
  | _, _ => standings
  end.

Section Sorting.

(** [String.prototype.localeCompare(other, 'ar')]: the collation of the
    platform, negative / zero / positive. *)
Variable localeCompare : string -> string -> Z.

(** The comparator handed to [sort] in [applyTieBreakers]. *)
Definition tieBreakCompare (a b : Row) : Z :=
  if negb (points b =? points a) then points b - points a
  else if negb (goalDifference b =? goalDifference a)
       then goalDifference b - goalDifference a
  else if negb (goalsFor b =? goalsFor a) then goalsFor b - goalsFor a
  else if negb (goalsAgainst a =? goalsAgainst b)
       then goalsAgainst a - goalsAgainst b
  else localeCompare (teamName a) (teamName b).

(** [applyTieBreakers(teams)]: a sorted copy. *)
Definition applyTieBreakers (teams : list Row) : list Row :=
  Js.sortBy tieBreakCompare teams.

(** [determineQualification(sortedStandings)] *)
Definition determineQualification (sorted : list Row) : list Row :=
  imap (fun index r =>
    mkRow (teamId r) (teamName r) (played r) (won r) (drawn r) (lost r)
      (goalsFor r) (goalsAgainst r) (goalDifference r) (points r) (form r)
      (Z.of_nat index <? playoffQualifiers) (Z.of_nat index + 1)) sorted.

(** The rows before sorting: every team zeroed, the played matches folded in
    array order, then the goal differences. *)
Definition foldStandings (teams : list Team) (matches : list Match) : list Row :=
  setGoalDifference <$>
    foldl foldMatch (initialRow <$> teams) (filter (fun m => isPlayed m = true) matches).

(** [calculateStandings(matches = null)]: the matches argument when given,
    the stored ones otherwise; the empty table when data is missing. *)
Definition calculateStandings (store : LocalStorage)
    (matches : option (list Match)) : list Row :=
  match ls_teams store, from_option Some (ls_matches store) matches with
  | Some teams, Some ms =>
      determineQualification (applyTieBreakers (foldStandings teams ms))
  | _, _ => []
  end.

End Sorting.

End Standings.

(** ** Match engine (matchEngine.js) *)

Module MatchEngine.

(** What an engine method hands back: the message of the error it caught, or
    the payload of [{success: true, ...}]. *)
Definition Outcome (A : Type) : Type := string + A.

Definition statusName (s : Status.t) : string :=
  match s with
  | Status.scheduled => "scheduled"
  | Status.played => "played"
  | Status.postponed => "postponed"
  end.

(** [this.validStatuses] *)
Definition validStatuses : list Status.t :=
  [Status.scheduled; Status.played; Status.postponed].

(** [this.ramadanDayRange] *)
Definition ramadanDayRange_min : Z := 3.
Definition ramadanDayRange_max : Z := 23.

(** The argument of [createMatch]. Its goals are stored as they come, so
    they are typed as the stored record has them: a Number or nothing. *)
Record MatchData := mkMatchData {
  d_id : string;
  d_day : Z;
  d_homeTeam : string;
  d_awayTeam : string;
  d_scheduledTime : option string;
  d_homeGoals : option Z;
  d_awayGoals : option Z;
  d_status : option Status.t;
  d_bestPlayer : option string;
  d_postponementReason : option string
}.

(** The [result] argument of [updateResult], as a form submits it. *)
Record ResultData := mkResultData {
  r_homeGoals : Js.Val;
  r_awayGoals : Js.Val;
  r_bestPlayer : option string
}.

Definition isDigit (c : ascii) : bool :=
  let n := nat_of_ascii c in ((48 <=? n) && (n <=? 57))%nat.

Definition isDigitUpTo (top : nat) (c : ascii) : bool :=
  let n := nat_of_ascii c in ((48 <=? n) && (n <=? top))%nat.

(** [/^([01]?[0-9]|2[0-3]):[0-5][0-9]$/.test(s)] *)
Definition timeRegex (s : string) : bool :=
  match s with
  | String h (String ":" (String m1 (String m2 EmptyString))) =>
      isDigit h && isDigitUpTo 53 m1 && isDigit m2
  | String h1 (String h2 (String ":" (String m1 (String m2 EmptyString)))) =>
      ((isDigitUpTo 49 h1 && isDigit h2)
       || (bool_decide (h1 = "2"%char) && isDigitUpTo 51 h2))
      && isDigitUpTo 53 m1 && isDigit m2
  | _ => false
  end.

(** [validateMatchData(data)]: the first failing check names the error. *)
Definition validateMatchData (store : LocalStorage) (data : MatchData)
    : option string :=
  if bool_decide (d_id data = "") then Some "Match ID is required"
  else if d_day data =? 0 then Some "Valid match day is required"
  else if bool_decide (d_homeTeam data = "") || bool_decide (d_awayTeam data = "")
       then Some "Home and away teams are required"
  else if bool_decide (d_homeTeam data = d_awayTeam data)
       then Some "Home and away teams cannot be the same"
  else if (d_day data <? ramadanDayRange_min) || (d_day data >? ramadanDayRange_max)
       then Some "Match day must be between 3 and 23"
  else
    let teamCheck :=
      match ls_teams store with
      | Some teams =>
          let teamIds := t_id <$> teams in
          if negb (bool_decide (d_homeTeam data ∈ teamIds))
          then Some ("Home team " +:+ d_homeTeam data +:+ " does not exist")
          else if negb (bool_decide (d_awayTeam data ∈ teamIds))
          then Some ("Away team " +:+ d_awayTeam data +:+ " does not exist")
          else None
      | None => None
      end in
    match teamCheck with
    | Some e => Some e
    | None =>
        if match d_status data with
           | Some s => negb (bool_decide (s ∈ validStatuses))
           | None => false
           end
        then Some "Invalid status. Must be one of: scheduled, played, postponed"
        else if match d_homeGoals data with
                | Some g =>
                    match Js.parseInt (Js.JNum g) with
                    | Some homeGoals => homeGoals <? 0
                    | None => true
                    end
                | None => false
                end
        then Some "Invalid home team goals"
        else if match d_awayGoals data with
                | Some g =>
                    match Js.parseInt (Js.JNum g) with
                    | Some awayGoals => awayGoals <? 0
                    | None => true
                    end
                | None => false
                end
        then Some "Invalid away team goals"
        else if Js.truthy (d_scheduledTime data)
                && negb (timeRegex (default "" (d_scheduledTime data)))
        then Some "Invalid time format. Use HH:MM format"
        else None
    end.

(** [createMatch(matchData)]; [now] is the clock reading for [lastUpdated].
    Returns the outcome and the store after the call. *)
Definition createMatch (now : string) (store : LocalStorage) (matchData : MatchData)
    : Outcome Match * LocalStorage :=
  match validateMatchData store matchData with
  | Some e => (inl e, store)
  | None =>
      match ls_matches store with
      | None => (inl "Failed to load matches data", store)
      | Some matches =>
          match list_find (fun m => m_id m = d_id matchData) matches with
          | Some _ =>
              (inl ("Match with ID " +:+ d_id matchData +:+ " already exists"), store)
          | None =>
              let newMatch :=
                {| m_id := d_id matchData;
                   day := d_day matchData;
                   homeTeam := d_homeTeam matchData;
                   awayTeam := d_awayTeam matchData;
                   scheduledTime :=
                     if Js.truthy (d_scheduledTime matchData)
                     then default "" (d_scheduledTime matchData) else "21:00";
                   homeGoals := Js.numOrNull (d_homeGoals matchData);
                   awayGoals := Js.numOrNull (d_awayGoals matchData);
                   status := default Status.scheduled (d_status matchData);
                   bestPlayer := Js.orNull (d_bestPlayer matchData);
                   postponementReason := Js.orNull (d_postponementReason matchData);
                   lastUpdated := now |} in
              let sorted :=
                Js.sortBy (fun a b => day a - day b) (matches ++ [newMatch]) in
              (inr newMatch, mkStorage (ls_teams store) (Some sorted))
          end
      end
  end.

Definition zeroStatistics : Statistics := mkStatistics 0 0 0 0 0 0 0.

Definition setStatistics (st : Statistics) (t : Team) : Team :=
  mkTeam (t_id t) (name t) (shortName t) st.

(** [played += 1; goalsFor += gf; goalsAgainst += ga; points += pts] on a
    team's cached statistics. *)
Definition statsAddResult (gf ga pts : Z) (st : Statistics) : Statistics :=
  mkStatistics (played st + 1) (won st) (drawn st) (lost st)
    (goalsFor st + gf) (goalsAgainst st + ga) (points st + pts).

Definition statsAddWon (st : Statistics) : Statistics :=
  mkStatistics (played st) (won st + 1) (drawn st) (lost st)
    (goalsFor st) (goalsAgainst st) (points st).

Definition statsAddDrawn (st : Statistics) : Statistics :=
  mkStatistics (played st) (won st) (drawn st + 1) (lost st)
    (goalsFor st) (goalsAgainst st) (points st).

Definition statsAddLost (st : Statistics) : Statistics :=
  mkStatistics (played st) (won st) (drawn st) (lost st + 1)
    (goalsFor st) (goalsAgainst st) (points st).

(** The home team's statements. *)
Definition creditHome (m : Match) (pts : Tournament.Points) (t : Team) : Team :=
  let st :=
    statsAddResult (default 0 (homeGoals m)) (default 0 (awayGoals m))
      (Tournament.homePoints pts) (statistics t) in
  setStatistics
    match Tournament.result pts with
    | Tournament.home_win => statsAddWon st
    | Tournament.draw => statsAddDrawn st
    | Tournament.away_win => statsAddLost st
    | Tournament.not_played => st
    end t.

(** The away team's statements. *)
Definition creditAway (m : Match) (pts : Tournament.Points) (t : Team) : Team :=
  let st :=
    statsAddResult (default 0 (awayGoals m)) (default 0 (homeGoals m))
      (Tournament.awayPoints pts) (statistics t) in
  setStatistics
    match Tournament.result pts with
    | Tournament.away_win => statsAddWon st
    | Tournament.draw => statsAddDrawn st
    | Tournament.home_win => statsAddLost st
    | Tournament.not_played => st
    end t.

(** A match credited to the home team's record, then to the away team's,
    each on the slot [find] returned. *)
Definition creditMatch (teams : list Team) (h a : nat) (m : Match) : list Team :=
  let pts := Tournament.calculatePoints (homeGoals m) (awayGoals m) in
  alter (creditAway m pts) a (alter (creditHome m pts) h teams).

Definition findTeam (id : string) (teams : list Team) : option nat :=
  fst <$> list_find (fun t => t_id t = id) teams.

(** [updateTeamStatistics(match)]: the incremental path. The boolean is the
    method's return value. *)
Definition updateTeamStatistics (store : LocalStorage) (m : Match)
    : bool * LocalStorage :=
  if negb (bool_decide (status m = Status.played))
     || bool_decide (homeGoals m = None) || bool_decide (awayGoals m = None)
  then (false, store)
  else
    match ls_teams store with
    | None => (false, store)
    | Some teams =>
        match findTeam (homeTeam m) teams, findTeam (awayTeam m) teams with
        | Some h, Some a =>
            (true, mkStorage (Some (creditMatch teams h a m)) (ls_matches store))
        | _, _ => (false, store)
        end
    end.

(** The [forEach] body of the full rebuild: a match with an unknown team is
    skipped. *)
Definition replayMatch (teams : list Team) (m : Match) : list Team :=
  match findTeam (homeTeam m) teams, findTeam (awayTeam m) teams with
  | Some h, Some a => creditMatch teams h a m
  | _, _ => teams
  end.

(** [recalculateAllStatistics()]: every record zeroed, every played match
    replayed. *)
Definition recalculateAllStatistics (store : LocalStorage) : bool * LocalStorage :=
  match ls_teams store, ls_matches store with
  | Some teams, Some matches =>
      let reset := setStatistics zeroStatistics <$> teams in
      let playedMatches := filter (fun m => Standings.isPlayed m = true) matches in
      (true, mkStorage (Some (foldl replayMatch reset playedMatches)) (ls_matches store))
  | _, _ => (false, store)
  end.

Definition setGoalsStatus (hg ag : option Z) (st : Status.t) (m : Match) : Match :=
  mkMatch (m_id m) (day m) (homeTeam m) (awayTeam m) (scheduledTime m) hg ag st
    (bestPlayer m) (postponementReason m) (lastUpdated m).

Definition setBestPlayer (bp : option string) (m : Match) : Match :=
  mkMatch (m_id m) (day m) (homeTeam m) (awayTeam m) (scheduledTime m)
    (homeGoals m) (awayGoals m) (status m) bp (postponementReason m) (lastUpdated m).

Definition setPostponementReason (r : option string) (m : Match) : Match :=
  mkMatch (m_id m) (day m) (homeTeam m) (awayTeam m) (scheduledTime m)
    (homeGoals m) (awayGoals m) (status m) (bestPlayer m) r (lastUpdated m).

Definition setLastUpdated (now : string) (m : Match) : Match :=
  mkMatch (m_id m) (day m) (homeTeam m) (awayTeam m) (scheduledTime m)
    (homeGoals m) (awayGoals m) (status m) (bestPlayer m) (postponementReason m) now.

(** The goals check of [updateResult] on one field: a value that is
    provided must parse to a number that is not negative; the parsed number
    replaces the stored one. [None] is the throw. *)
Definition checkGoals (v : Js.Val) (stored : option Z) : option (option Z) :=
  if Js.provided v then
    match Js.parseInt v with
    | Some goals => if goals <? 0 then None else Some (Some goals)
    | None => None
    end
  else Some stored.

(** [updateResult(matchId, result)] *)
Definition updateResult (now : string) (store : LocalStorage) (matchId : string)
    (result : ResultData) : Outcome Match * LocalStorage :=
  if bool_decide (matchId = "") then (inl "Match ID and result are required", store)
  else
    match ls_matches store with
    | None => (inl "Failed to load matches data", store)
    | Some matches =>
        match list_find (fun m => m_id m = matchId) matches with
        | None => (inl ("Match with ID " +:+ matchId +:+ " not found"), store)
        | Some (matchIndex, m) =>
            match checkGoals (r_homeGoals result) (homeGoals m) with
            | None => (inl "Invalid home team goals", store)
            | Some hg =>
                match checkGoals (r_awayGoals result) (awayGoals m) with
                | None => (inl "Invalid away team goals", store)
                | Some ag =>
                    let st :=
                      if bool_decide (hg <> None) && bool_decide (ag <> None)
                      then Status.played else status m in
                    let m1 := setGoalsStatus hg ag st m in
                    let m2 :=
                      if Js.truthy (r_bestPlayer result)
                      then setBestPlayer (r_bestPlayer result) m1 else m1 in
                    let m3 := setLastUpdated now m2 in
                    let saved :=
                      mkStorage (ls_teams store) (Some (<[matchIndex := m3]> matches)) in
                    let after :=
                      if bool_decide (status m3 = Status.played)
                      then snd (updateTeamStatistics saved m3) else saved in
                    (inr m3, after)
                end
            end
        end
    end.

(** [validTransitions] of [validateStatusTransition] *)
Definition validTransitions (oldStatus : Status.t) : list Status.t :=
  match oldStatus with
  | Status.scheduled => [Status.played; Status.postponed]
  | Status.played => [Status.postponed]
  | Status.postponed => [Status.scheduled; Status.played]
  end.

(** [validateStatusTransition(oldStatus, newStatus)]: [None] is
    [{valid: true}], otherwise the error text. *)
Definition validateStatusTransition (oldStatus newStatus : Status.t) : option string :=
  if negb (bool_decide (newStatus ∈ validTransitions oldStatus))
  then Some ("Invalid status transition from " +:+ statusName oldStatus
             +:+ " to " +:+ statusName newStatus)
  else None.

(** [setMatchStatus(matchId, status, reason = null)]: the payload of a
    success is the match and the status it had. *)
Definition setMatchStatus (now : string) (store : LocalStorage) (matchId : string)
    (newStatus : Status.t) (reason : option string)
    : Outcome (Match * Status.t) * LocalStorage :=
  if bool_decide (matchId = "") then (inl "Match ID and status are required", store)
  else if negb (bool_decide (newStatus ∈ validStatuses))
  then (inl "Invalid status. Must be one of: scheduled, played, postponed", store)
  else
    match ls_matches store with
    | None => (inl "Failed to load matches data", store)
    | Some matches =>
        match list_find (fun m => m_id m = matchId) matches with
        | None => (inl ("Match with ID " +:+ matchId +:+ " not found"), store)
        | Some (matchIndex, m) =>
            let oldStatus := status m in
            match validateStatusTransition oldStatus newStatus with
            | Some e => (inl e, store)
            | None =>
                let m1 :=
                  setLastUpdated now (setGoalsStatus (homeGoals m) (awayGoals m) newStatus m) in
                let handled : option Match :=
                  if bool_decide (newStatus = Status.postponed) then
                    if negb (Js.truthy reason) then None
                    else
                      let m2 := setPostponementReason reason m1 in
                      Some (if bool_decide (oldStatus = Status.played)
                            then setBestPlayer None
                                   (setGoalsStatus None None (status m2) m2)
                            else m2)
                  else Some (setPostponementReason None m1) in
                match handled with
                | None => (inl "Postponement reason is required", store)
                | Some m3 =>
                    let saved :=
                      mkStorage (ls_teams store) (Some (<[matchIndex := m3]> matches)) in
                    let after :=
                      if bool_decide (oldStatus = Status.played)
                         && negb (bool_decide (newStatus = Status.played))
                      then snd (recalculateAllStatistics saved)
                      else if bool_decide (newStatus = Status.played)
                              && bool_decide (homeGoals m3 <> None)
                              && bool_decide (awayGoals m3 <> None)
                      then snd (updateTeamStatistics saved m3)
                      else saved in
                    (inr (m3, oldStatus), after)
                end
            end
        end
    end.

End MatchEngine.

(** ** Playoff engine *)

Module Playoff.

(** What a playoff method hands back. Its [catch] logs the error and
    returns [null]: [inl] carries the message that was thrown and logged,
    [inr] the object returned on success. *)
Definition Outcome (A : Type) : Type := string + A.

(** A seeded team as the bracket holds it. *)
Record TeamRef := mkTeamRef {
  tr_id : string;
  tr_name : string;
  tr_seed : Z;
  tr_stats : Standings.Row
}.

(** The [status] of a bracket match. *)
Inductive MatchStatus := scheduled | completed | pending.

(** [metadata.tournamentPhase] *)
Inductive Phase := playoffs | phase_completed.

(** The penalty shootout outcome, [{winner: ...}]. *)
Record PenaltyResult := mkPenalty { p_winner : string }.

(** A semifinal. [None] in a goals field is [null] before a result and NaN
    after one that did not parse; [loser] and [penaltyResult] are absent
    until they are assigned. *)
Record Semifinal := mkSemifinal {
  s_id : string;
  s_homeTeam : TeamRef;
  s_awayTeam : TeamRef;
  s_status : MatchStatus;
  s_homeGoals : option Z;
  s_awayGoals : option Z;
  s_winner : option TeamRef;
  s_loser : option TeamRef;
  s_penaltyResult : option PenaltyResult
}.

Record FinalMatch := mkFinal {
  f_homeTeam : option TeamRef;
  f_awayTeam : option TeamRef;
  f_status : MatchStatus;
  f_homeGoals : option Z;
  f_awayGoals : option Z;
  f_winner : option TeamRef;
  f_champion : option TeamRef;
  f_runnerUp : option TeamRef;
  f_penaltyResult : option PenaltyResult
}.

Record ThirdPlace := mkThirdPlace {
  tp_homeTeam : option TeamRef;
  tp_awayTeam : option TeamRef;
  tp_status : MatchStatus;
  tp_homeGoals : option Z;
  tp_awayGoals : option Z;
  tp_winner : option TeamRef
}.

Record Metadata := mkMetadata {
  generated : string;
  qualifiedTeams : list Standings.Row;
  tournamentPhase : Phase;
  champion : option TeamRef;
  runnerUp : option TeamRef;
  completedDate : option string
}.

(** [bracketStructure]; [semifinals] is the array of the two semifinals.
    The display-only properties of the bracket and its matches (matchName,
    venue, matchDate, bracketType) are left out. *)
Record Bracket := mkBracket {
  semifinals : Semifinal * Semifinal;
  final : FinalMatch;
  thirdPlace : ThirdPlace;
  metadata : Metadata
}.

(** The engine: the store it reads teams and matches from, the
    [salfoon_playoffs] slot of that store, and the bracket it keeps in
    memory between calls. *)
Record Engine := mkEngine {
  storage : LocalStorage;
  playoffsSlot : option Bracket;
  bracketStructure : option Bracket
}.

(** [saveBracket()] *)
Definition saveBracket (e : Engine) : Engine :=
  mkEngine (storage e) (bracketStructure e) (bracketStructure e).

(** [loadBracket()] *)
Definition loadBracket (e : Engine) : Engine :=
  mkEngine (storage e) (playoffsSlot e) (playoffsSlot e).

(** [resetPlayoffs()] *)
Definition resetPlayoffs (e : Engine) : Engine :=
  mkEngine (storage e) None None.

(** [getTeamName(teamId)] *)
Definition getTeamName (store : LocalStorage) (teamId : string) : string :=
  match ls_teams store with
  | None => teamId
  | Some teams =>
      match list_find (fun t => t_id t = teamId) teams with
      | Some (_, team) => name team
      | None => teamId
      end
  end.

Definition seedTeam (store : LocalStorage) (seed : Z) (row : Standings.Row) : TeamRef :=
  mkTeamRef (Standings.teamId row) (getTeamName store (Standings.teamId row)) seed row.

Definition newSemifinal (id : string) (home away : TeamRef) : Semifinal :=
  mkSemifinal id home away scheduled None None None None None.

(** The bracket [generatePlayoffBracket] builds from the standings it
    computed, or the error it throws. *)
Definition buildBracket (now : string) (store : LocalStorage)
    (currentStandings : list Standings.Row) : Outcome Bracket :=
  if (length currentStandings <? 4)%nat
  then inl "Need at least 4 teams to generate playoff bracket"
  else
    match take 4 currentStandings with
    | [q0; q1; q2; q3] =>
        inr {| semifinals :=
                 (newSemifinal "semi-1" (seedTeam store 1 q0) (seedTeam store 4 q3),
                  newSemifinal "semi-2" (seedTeam store 2 q1) (seedTeam store 3 q2));
               final := mkFinal None None pending None None None None None None;
               thirdPlace := mkThirdPlace None None pending None None None;
               metadata :=
                 mkMetadata now (take 4 currentStandings) playoffs None None None |}
    | _ => inl "TypeError: qualifiedTeams entry is undefined"
    end.

Section Engine.

Variable localeCompare : string -> string -> Z.

(** [generatePlayoffBracket()] *)
Definition generatePlayoffBracket (now : string) (e : Engine)
    : Outcome Bracket * Engine :=
  let currentStandings :=
    Standings.calculateStandings localeCompare (storage e) None in
  match buildBracket now (storage e) currentStandings with
  | inl err => (inl err, e)
  | inr b => (inr b, saveBracket (mkEngine (storage e) (playoffsSlot e) (Some b)))
  end.

End Engine.

Definition setFinalTeams (home away : option TeamRef) (f : FinalMatch) : FinalMatch :=
  mkFinal home away scheduled (f_homeGoals f) (f_awayGoals f) (f_winner f)
    (f_champion f) (f_runnerUp f) (f_penaltyResult f).

Definition setThirdPlaceTeams (home away : option TeamRef) (t : ThirdPlace) : ThirdPlace :=
  mkThirdPlace home away scheduled (tp_homeGoals t) (tp_awayGoals t) (tp_winner t).

(** [updateBracketProgression()] on the bracket in memory. *)
Definition updateBracketProgression (b : Bracket) : Bracket :=
  let semi1 := fst (semifinals b) in
  let semi2 := snd (semifinals b) in
  let final1 :=
    if bool_decide (is_Some (s_winner semi1)) && bool_decide (is_Some (s_winner semi2))
    then setFinalTeams (s_winner semi1) (s_winner semi2) (final b)
    else final b in
  let third1 :=
    if bool_decide (is_Some (s_loser semi1)) && bool_decide (is_Some (s_loser semi2))
    then setThirdPlaceTeams (s_loser semi1) (s_loser semi2) (thirdPlace b)
    else thirdPlace b in
  mkBracket (semifinals b) final1 third1 (metadata b).

(** [x > y] on two parsed goals: false when either is NaN. *)
Definition gt (x y : option Z) : bool :=
  match x, y with
  | Some a, Some b => a >? b
  | _, _ => false
  end.

(** The statements of [updateSemifinalResult] on the semifinal found: the
    result is written first; then the winner is worked out, and a draw with
    no penalty result throws. The semifinal is returned either way, as the
    object in the bracket has been written to. *)
Definition resolveSemifinal (homeGoals awayGoals : Js.Val)
    (penaltyResult : option PenaltyResult) (s : Semifinal)
    : Outcome unit * Semifinal :=
  let s1 :=
    mkSemifinal (s_id s) (s_homeTeam s) (s_awayTeam s) completed
      (Js.parseInt homeGoals) (Js.parseInt awayGoals)
      (s_winner s) (s_loser s) (s_penaltyResult s) in
  let decided (winner loser : TeamRef) (pen : option PenaltyResult) :=
    (inr tt,
     mkSemifinal (s_id s1) (s_homeTeam s1) (s_awayTeam s1) (s_status s1)
       (s_homeGoals s1) (s_awayGoals s1) (Some winner) (Some loser) pen) in
  if gt (s_homeGoals s1) (s_awayGoals s1)
  then decided (s_homeTeam s1) (s_awayTeam s1) (s_penaltyResult s1)
  else if gt (s_awayGoals s1) (s_homeGoals s1)
  then decided (s_awayTeam s1) (s_homeTeam s1) (s_penaltyResult s1)
  else
    match penaltyResult with
    | Some pen =>
        if bool_decide (p_winner pen = "home")
        then decided (s_homeTeam s1) (s_awayTeam s1) (Some pen)
        else decided (s_awayTeam s1) (s_homeTeam s1) (Some pen)
    | None => (inl "Draw result requires penalty shootout result", s1)
    end.

Definition setSemifinals (ss : Semifinal * Semifinal) (b : Bracket) : Bracket :=
  mkBracket ss (final b) (thirdPlace b) (metadata b).

(** [updateSemifinalResult(matchId, homeGoals, awayGoals, extraTimeGoals,
    penaltyResult)]; the extra time argument is never read. *)
Definition updateSemifinalResult (e : Engine) (matchId : string)
    (homeGoals awayGoals : Js.Val) (penaltyResult : option PenaltyResult)
    : Outcome Semifinal * Engine :=
  let e1 := if bool_decide (is_Some (bracketStructure e)) then e else loadBracket e in
  match bracketStructure e1 with
  | None => (inl "TypeError: bracketStructure is null", e1)
  | Some b =>
      let '(semi1, semi2) := semifinals b in
      let found : option (bool * Semifinal) :=
        if bool_decide (s_id semi1 = matchId) then Some (true, semi1)
        else if bool_decide (s_id semi2 = matchId) then Some (false, semi2)
        else None in
      match found with
      | None => (inl ("Semifinal match " +:+ matchId +:+ " not found"), e1)
      | Some (first, semifinal) =>
          let '(res, semifinal1) :=
            resolveSemifinal homeGoals awayGoals penaltyResult semifinal in
          let b1 :=
            setSemifinals (if first then (semifinal1, semi2) else (semi1, semifinal1)) b in
          match res with
          | inl err => (inl err, mkEngine (storage e1) (playoffsSlot e1) (Some b1))
          | inr _ =>
              (inr semifinal1,
               saveBracket
                 (mkEngine (storage e1) (playoffsSlot e1)
                    (Some (updateBracketProgression b1))))
          end
      end
  end.

(** The statements of [updateFinalResult] on the final. *)
Definition resolveFinal (homeGoals awayGoals : Js.Val)
    (penaltyResult : option PenaltyResult) (f : FinalMatch)
    : Outcome (option TeamRef * option TeamRef) * FinalMatch :=
  let f1 :=
    mkFinal (f_homeTeam f) (f_awayTeam f) completed
      (Js.parseInt homeGoals) (Js.parseInt awayGoals)
      (f_winner f) (f_champion f) (f_runnerUp f) (f_penaltyResult f) in
  let decided (champion runnerUp : option TeamRef) (pen : option PenaltyResult) :=
    (inr (champion, runnerUp),
     mkFinal (f_homeTeam f1) (f_awayTeam f1) (f_status f1)
       (f_homeGoals f1) (f_awayGoals f1) champion champion runnerUp pen) in
  if gt (f_homeGoals f1) (f_awayGoals f1)
  then decided (f_homeTeam f1) (f_awayTeam f1) (f_penaltyResult f1)
  else if gt (f_awayGoals f1) (f_homeGoals f1)
  then decided (f_awayTeam f1) (f_homeTeam f1) (f_penaltyResult f1)
  else
    match penaltyResult with
    | Some pen =>
        if bool_decide (p_winner pen = "home")
        then decided (f_homeTeam f1) (f_awayTeam f1) (Some pen)
        else decided (f_awayTeam f1) (f_homeTeam f1) (Some pen)
    | None => (inl "Final draw requires penalty shootout result", f1)
    end.

(** [updateFinalResult(homeGoals, awayGoals, extraTimeGoals, penaltyResult)];
    [now] is the clock reading for [completedDate]. *)
Definition updateFinalResult (now : string) (e : Engine)
    (homeGoals awayGoals : Js.Val) (penaltyResult : option PenaltyResult)
    : Outcome FinalMatch * Engine :=
  match bracketStructure e with
  | None => (inl "Final match not ready or bracket not generated", e)
  | Some b =>
      if negb (bool_decide (is_Some (f_homeTeam (final b))))
      then (inl "Final match not ready or bracket not generated", e)
      else
        let '(res, final1) :=
          resolveFinal homeGoals awayGoals penaltyResult (final b) in
        match res with
        | inl err =>
            (inl err,
             mkEngine (storage e) (playoffsSlot e)
               (Some (mkBracket (semifinals b) final1 (thirdPlace b) (metadata b))))
        | inr (champion, runnerUp) =>
            let md :=
              mkMetadata (generated (metadata b)) (qualifiedTeams (metadata b))
                phase_completed champion runnerUp (Some now) in
            (inr final1,
             saveBracket
               (mkEngine (storage e) (playoffsSlot e)
                  (Some (mkBracket (semifinals b) final1 (thirdPlace b) md))))
        end
  end.

End Playoff.

(** * Further operations of the engines *)

(** ** Match engine: queries and deletion (matchEngine.js) *)

Module MatchQueries.

(** [getMatch(matchId)] *)
Definition getMatch (store : LocalStorage) (matchId : string) : option Match :=
  match ls_matches store with
  | None => None
  | Some matches => snd <$> list_find (fun m => m_id m = matchId) matches
  end.

(** [getMatchesByTeam(teamId)] *)
Definition getMatchesByTeam (store : LocalStorage) (teamId : string) : list Match :=
  match ls_matches store with
  | None => []
  | Some matches =>
      filter (fun m => homeTeam m = teamId \/ awayTeam m = teamId) matches
  end.

(** [getMatchesByStatus(status)] *)
Definition getMatchesByStatus (store : LocalStorage) (st : Status.t) : list Match :=
  match ls_matches store with
  | None => []
  | Some matches => filter (fun m => status m = st) matches
  end.

(** [getMatchesByDayRange(startDay, endDay)] *)
Definition getMatchesByDayRange (store : LocalStorage) (startDay endDay : Z)
    : list Match :=
  match ls_matches store with
  | None => []
  | Some matches => filter (fun m => startDay <= day m /\ day m <= endDay) matches
  end.

(** [deleteMatch(matchId)]: [splice(matchIndex, 1)], then the full rebuild of
    the statistics when the match taken out was played. *)
Definition deleteMatch (store : LocalStorage) (matchId : string)
    : MatchEngine.Outcome Match * LocalStorage :=
  match ls_matches store with
  | None => (inl "Failed to load matches data", store)
  | Some matches =>
      match list_find (fun m => m_id m = matchId) matches with
      | None => (inl ("Match with ID " +:+ matchId +:+ " not found"), store)
      | Some (matchIndex, deletedMatch) =>
          let saved := mkStorage (ls_teams store) (Some (delete matchIndex matches)) in
          let after :=
            if bool_decide (status deletedMatch = Status.played)
            then snd (MatchEngine.recalculateAllStatistics saved) else saved in
          (inr deletedMatch, after)
      end
  end.

End MatchQueries.

(** ** Reading the cached statistics *)

(** Either side's statements of a match, on one team record. *)
Definition creditSide (home : bool) (m : Match) : Team -> Team :=
  if home
  then MatchEngine.creditHome m
         (Tournament.calculatePoints (homeGoals m) (awayGoals m))
  else MatchEngine.creditAway m
         (Tournament.calculatePoints (homeGoals m) (awayGoals m)).

(** [team.statistics = {played: 0, ...}] on every team. *)
Definition resetStatistics (teams : list Team) : list Team :=
  MatchEngine.setStatistics MatchEngine.zeroStatistics <$> teams.

(** The identity of a team record: everything but its statistics. *)
Definition teamIdentity (t : Team) : string * string * string :=
  (t_id t, name t, shortName t).

(** The counters of a standings row, as a statistics record. *)
Definition rowStatistics (r : Standings.Row) : Statistics :=
  mkStatistics (Standings.played r) (Standings.won r) (Standings.drawn r)
    (Standings.lost r) (Standings.goalsFor r) (Standings.goalsAgainst r)
    (Standings.points r).

(** The sum of a quantity over a list. *)
Definition sumOver {A : Type} (g : A -> Z) (l : list A) : Z :=
  foldr (fun x acc => g x + acc) 0 l.

(** A record whose counters add up: every match played was won, drawn or
    lost, and the points are three a win and one a draw. *)
Definition statisticsAddUp (st : Statistics) : Prop :=
  played st = won st + drawn st + lost st /\ points st = 3 * won st + drawn st.

(** The cached team statistics are what the full rebuild computes from the
    stored matches. *)
Definition cacheCurrent (store : LocalStorage) : Prop :=
  MatchEngine.recalculateAllStatistics store = (true, store).

(** The fixture a match record stands for: its id, day, teams and time. *)
Definition fixture (m : Match) : string * Z * string * string * string :=
  (m_id m, day m, homeTeam m, awayTeam m, scheduledTime m).

(** The matches a team record says it has played. *)
Definition playedCount (t : Team) : Z := played (statistics t).

(** What replaying a match adds to the played counters of a team list: one
    for each side, nothing when a side is not in the list. *)
Definition creditedSides (teams : list Team) (m : Match) : Z :=
  match MatchEngine.findTeam (homeTeam m) teams,
        MatchEngine.findTeam (awayTeam m) teams with
  | Some _, Some _ => 2
  | _, _ => 0
  end.

(** The fixture list of a store, and the identities of its teams. *)
Definition storedFixtures (store : LocalStorage)
    : option (list (string * Z * string * string * string)) :=
  fmap (M := list) fixture <$> ls_matches store.

Definition storedTeams (store : LocalStorage)
    : option (list (string * string * string)) :=
  fmap (M := list) teamIdentity <$> ls_teams store.

(** ** Standings engine: queries (standingsEngine.js) *)

Module StandingsQueries.
Import Standings.

(** [Array.prototype.slice(0, end)] for an integer [end]: a negative [end]
    counts from the back. *)
Definition sliceTo {A : Type} (count : Z) (l : list A) : list A :=
  if count <? 0
  then take (Z.to_nat (Z.max (Z.of_nat (length l) + count) 0)) l
  else take (Z.to_nat count) l.


Section Queries.

Variable localeCompare : string -> string -> Z.

(** [getTeamPosition(teamId)] *)
Definition getTeamPosition (store : LocalStorage) (id : string) : option Z :=
  match list_find (fun r => teamId r = id)
          (calculateStandings localeCompare store None) with
  | Some (_, team) => Some (position team)
  | None => None
  end.

(** [getTopTeams(count = 4)] *)
Definition getTopTeams (store : LocalStorage) (count : option Z) : list Row :=
  sliceTo (default 4 count) (calculateStandings localeCompare store None).

(** [getQualifiedTeams()] *)
Definition getQualifiedTeams (store : LocalStorage) : list Row :=
  filter (fun r => qualified r = true) (calculateStandings localeCompare store None).

(** [getEliminatedTeams()] *)
Definition getEliminatedTeams (store : LocalStorage) : list Row :=
  filter (fun r => negb (qualified r) = true)
    (calculateStandings localeCompare store None).

(** [getStandingsAfterMatchday(day)] *)
Definition getStandingsAfterMatchday (store : LocalStorage) (d : Z) : list Row :=
  match ls_matches store with
  | None => []
  | Some matches =>
      calculateStandings localeCompare store
        (Some (filter (fun m => day m <= d /\ isPlayed m = true) matches))
  end.


End Queries.

End StandingsQueries.

(** What a standings row and a team record say about the same team: the id
    and the seven counters. *)
Definition rowView (r : Standings.Row) : string * Statistics :=
  (Standings.teamId r, rowStatistics r).

Definition teamView (t : Team) : string * Statistics :=
  (t_id t, statistics t).

(** The name a row or a team record goes by. *)
Definition rowIdentity (r : Standings.Row) : string * string :=
  (Standings.teamId r, Standings.teamName r).

Definition teamName2 (t : Team) : string * string := (t_id t, name t).

(** Goals for minus goals against, and wins minus losses, of one team as a
    row or a record shows them. *)
Definition goalBalance (v : string * Statistics) : Z :=
  goalsFor (snd v) - goalsAgainst (snd v).

Definition resultBalance (v : string * Statistics) : Z :=
  won (snd v) - lost (snd v).

(** ** Tournament engine: phase, fixtures and qualification (tournamentEngine.js) *)

Module TournamentQueries.
Import Standings.

(** What [getCurrentPhase] returns; ['unknown'] comes from its [catch] only. *)
Inductive Phase := not_started | group_stage | playoffs.

(** [getCurrentPhase()] *)
Definition getCurrentPhase (store : LocalStorage) : Phase :=
  match ls_matches store with
  | None => not_started
  | Some matches =>
      let playedMatches := filter (fun m => status m = Status.played) matches in
      if (length playedMatches =? 0)%nat then not_started
      else if (length playedMatches <? length matches)%nat then group_stage
      else playoffs
  end.


(** [getNextMatch()]: the first of the scheduled matches sorted by day. *)
Definition getNextMatch (store : LocalStorage) : option Match :=
  match ls_matches store with
  | None => None
  | Some matches =>
      head (Js.sortBy (fun a b => day a - day b)
              (filter (fun m => status m = Status.scheduled) matches))
  end.

(** [getLastMatch()]: the first of the played matches sorted by day,
    latest first. *)
Definition getLastMatch (store : LocalStorage) : option Match :=
  match ls_matches store with
  | None => None
  | Some matches =>
      head (Js.sortBy (fun a b => day b - day a)
              (filter (fun m => status m = Status.played) matches))
  end.

(** The comparator of [determinePlayoffQualification]: points, goal
    difference, goals scored, each descending. *)
Definition qualificationCompare (a b : Row) : Z :=
  if negb (points b =? points a) then points b - points a
  else if negb (goalDifference b =? goalDifference a)
       then goalDifference b - goalDifference a
  else goalsFor b - goalsFor a.

(** [{...team, position: p, qualified: q}] *)
Definition setRank (p : Z) (q : bool) (r : Row) : Row :=
  mkRow (teamId r) (teamName r) (played r) (won r) (drawn r) (lost r)
    (goalsFor r) (goalsAgainst r) (goalDifference r) (points r) (form r) q p.

(** An entry of [qualified] or [eliminated]: the row with its rank, and the
    [playoffSeed]. *)
Record Seeded := mkSeeded {
  se_row : Row;
  playoffSeed : option Z
}.

(** The bracket of the tournament engine: who meets whom in the two
    semifinals. The match ids, names and the empty winner and final fields
    are constants. *)
Record GroupBracket := mkGroupBracket {
  gb_semi1 : Row * Row;
  gb_semi2 : Row * Row
}.

(** [generatePlayoffBracket(qualifiedTeams)]: [None] is the [null] its
    [catch] returns. *)
Definition generatePlayoffBracket (qualifiedTeams : list Row) : option GroupBracket :=
  match qualifiedTeams with
  | q0 :: q1 :: q2 :: q3 :: _ => Some (mkGroupBracket (q0, q3) (q1, q2))
  | _ => None
  end.

Record Qualification := mkQualification {
  q_qualified : list Seeded;
  q_eliminated : list Seeded;
  q_playoffBracket : option GroupBracket;
  q_error : option string
}.

(** [determinePlayoffQualification(standings)]; [None] is an argument that
    is missing or not an array. *)
Definition determinePlayoffQualification (standings : option (list Row))
    : Qualification :=
  match standings with
  | None => mkQualification [] [] None (Some "Invalid standings data")
  | Some rows =>
      let sortedStandings := Js.sortBy qualificationCompare rows in
      let qualifiedTeams := take 4 sortedStandings in
      let eliminatedTeams := drop 4 sortedStandings in
      mkQualification
        (imap (fun index team =>
                 mkSeeded (setRank (Z.of_nat index + 1) true team)
                   (Some (Z.of_nat index + 1))) qualifiedTeams)
        (imap (fun index team =>
                 mkSeeded (setRank (playoffQualifiers + Z.of_nat index + 1) false team)
                   None) eliminatedTeams)
        (generatePlayoffBracket qualifiedTeams)
        None
  end.

End TournamentQueries.


(** The three counters [determinePlayoffQualification] sorts by. *)
Definition rankKey (r : Standings.Row) : Z * Z * Z :=
  (Standings.points r, Standings.goalDifference r, Standings.goalsFor r).

(** ** Playoff engine: phase and summary (playoffEngine.js) *)

Module PlayoffQueries.
Import Playoff.

(** What [getTournamentPhase] returns; ['unknown'] comes from its [catch]
    only. *)
Inductive TournamentPhase :=
  | not_started
  | group_stage
  | playoffs_pending
  | tournament_completed
  | final_scheduled
  | semifinals_completed
  | semifinals_in_progress
  | playoffs_ready.

Definition isCompleted (s : MatchStatus) : bool :=
  match s with completed => true | _ => false end.

Definition isScheduled (s : MatchStatus) : bool :=
  match s with scheduled => true | _ => false end.

(** The chain of tests on the statuses of the final and the semifinals. *)
Definition bracketPhase (b : Bracket) : TournamentPhase :=
  let semi1 := fst (semifinals b) in
  let semi2 := snd (semifinals b) in
  if isCompleted (f_status (final b)) then tournament_completed
  else if isScheduled (f_status (final b)) then final_scheduled
  else if isCompleted (s_status semi1) && isCompleted (s_status semi2)
  then semifinals_completed
  else if isScheduled (s_status semi1) || isScheduled (s_status semi2)
  then semifinals_in_progress
  else playoffs_ready.

(** [if (!this.bracketStructure) this.loadBracket()] *)
Definition ensureLoaded (e : Engine) : Engine :=
  if bool_decide (is_Some (bracketStructure e)) then e else loadBracket e.

(** [getTournamentPhase()]: the phase, and the engine, which may have
    loaded the bracket. *)
Definition getTournamentPhase (e : Engine) : TournamentPhase * Engine :=
  match ls_matches (storage e) with
  | None => (not_started, e)
  | Some matches =>
      let totalGroupMatches := length matches in
      let completedGroupMatches :=
        length (filter (fun m => status m = Status.played) matches) in
      if (completedGroupMatches <? totalGroupMatches)%nat then (group_stage, e)
      else
        let e1 := ensureLoaded e in
        match bracketStructure e1 with
        | None => (playoffs_pending, e1)
        | Some b => (bracketPhase b, e1)
        end
  end.

(** [getPlayoffBracket()] *)
Definition getPlayoffBracket (e : Engine) : option Bracket * Engine :=
  let e1 := ensureLoaded e in (bracketStructure e1, e1).

Record Summary := mkSummary {
  su_phase : TournamentPhase;
  groupStageComplete : bool;
  playoffsGenerated : bool;
  semifinalsComplete : bool;
  finalComplete : bool;
  su_champion : option TeamRef;
  su_runnerUp : option TeamRef;
  su_thirdPlace : option TeamRef
}.

(** [getTournamentSummary()] *)
Definition getTournamentSummary (e : Engine) : Summary * Engine :=
  let '(phase, e1) := getTournamentPhase e in
  let '(bracket, e2) := getPlayoffBracket e1 in
  let groupDone :=
    match phase with
    | group_stage | not_started => false
    | _ => true
    end in
  (match bracket with
   | None => mkSummary phase groupDone false false false None None None
   | Some b =>
       mkSummary phase groupDone true
         (isCompleted (s_status (fst (semifinals b)))
          && isCompleted (s_status (snd (semifinals b))))
         (isCompleted (f_status (final b)))
         (if bool_decide (is_Some (f_champion (final b)))
          then f_champion (final b) else None)
         (if bool_decide (is_Some (f_champion (final b)))
          then f_runnerUp (final b) else None)
         (tp_winner (thirdPlace b))
   end, e2).

End PlayoffQueries.

(** The two teams of a decided tie: one is the winner, the other the loser. *)
Definition decidedAmong (home away : Playoff.TeamRef)
    (winner loser : option Playoff.TeamRef) : Prop :=
  (winner = Some home /\ loser = Some away)
  \/ (winner = Some away /\ loser = Some home).

(** A bracket as the engine keeps it: no semifinal is pending, and the final
    is no longer pending once both semifinals have a winner. *)
Definition bracketInvariant (b : Playoff.Bracket) : Prop :=
  Playoff.s_status (fst (Playoff.semifinals b)) <> Playoff.pending
  /\ Playoff.s_status (snd (Playoff.semifinals b)) <> Playoff.pending
  /\ (is_Some (Playoff.s_winner (fst (Playoff.semifinals b))) ->
      is_Some (Playoff.s_winner (snd (Playoff.semifinals b))) ->
      Playoff.f_status (Playoff.final b) <> Playoff.pending).

(** The invariant on the bracket in memory and on the stored one. *)
Definition engineInvariant (e : Playoff.Engine) : Prop :=
  (forall b, Playoff.bracketStructure e = Some b -> bracketInvariant b)
  /\ (forall b, Playoff.playoffsSlot e = Some b -> bracketInvariant b).

(** Champion and runner-up of a final between two finalists. *)
Definition decidedAmong' (home away champion runnerUp : option Playoff.TeamRef)
    : Prop :=
  (champion = home /\ runnerUp = away) \/ (champion = away /\ runnerUp = home).

(** The engine a page load starts with: the same storage, nothing in
    memory. *)
Definition reloaded (e : Playoff.Engine) : Playoff.Engine :=
  Playoff.mkEngine (Playoff.storage e) (Playoff.playoffsSlot e) None.

(** What a reloaded engine sees after a call on [e]: the bracket the call
    left in memory when it succeeded, the bracket stored before it when it
    failed. *)
Definition savedOnSuccess {A : Type} (e : Playoff.Engine)
    (call : Playoff.Outcome A * Playoff.Engine) : Prop :=
  match call with
  | (inr _, e') =>
      is_Some (Playoff.bracketStructure e')
      /\ fst (PlayoffQueries.getPlayoffBracket (reloaded e'))
         = Playoff.bracketStructure e'
  | (inl _, e') =>
      fst (PlayoffQueries.getPlayoffBracket (reloaded e'))
      = fst (PlayoffQueries.getPlayoffBracket (reloaded e))
  end.

(** ** What the counters of a team mean *)

(** A match counts for the teams [ids] when it is played with both goals
    and both its teams are among [ids]. *)
Definition counts (ids : list string) (m : Match) : Prop :=
  Standings.isPlayed m = true /\ homeTeam m ∈ ids /\ awayTeam m ∈ ids.

(** The counted matches a team took part in. *)
Definition matchesOf (ids : list string) (id : string) (ms : list Match)
    : list Match :=
  filter (fun m => counts ids m /\ (homeTeam m = id \/ awayTeam m = id)) ms.

(** The goals a team scored and conceded in a match it took part in. *)
Definition goalsScored (id : string) (m : Match) : Z :=
  if bool_decide (homeTeam m = id)
  then default 0 (homeGoals m) else default 0 (awayGoals m).

Definition goalsConceded (id : string) (m : Match) : Z :=
  if bool_decide (homeTeam m = id)
  then default 0 (awayGoals m) else default 0 (homeGoals m).

(** The record of a team over a list of its matches, counted by hand: the
    matches, those it won, drew and lost, the goals it scored and conceded,
    and three points a win, one a draw. *)
Definition tally (id : string) (l : list Match) : Statistics :=
  let wins := filter (fun m => goalsConceded id m < goalsScored id m) l in
  let draws := filter (fun m => goalsScored id m = goalsConceded id m) l in
  let losses := filter (fun m => goalsScored id m < goalsConceded id m) l in
  mkStatistics (Z.of_nat (length l))
    (Z.of_nat (length wins)) (Z.of_nat (length draws)) (Z.of_nat (length losses))
    (sumOver (goalsScored id) l) (sumOver (goalsConceded id) l)
    (3 * Z.of_nat (length wins) + Z.of_nat (length draws)).

Definition addStatistics (a b : Statistics) : Statistics :=
  mkStatistics (played a + played b) (won a + won b) (drawn a + drawn b)
    (lost a + lost b) (goalsFor a + goalsFor b)
    (goalsAgainst a + goalsAgainst b) (points a + points b).

(** What replaying a match does to one team record, when ids are unique and
    no match has a team play itself. *)
Definition creditTeam (ids : list string) (t : Team) (m : Match) : Team :=
  if bool_decide (homeTeam m ∈ ids) && bool_decide (awayTeam m ∈ ids)
  then
    if bool_decide (homeTeam m = t_id t) then creditSide true m t
    else if bool_decide (awayTeam m = t_id t) then creditSide false m t
    else t
  else t.


(** ** Standings engine: comparing two matchdays *)

Module StandingsComparison.
Import Standings.

Record Comparison := mkComparison {
  c_teamId : string;
  c_teamName : string;
  fromPosition : Z;
  toPosition : Z;
  positionChange : Z;
  pointsChange : Z
}.

Section Comparing.

Variable localeCompare : string -> string -> Z.

(** [getStandingsComparison(fromDay, toDay)] *)
Definition getStandingsComparison (store : LocalStorage) (fromDay toDay : Z)
    : list Comparison :=
  let fromStandings :=
    StandingsQueries.getStandingsAfterMatchday localeCompare store fromDay in
  let toStandings :=
    StandingsQueries.getStandingsAfterMatchday localeCompare store toDay in
  (fun fromTeam =>
     let toTeam :=
       snd <$> list_find (fun team => teamId team = teamId fromTeam) toStandings in
     let toPos := from_option position (position fromTeam) toTeam in
     mkComparison (teamId fromTeam) (teamName fromTeam) (position fromTeam) toPos
       (position fromTeam - toPos)
       (from_option points 0 toTeam - points fromTeam)) <$> fromStandings.

End Comparing.

End StandingsComparison.

(** ** Tournament engine: the round-robin check (tournamentEngine.js) *)

Module TournamentStructure.

(** [this.maxTeams] and [(maxTeams * (maxTeams - 1)) / 2] *)
Definition maxTeams : nat := 7.
Definition expectedMatches : nat := (maxTeams * (maxTeams - 1)) / 2.

(** The template string [`${a}-${b}`]. *)
Definition pairKey (a b : string) : string := a +:+ "-" +:+ b.

(** The body of [matches.forEach]: [matchPairs] as the list of the keys
    added, or the message of the error thrown. *)
Definition checkPair (teamIds : list string) (acc : string + list string)
    (m : Match) : string + list string :=
  match acc with
  | inl e => inl e
  | inr matchPairs =>
      let pair1 := pairKey (homeTeam m) (awayTeam m) in
      let pair2 := pairKey (awayTeam m) (homeTeam m) in
      if bool_decide (pair1 ∈ matchPairs) || bool_decide (pair2 ∈ matchPairs)
      then inl "Duplicate match found in tournament structure"
      else
        let added := pair1 :: matchPairs in
        if negb (bool_decide (homeTeam m ∈ teamIds))
           || negb (bool_decide (awayTeam m ∈ teamIds))
        then inl "Match contains invalid team ID"
        else inr added
  end.

(** The matches a team id occurs in. *)
Definition teamMatches (matches : list Match) (teamId : string) : list Match :=
  filter (fun m => homeTeam m = teamId \/ awayTeam m = teamId) matches.

(** The result for a valid structure: [{valid: true, teams, matches,
    structure: 'round-robin'}]. *)
Record Structure := mkStructure {
  st_teams : nat;
  st_matches : nat
}.

(** [validateTournamentStructure()]: [inl] is [{valid: false, error}]. *)
Definition validateTournamentStructure (store : LocalStorage) : string + Structure :=
  match ls_teams store, ls_matches store with
  | Some teams, Some matches =>
      if negb (length teams =? maxTeams)%nat
      then inl "Tournament must have exactly 7 teams"
      else if negb (length matches =? expectedMatches)%nat
      then inl "Tournament must have exactly 21 matches for round-robin format"
      else
        let teamIds := t_id <$> teams in
        match foldl (checkPair teamIds) (inr []) matches with
        | inl e => inl e
        | inr _ =>
            match list_find
                    (fun teamId =>
                       length (teamMatches matches teamId) <> (maxTeams - 1)%nat)
                    teamIds with
            | Some (_, teamId) =>
                inl ("Team " +:+ teamId +:+ " has incorrect number of matches")
            | None => inr (mkStructure (length teams) (length matches))
            end
        end
  | _, _ => inl "Missing tournament data"
  end.

End TournamentStructure.

(** Two teams meet in a match, one at home and the other away. *)
Definition meets (m : Match) (x y : string) : Prop :=
  (homeTeam m = x /\ awayTeam m = y) \/ (homeTeam m = y /\ awayTeam m = x).

(** No later match of the list is between the teams of an earlier one. *)
Definition noRematch (ms : list Match) : Prop :=
  StronglySorted (fun m1 m2 => ~ meets m2 (homeTeam m1) (awayTeam m1)) ms.

(** The other team of a match of [x]. *)
Definition opponent (x : string) (m : Match) : string :=
  if bool_decide (homeTeam m = x) then awayTeam m else homeTeam m.

(** How many of the ids a match names: 2, or 1 when a team plays itself. *)
Definition sidesAmong (ids : list string) (m : Match) : Z :=
  Z.of_nat (length (filter (fun x => homeTeam m = x \/ awayTeam m = x) ids)).

(** * Specification-side definitions and sample data *)

(** ** Sample data used by the concrete instances *)

Section SampleData.

Definition sampleTeam (id : string) : Team :=
  mkTeam id ("Team " +:+ id) id MatchEngine.zeroStatistics.

Definition sampleTeams : list Team :=
  [sampleTeam "A"; sampleTeam "B"; sampleTeam "C"; sampleTeam "D"].

Definition sampleMatch (id : string) (day : Z) (home away : string)
    (hg ag : option Z) (st : Status.t) : Match :=
  mkMatch id day home away "21:00" hg ag st None None "2025-03-01T00:00:00.000Z".

(** One played match (A 2-1 B on day 3) and one scheduled (C v D, day 4). *)
Definition sampleMatches : list Match :=
  [ sampleMatch "m1" 3 "A" "B" (Some 2) (Some 1) Status.played;
    sampleMatch "m2" 4 "C" "D" None None Status.scheduled ].

Definition sampleStore : LocalStorage :=
  mkStorage (Some sampleTeams) (Some sampleMatches).

Definition sampleNow : string := "2025-03-05T21:00:00.000Z".

(** Two teams; the stored matches are not in day order: the day 5 match
    (A 3-0 B) comes before the day 3 match (A 0-1 B). *)
Definition unsortedStore : LocalStorage :=
  mkStorage (Some [sampleTeam "A"; sampleTeam "B"])
    (Some [ sampleMatch "m1" 5 "A" "B" (Some 3) (Some 0) Status.played;
            sampleMatch "m2" 3 "A" "B" (Some 0) (Some 1) Status.played ]).

(** The same matches in day order. *)
Definition sortedStore : LocalStorage :=
  mkStorage (Some [sampleTeam "A"; sampleTeam "B"])
    (Some [ sampleMatch "m2" 3 "A" "B" (Some 0) (Some 1) Status.played;
            sampleMatch "m1" 5 "A" "B" (Some 3) (Some 0) Status.played ]).

End SampleData.

(** ** Match records *)

Section MatchSpec.
Import MatchEngine.

(** The transition relation as the specification lists it. *)
Definition specTransitions : list (Status.t * Status.t) :=
  [ (Status.scheduled, Status.played); (Status.scheduled, Status.postponed);
    (Status.postponed, Status.scheduled); (Status.postponed, Status.played);
    (Status.played, Status.postponed) ].

(** The data-model invariant of a match record, as the specification words
    it. *)
Definition matchInvariant (m : Match) : Prop :=
  (homeGoals m = None <-> awayGoals m = None)
  /\ (homeGoals m <> None -> status m = Status.played)
  /\ (postponementReason m <> None <-> status m = Status.postponed).

(** The same reading on the input of [createMatch], after its [|| null] and
    [|| 'scheduled'] defaults. *)
Definition dataInvariant (d : MatchData) : Prop :=
  (Js.numOrNull (d_homeGoals d) = None <-> Js.numOrNull (d_awayGoals d) = None)
  /\ (Js.numOrNull (d_homeGoals d) <> None ->
      default Status.scheduled (d_status d) = Status.played)
  /\ (Js.orNull (d_postponementReason d) <> None <->
      default Status.scheduled (d_status d) = Status.postponed).



(** A 3-0 result handed to [createMatch]: the call succeeds and the record
    it stores has homeGoals 3 and awayGoals null. *)
Definition zeroScoreData : MatchData :=
  mkMatchData "m3" 5 "A" "C" None (Some 3) (Some 0) (Some Status.played) None None.

End MatchSpec.

(** ** Bracket states *)

Section PlayoffSpec.
Import Playoff.

Definition sampleRows : list Standings.Row :=
  Standings.initialRow <$> sampleTeams.

(** The bracket generated from the sample table A, B, C, D. *)
Definition sampleBracket : Bracket :=
  {| semifinals :=
       (newSemifinal "semi-1"
          (seedTeam sampleStore 1 (Standings.initialRow (sampleTeam "A")))
          (seedTeam sampleStore 4 (Standings.initialRow (sampleTeam "D"))),
        newSemifinal "semi-2"
          (seedTeam sampleStore 2 (Standings.initialRow (sampleTeam "B")))
          (seedTeam sampleStore 3 (Standings.initialRow (sampleTeam "C"))));
     final := mkFinal None None pending None None None None None None;
     thirdPlace := mkThirdPlace None None pending None None None;
     metadata := mkMetadata sampleNow sampleRows playoffs None None None |}.

Definition sampleEngine : Engine :=
  mkEngine sampleStore (Some sampleBracket) (Some sampleBracket).

(** The semifinal a drawn result with no penalty outcome leaves behind: the
    goals and [completed] are written, winner and loser are as before. *)
Definition drawnSemifinal (g : Z) (s : Semifinal) : Semifinal :=
  mkSemifinal (s_id s) (s_homeTeam s) (s_awayTeam s) completed (Some g) (Some g)
    (s_winner s) (s_loser s) (s_penaltyResult s).

(** The final a drawn result with no penalty outcome leaves behind. *)
Definition drawnFinal (g : Z) (f : FinalMatch) : FinalMatch :=
  mkFinal (f_homeTeam f) (f_awayTeam f) completed (Some g) (Some g)
    (f_winner f) (f_champion f) (f_runnerUp f) (f_penaltyResult f).

(** The sample bracket after semi-1 ended 2-1 for the home side, A. *)
Definition resolvedEngine : Engine :=
  snd (updateSemifinalResult sampleEngine "semi-1" (Js.JNum 2) (Js.JNum 1) None).

End PlayoffSpec.

(** ** Standings rows *)

Section StandingsSpec.
Import Standings.

(** The form window holds at most five results. *)
Definition formBounded (r : Row) : Prop := (length (form r) <= 5)%nat.

(** The tie-break chain as the specification words it: more points first,
    then the better goal difference, then more goals scored, then fewer
    goals conceded, then the name that collates first. *)
Definition ranksBefore (localeCompare : string -> string -> Z) (a b : Row)
    : Prop :=
  points a > points b
  \/ (points a = points b
      /\ (goalDifference a > goalDifference b
          \/ (goalDifference a = goalDifference b
              /\ (goalsFor a > goalsFor b
                  \/ (goalsFor a = goalsFor b
                      /\ (goalsAgainst a < goalsAgainst b
                          \/ (goalsAgainst a = goalsAgainst b
                              /\ localeCompare (teamName a) (teamName b) < 0))))))).

(** Strings compared code unit by code unit, the shorter first on a common
    prefix: a collation that is a strict total order on names. *)
Definition codeUnitCompare (a b : string) : Z :=
  match String.compare a b with
  | Eq => 0
  | Lt => -1
  | Gt => 1
  end.


End StandingsSpec.

(** ** A sample league *)

(** A league of seven teams in which every two teams meet once, the team
    listed first at home. *)
Definition leagueTeams : list Team :=
  sampleTeam <$> ["T1"; "T2"; "T3"; "T4"; "T5"; "T6"; "T7"].

Fixpoint leagueFixtures (ids : list string) : list (string * string) :=
  match ids with
  | [] => []
  | x :: rest => ((fun y => (x, y)) <$> rest) ++ leagueFixtures rest
  end.

Definition leagueMatches : list Match :=
  (fun p => sampleMatch (fst p +:+ "v" +:+ snd p) 3 (fst p) (snd p)
              None None Status.scheduled)
    <$> leagueFixtures (t_id <$> leagueTeams).

(** * Properties *)

(** ** Points rule *)

Section PointsRule.
Import Tournament.

Lemma calculatePoints_cases (h a : Z) :
  calculatePoints (Some h) (Some a) =
    if h >? a then mkPoints 3 0 home_win
    else if a >? h then mkPoints 0 3 away_win
    else mkPoints 1 1 draw.
Proof. reflexivity. Qed.



End PointsRule.

(** ** [Array.prototype.sort] with a consistent comparator *)

Section SortBy.
Import Js.
Context {A : Type} (compare : A -> A -> Z).

Lemma insertBy_perm (x : A) (l : list A) : insertBy compare x l ≡ₚ x :: l.
Proof.
  induction l as [| y l IH]; cbn; [reflexivity |].
  destruct (compare x y <=? 0); [reflexivity |].
  rewrite IH. apply Permutation_swap.
Qed.

Lemma sortBy_perm (l : list A) : sortBy compare l ≡ₚ l.
Proof.
  induction l as [| x l IH]; cbn; [reflexivity |].
  rewrite insertBy_perm. now rewrite IH.
Qed.

Lemma sortBy_elem_of (x : A) (l : list A) : x ∈ sortBy compare l <-> x ∈ l.
Proof. now rewrite sortBy_perm. Qed.

(** The comparator is consistent: it orders any two elements one way or the
    other, and its "not after" reading is transitive. *)
Hypothesis compare_total : forall x y, 0 < compare x y -> compare y x <= 0.
Hypothesis compare_trans :
  forall x y z, compare x y <= 0 -> compare y z <= 0 -> compare x z <= 0.

Let notAfter (x y : A) : Prop := compare x y <= 0.

Lemma insertBy_sorted (x : A) (l : list A) :
  StronglySorted notAfter l -> StronglySorted notAfter (insertBy compare x l).
Proof.
  induction 1 as [| y l Hs IH Hy]; cbn.
  - repeat constructor.
  - destruct (Z.leb_spec (compare x y) 0) as [Hle | Hgt].
    + constructor; [now constructor |].
      constructor; [exact Hle |].
      eapply Forall_impl; [exact Hy |].
      intros z Hz. now apply compare_trans with y.
    + constructor; [exact IH |].
      rewrite insertBy_perm. constructor; [| exact Hy].
      now apply compare_total.
Qed.

Lemma sortBy_sorted (l : list A) : StronglySorted notAfter (sortBy compare l).
Proof.
  induction l as [| x l IH]; cbn; [constructor | now apply insertBy_sorted].
Qed.

End SortBy.

(** ** Match result state machine *)

Section MatchStateMachine.
Import MatchEngine.

Lemma validStatuses_complete (s : Status.t) : bool_decide (s ∈ validStatuses) = true.
Proof. destruct s; reflexivity. Qed.

Lemma validateStatusTransition_spec (oldStatus newStatus : Status.t) :
  ((oldStatus, newStatus) ∈ specTransitions
   /\ validateStatusTransition oldStatus newStatus = None)
  \/ (((oldStatus, newStatus) ∉ specTransitions)
      /\ validateStatusTransition oldStatus newStatus =
           Some ("Invalid status transition from " +:+ statusName oldStatus
                 +:+ " to " +:+ statusName newStatus)).
Proof.
  destruct oldStatus, newStatus;
    first [ left; split; [apply (bool_decide_unpack _); exact I | reflexivity]
          | right; split; [apply (bool_decide_unpack _); exact I | reflexivity] ].
Qed.

Lemma updateTeamStatistics_matches (store : LocalStorage) (m : Match) :
  ls_matches (snd (updateTeamStatistics store m)) = ls_matches store.
Proof.
  unfold updateTeamStatistics.
  repeat (case_match; try reflexivity).
Qed.

Lemma recalculateAllStatistics_matches (store : LocalStorage) :
  ls_matches (snd (recalculateAllStatistics store)) = ls_matches store.
Proof.
  unfold recalculateAllStatistics.
  destruct (ls_teams store) eqn:Et, (ls_matches store) eqn:Em; cbn; congruence.
Qed.

End MatchStateMachine.

(** Settles the tests on two known constructors. *)
Ltac decide_status :=
  repeat first
    [ rewrite bool_decide_eq_true_2 by reflexivity
    | rewrite bool_decide_eq_true_2 by discriminate
    | rewrite bool_decide_eq_false_2 by discriminate ].

Section MatchStateMachineClaims.
Import MatchEngine.

Lemma setMatchStatus_unfold (now : string) (store : LocalStorage) (matchId : string)
    (matches : list Match) (i : nat) (m : Match) (newStatus : Status.t)
    (reason : option string) :
  matchId <> "" ->
  ls_matches store = Some matches ->
  list_find (fun x => m_id x = matchId) matches = Some (i, m) ->
  setMatchStatus now store matchId newStatus reason =
    match validateStatusTransition (status m) newStatus with
    | Some e => (inl e, store)
    | None =>
        let m1 :=
          setLastUpdated now (setGoalsStatus (homeGoals m) (awayGoals m) newStatus m) in
        let handled : option Match :=
          if bool_decide (newStatus = Status.postponed) then
            if negb (Js.truthy reason) then None
            else
              let m2 := setPostponementReason reason m1 in
              Some (if bool_decide (status m = Status.played)
                    then setBestPlayer None (setGoalsStatus None None (status m2) m2)
                    else m2)
          else Some (setPostponementReason None m1) in
        match handled with
        | None => (inl "Postponement reason is required", store)
        | Some m3 =>
            let saved := mkStorage (ls_teams store) (Some (<[i := m3]> matches)) in
            let after :=
              if bool_decide (status m = Status.played)
                 && negb (bool_decide (newStatus = Status.played))
              then snd (recalculateAllStatistics saved)
              else if bool_decide (newStatus = Status.played)
                      && bool_decide (homeGoals m3 <> None)
                      && bool_decide (awayGoals m3 <> None)
              then snd (updateTeamStatistics saved m3)
              else saved in
            (inr (m3, status m), after)
        end
    end.
Proof.
  intros Hid Hload Hfind. unfold setMatchStatus.
  rewrite bool_decide_eq_false_2 by exact Hid.
  rewrite validStatuses_complete. cbn [negb].
  rewrite Hload, Hfind. reflexivity.
Qed.


End MatchStateMachineClaims.

Section MatchRecords.
Import MatchEngine.


(** C10: whenever [createMatch] stores a record, a homeGoals or awayGoals of
    0 in its input is stored as null: each goals field of the record is the
    input's value with every falsy value, 0 included, turned into null. *)
Theorem createMatch_zero_goals_become_null (now : string) (store store' : LocalStorage)
    (data : MatchData) (m : Match) :
  createMatch now store data = (inr m, store') ->
  (d_homeGoals data = Some 0 -> homeGoals m = None)
  /\ (d_awayGoals data = Some 0 -> awayGoals m = None)
  /\ homeGoals m = Js.numOrNull (d_homeGoals data)
  /\ awayGoals m = Js.numOrNull (d_awayGoals data)
  /\ exists stored, ls_matches store' = Some stored /\ m ∈ stored.
Proof.
  unfold createMatch. intros Hcall.
  destruct (validateMatchData store data); [discriminate |].
  destruct (ls_matches store) as [matches |]; [| discriminate].
  destruct (list_find _ matches); [discriminate |].
  injection Hcall as <- <-. cbn.
  split; [intros ->; reflexivity |].
  split; [intros ->; reflexivity |].
  split; [reflexivity |]. split; [reflexivity |].
  eexists. split; [reflexivity |].
  apply sortBy_elem_of, elem_of_app. right. apply list_elem_of_singleton. reflexivity.
Qed.

Lemma createMatch_zero_goals_become_null_witness :
  exists m store',
    createMatch sampleNow sampleStore zeroScoreData = (inr m, store')
    /\ homeGoals m = Some 3 /\ awayGoals m = None.
Proof.
  eexists. eexists. split; [reflexivity |].
  split; [reflexivity |].
  eapply (createMatch_zero_goals_become_null sampleNow sampleStore _ zeroScoreData);
    reflexivity.
Defined.

End MatchRecords.

Section GoalValidation.
Import MatchEngine.

(** What the goals check lets through: a provided value is accepted exactly
    when [parseInt] of it is a number that is not negative, and that number
    is what gets stored. *)
Lemma checkGoals_accepts (v : Js.Val) (stored : option Z) (g : Z) :
  Js.provided v = true ->
  (checkGoals v stored = Some (Some g) <-> Js.parseInt v = Some g /\ 0 <= g).
Proof.
  intros Hp. unfold checkGoals. rewrite Hp.
  destruct (Js.parseInt v) as [n |]; [| split; [discriminate | intros [? _]; discriminate]].
  destruct (Z.ltb_spec n 0); split.
  - discriminate.
  - intros [[= ->] ?]. lia.
  - intros [= ->]. split; [reflexivity | assumption].
  - intros [[= ->] _]. reflexivity.
Qed.




End GoalValidation.

Section MatchInvariant.
Import MatchEngine.

(** C7, as stated, fails: [createMatch] stores a 2-1 score on a match it
    leaves scheduled, so not every record these operations persist
    satisfies the invariant. *)
Lemma persisted_record_breaks_invariant :
  ~ (forall now store store' data m,
       createMatch now store data = (inr m, store') -> matchInvariant m).
Proof.
  intros claim.
  destruct (claim sampleNow sampleStore
              (snd (createMatch sampleNow sampleStore
                      (mkMatchData "m3" 5 "A" "C" None (Some 2) (Some 1) None None None)))
              (mkMatchData "m3" 5 "A" "C" None (Some 2) (Some 1) None None None)
              (mkMatch "m3" 5 "A" "C" "21:00" (Some 2) (Some 1) Status.scheduled
                 None None sampleNow) eq_refl) as (_ & Hplayed & _).
  cbn in Hplayed. discriminate Hplayed. discriminate.
Qed.

Lemma truthy_is_Some (o : option string) : Js.truthy o = true -> o <> None.
Proof. destruct o; [discriminate | discriminate]. Qed.

Lemma stored_record_invariant_preserved (now : string) (store : LocalStorage)
    (matchId : string) (matches : list Match) (i : nat) (m : Match) :
  matchId <> "" ->
  ls_matches store = Some matches ->
  list_find (fun x => m_id x = matchId) matches = Some (i, m) ->
  matchInvariant m ->
  (forall newStatus reason m' old store',
     setMatchStatus now store matchId newStatus reason = (inr (m', old), store') ->
     matchInvariant m' /\ ls_matches store' = Some (<[i := m']> matches))
  /\ (forall result m' store',
        status m <> Status.postponed ->
        Js.provided (r_homeGoals result) = Js.provided (r_awayGoals result) ->
        updateResult now store matchId result = (inr m', store') ->
        matchInvariant m' /\ ls_matches store' = Some (<[i := m']> matches)).
Proof.
  intros Hid Hload Hfind Hinv. split.
  - intros newStatus reason m' old store'.
    rewrite (setMatchStatus_unfold now store matchId matches i m newStatus reason
               Hid Hload Hfind).
    destruct (validateStatusTransition_spec (status m) newStatus)
      as [[Hin Hv] | [Hout Hv]]; rewrite Hv; [| discriminate].
    destruct Hinv as (Hboth & Hplayed & Hreason).
    destruct (status m) eqn:Hold, newStatus;
      try (exfalso; revert Hin; apply (bool_decide_unpack _); exact I);
      decide_status; cbn [negb andb];
      try (destruct (Js.truthy reason) eqn:Htruthy; cbn [negb]; [| discriminate];
           apply truthy_is_Some in Htruthy);
      cbv zeta; intros [= <- <- <-];
      (split;
       [ unfold matchInvariant; cbn;
         destruct (homeGoals m), (awayGoals m), (postponementReason m);
         intuition congruence
       | rewrite ?recalculateAllStatistics_matches; repeat case_match;
         rewrite ?updateTeamStatistics_matches; reflexivity ]).
  - intros result m' store' Hnp Hprov. unfold updateResult.
    rewrite bool_decide_eq_false_2 by exact Hid. rewrite Hload, Hfind.
    unfold checkGoals. rewrite <- Hprov.
    destruct Hinv as (Hboth & Hplayed & Hreason).
    destruct (Js.provided (r_homeGoals result)).
    + destruct (Js.parseInt (r_homeGoals result)) as [hg |]; [| discriminate].
      destruct (hg <? 0); [discriminate |].
      destruct (Js.parseInt (r_awayGoals result)) as [ag |]; [| discriminate].
      destruct (ag <? 0); [discriminate |].
      decide_status. cbn [andb]. cbv zeta.
      intros [= <- <-]. split.
      * unfold matchInvariant.
        destruct (Js.truthy (r_bestPlayer result)); cbn;
          destruct (postponementReason m), (status m); intuition congruence.
      * destruct (Js.truthy (r_bestPlayer result)); cbn; decide_status;
          rewrite updateTeamStatistics_matches; reflexivity.
    + cbv zeta. intros [= <- <-]. split.
      * unfold matchInvariant.
        destruct (Js.truthy (r_bestPlayer result));
          destruct (homeGoals m), (awayGoals m); decide_status; cbn;
          destruct (postponementReason m), (status m); intuition congruence.
      * repeat case_match; rewrite ?updateTeamStatistics_matches; reflexivity.
Qed.

Lemma createMatch_invariant (now : string) (store store' : LocalStorage)
    (data : MatchData) (m' : Match) :
  createMatch now store data = (inr m', store') ->
  (matchInvariant m' <-> dataInvariant data)
  /\ exists stored, ls_matches store' = Some stored /\ m' ∈ stored.
Proof.
  intros Hcall. unfold createMatch in Hcall.
  destruct (validateMatchData store data); [discriminate |].
  destruct (ls_matches store) as [matches |]; [| discriminate].
  destruct (list_find (fun x => m_id x = d_id data) matches); [discriminate |].
  injection Hcall as <- <-. split; [reflexivity |].
  eexists. split; [reflexivity |].
  apply sortBy_elem_of, elem_of_app. right. apply list_elem_of_singleton. reflexivity.
Qed.

(** C7, amended: [setMatchStatus] persists a record that satisfies the
    invariant whenever the stored record did; so does [updateResult] when
    the stored record is not postponed and the result supplies both goals or
    neither; [createMatch] persists its input as supplied (after the falsy
    to null defaults), so its record satisfies the invariant exactly when
    that input does. *)
Theorem persisted_record_invariant :
  (forall now store matchId matches i m,
     matchId <> "" ->
     ls_matches store = Some matches ->
     list_find (fun x => m_id x = matchId) matches = Some (i, m) ->
     matchInvariant m ->
     (forall newStatus reason m' old store',
        setMatchStatus now store matchId newStatus reason = (inr (m', old), store') ->
        matchInvariant m' /\ ls_matches store' = Some (<[i := m']> matches))
     /\ (forall result m' store',
           status m <> Status.postponed ->
           Js.provided (r_homeGoals result) = Js.provided (r_awayGoals result) ->
           updateResult now store matchId result = (inr m', store') ->
           matchInvariant m' /\ ls_matches store' = Some (<[i := m']> matches)))
  /\ (forall now store store' data m',
        createMatch now store data = (inr m', store') ->
        (matchInvariant m' <-> dataInvariant data)
        /\ exists stored, ls_matches store' = Some stored /\ m' ∈ stored).
Proof.
  split.
  - apply stored_record_invariant_preserved.
  - apply createMatch_invariant.
Qed.

End MatchInvariant.

Section MatchInvariantInstance.
Import MatchEngine.

Lemma sample_played_invariant :
  matchInvariant (sampleMatch "m1" 3 "A" "B" (Some 2) (Some 1) Status.played).
Proof. unfold matchInvariant; cbn. intuition congruence. Qed.

Lemma persisted_record_invariant_witness :
  exists m' store',
    setMatchStatus sampleNow sampleStore "m1" Status.postponed (Some "rain")
      = (inr (m', Status.played), store')
    /\ matchInvariant m'.
Proof.
  destruct (proj1 persisted_record_invariant sampleNow sampleStore "m1"
              sampleMatches 0%nat
              (sampleMatch "m1" 3 "A" "B" (Some 2) (Some 1) Status.played))
    as (Hset & _).
  - discriminate.
  - reflexivity.
  - reflexivity.
  - exact sample_played_invariant.
  - eexists. eexists. split; [reflexivity |].
    refine (proj1 (Hset Status.postponed (Some "rain") _ _ _ _)). reflexivity.
Defined.

End MatchInvariantInstance.

(** ** Playoff bracket *)

Section Bracket.
Import Playoff.


End Bracket.

Section BracketInstances.
Import Playoff.

Lemma sampleBracket_generated :
  buildBracket sampleNow sampleStore sampleRows = inr sampleBracket.
Proof. reflexivity. Qed.


End BracketInstances.

Section DrawResolution.
Import Playoff.

Lemma gt_irrefl (g : Z) : gt (Some g) (Some g) = false.
Proof. cbn. destruct (Z.gtb_spec g g); [lia | reflexivity]. Qed.

Lemma resolveSemifinal_draw (hg ag : Js.Val) (g : Z) (s : Semifinal) :
  Js.parseInt hg = Some g -> Js.parseInt ag = Some g ->
  resolveSemifinal hg ag None s
    = (inl "Draw result requires penalty shootout result", drawnSemifinal g s)
  /\ (forall pen,
        exists s',
          resolveSemifinal hg ag (Some pen) s = (inr tt, s')
          /\ s_winner s' = Some (if bool_decide (p_winner pen = "home")
                                 then s_homeTeam s else s_awayTeam s)
          /\ s_loser s' = Some (if bool_decide (p_winner pen = "home")
                                then s_awayTeam s else s_homeTeam s)).
Proof.
  intros Hh Ha. unfold resolveSemifinal. rewrite Hh, Ha. cbn [s_homeGoals s_awayGoals].
  rewrite gt_irrefl. split; [reflexivity |].
  intros pen. destruct (bool_decide (p_winner pen = "home"));
    eexists; repeat split.
Qed.

Lemma updateSemifinalResult_draw (e : Engine) (b : Bracket) (matchId : string)
    (hg ag : Js.Val) (g : Z) :
  bracketStructure e = Some b ->
  s_id (fst (semifinals b)) = matchId ->
  Js.parseInt hg = Some g -> Js.parseInt ag = Some g ->
  updateSemifinalResult e matchId hg ag None
    = (inl "Draw result requires penalty shootout result",
       mkEngine (storage e) (playoffsSlot e)
         (Some (setSemifinals
                  (drawnSemifinal g (fst (semifinals b)), snd (semifinals b)) b)))
  /\ (forall pen,
        exists s',
          fst (updateSemifinalResult e matchId hg ag (Some pen)) = inr s'
          /\ s_winner s' = Some (if bool_decide (p_winner pen = "home")
                                 then s_homeTeam (fst (semifinals b))
                                 else s_awayTeam (fst (semifinals b)))
          /\ s_loser s' = Some (if bool_decide (p_winner pen = "home")
                                then s_awayTeam (fst (semifinals b))
                                else s_homeTeam (fst (semifinals b)))).
Proof.
  intros Hb Hid Hh Ha.
  destruct (resolveSemifinal_draw hg ag g (fst (semifinals b)) Hh Ha) as [Hdraw Hpen].
  unfold updateSemifinalResult. rewrite Hb. cbn [bracketStructure].
  rewrite bool_decide_eq_true_2 by (eexists; reflexivity).
  rewrite Hb. destruct (semifinals b) as [semi1 semi2] eqn:Hs. cbn [fst snd] in *.
  rewrite bool_decide_eq_true_2 by exact Hid.
  split.
  - rewrite Hdraw. reflexivity.
  - intros pen. destruct (Hpen pen) as (s' & Hres & Hw & Hl).
    rewrite Hres. exists s'. repeat split; assumption.
Qed.

Lemma updateFinalResult_draw (now : string) (e : Engine) (b : Bracket)
    (hg ag : Js.Val) (g : Z) :
  bracketStructure e = Some b ->
  is_Some (f_homeTeam (final b)) ->
  Js.parseInt hg = Some g -> Js.parseInt ag = Some g ->
  updateFinalResult now e hg ag None
    = (inl "Final draw requires penalty shootout result",
       mkEngine (storage e) (playoffsSlot e)
         (Some (mkBracket (semifinals b) (drawnFinal g (final b))
                  (thirdPlace b) (metadata b))))
  /\ (forall pen,
        exists f',
          fst (updateFinalResult now e hg ag (Some pen)) = inr f'
          /\ f_champion f' = (if bool_decide (p_winner pen = "home")
                              then f_homeTeam (final b) else f_awayTeam (final b))
          /\ f_runnerUp f' = (if bool_decide (p_winner pen = "home")
                              then f_awayTeam (final b) else f_homeTeam (final b))).
Proof.
  intros Hb Hready Hh Ha. unfold updateFinalResult. rewrite Hb.
  rewrite bool_decide_eq_true_2 by exact Hready. cbn [negb].
  unfold resolveFinal. rewrite Hh, Ha. cbn [f_homeGoals f_awayGoals].
  rewrite gt_irrefl. split; [reflexivity |].
  intros pen. destruct (bool_decide (p_winner pen = "home"));
    eexists; repeat split.
Qed.

(** C4 on the code: a drawn semifinal or final with no penalty outcome is
    refused with the draw-requires-penalty error, picks no winner and writes
    nothing to the store, but the bracket in memory does not stay as it
    was: the match now carries the drawn goals and the status [completed].
    The same call with a penalty outcome succeeds and makes the named side
    the winner and the other the loser. *)
Theorem draw_without_penalty_rejected :
  (forall e b matchId hg ag g,
     bracketStructure e = Some b ->
     s_id (fst (semifinals b)) = matchId ->
     Js.parseInt hg = Some g -> Js.parseInt ag = Some g ->
     updateSemifinalResult e matchId hg ag None
       = (inl "Draw result requires penalty shootout result",
          mkEngine (storage e) (playoffsSlot e)
            (Some (setSemifinals
                     (drawnSemifinal g (fst (semifinals b)), snd (semifinals b)) b)))
     /\ (forall pen,
           exists s',
             fst (updateSemifinalResult e matchId hg ag (Some pen)) = inr s'
             /\ s_winner s' = Some (if bool_decide (p_winner pen = "home")
                                    then s_homeTeam (fst (semifinals b))
                                    else s_awayTeam (fst (semifinals b)))
             /\ s_loser s' = Some (if bool_decide (p_winner pen = "home")
                                   then s_awayTeam (fst (semifinals b))
                                   else s_homeTeam (fst (semifinals b)))))
  /\ (forall now e b hg ag g,
        bracketStructure e = Some b ->
        is_Some (f_homeTeam (final b)) ->
        Js.parseInt hg = Some g -> Js.parseInt ag = Some g ->
        updateFinalResult now e hg ag None
          = (inl "Final draw requires penalty shootout result",
             mkEngine (storage e) (playoffsSlot e)
               (Some (mkBracket (semifinals b) (drawnFinal g (final b))
                        (thirdPlace b) (metadata b))))
        /\ (forall pen,
              exists f',
                fst (updateFinalResult now e hg ag (Some pen)) = inr f'
                /\ f_champion f' = (if bool_decide (p_winner pen = "home")
                                    then f_homeTeam (final b) else f_awayTeam (final b))
                /\ f_runnerUp f' = (if bool_decide (p_winner pen = "home")
                                    then f_awayTeam (final b) else f_homeTeam (final b)))).
Proof.
  split.
  - apply updateSemifinalResult_draw.
  - apply updateFinalResult_draw.
Qed.

(** The failing call on the generated sample bracket: semi-1 drawn 2-2, no
    penalty outcome. The store slot is untouched, but the bracket in memory
    is not the one before the call. *)
Lemma draw_without_penalty_rejected_witness :
  let e' := snd (updateSemifinalResult sampleEngine "semi-1" (Js.JNum 2) (Js.JNum 2) None) in
  fst (updateSemifinalResult sampleEngine "semi-1" (Js.JNum 2) (Js.JNum 2) None)
    = inl "Draw result requires penalty shootout result"
  /\ playoffsSlot e' = playoffsSlot sampleEngine
  /\ (s_status ∘ fst ∘ semifinals) <$> bracketStructure e' = Some completed
  /\ (s_status ∘ fst ∘ semifinals) <$> bracketStructure sampleEngine = Some scheduled.
Proof.
  destruct (proj1 draw_without_penalty_rejected sampleEngine sampleBracket "semi-1"
              (Js.JNum 2) (Js.JNum 2) 2 eq_refl eq_refl eq_refl eq_refl) as [Hcall _].
  cbv zeta. rewrite Hcall. repeat split.
Defined.

End DrawResolution.

Section Terminality.
Import Playoff.

(** C9, as stated, fails: there is no guard on a semifinal that already has
    a winner. After semi-1 was won 2-1 by A, a second call for semi-1 with
    0-1 succeeds and makes D the winner. *)
Lemma resolved_semifinal_is_overwritten :
  ~ (forall e b matchId hg ag pen r e' b',
       bracketStructure e = Some b ->
       is_Some (s_winner (fst (semifinals b))) ->
       updateSemifinalResult e matchId hg ag pen = (r, e') ->
       bracketStructure e' = Some b' ->
       s_winner (fst (semifinals b')) = s_winner (fst (semifinals b))).
Proof.
  intros claim.
  pose (call := updateSemifinalResult resolvedEngine "semi-1" (Js.JNum 0) (Js.JNum 1) None).
  destruct (bracketStructure resolvedEngine) as [b |] eqn:Hb; [| discriminate Hb].
  destruct (bracketStructure (snd call)) as [b' |] eqn:Hb'; [| discriminate Hb'].
  specialize (claim resolvedEngine b "semi-1" (Js.JNum 0) (Js.JNum 1) None
                (fst call) (snd call) b' Hb).
  injection Hb as <-. injection Hb' as <-.
  specialize (claim (mk_is_Some _ _ eq_refl) eq_refl eq_refl).
  vm_compute in claim. discriminate claim.
Qed.

Lemma resolveSemifinal_keeps_winner (hg ag : Js.Val) (pen : option PenaltyResult)
    (s : Semifinal) :
  is_Some (s_winner s) -> is_Some (s_winner (snd (resolveSemifinal hg ag pen s))).
Proof.
  intros Hw. unfold resolveSemifinal. cbn [s_homeGoals s_awayGoals].
  repeat case_match; cbn; first [exact Hw | eexists; reflexivity].
Qed.

Lemma resolveSemifinal_home_win (hg ag : Js.Val) (pen : option PenaltyResult)
    (s : Semifinal) (h a : Z) :
  Js.parseInt hg = Some h -> Js.parseInt ag = Some a -> a < h ->
  resolveSemifinal hg ag pen s
    = (inr tt,
       mkSemifinal (s_id s) (s_homeTeam s) (s_awayTeam s) completed (Some h) (Some a)
         (Some (s_homeTeam s)) (Some (s_awayTeam s)) (s_penaltyResult s)).
Proof.
  intros Hh Ha Hlt. unfold resolveSemifinal. rewrite Hh, Ha.
  cbn [s_homeGoals s_awayGoals gt].
  destruct (Z.gtb_spec h a); [reflexivity | lia].
Qed.

(** C9, amended: recording a result is not terminal. [updateSemifinalResult]
    and [updateFinalResult] carry no guard for a match that is already
    resolved or a tournament that is completed: a later call for the same
    semifinal overwrites its goals, winner and loser with the new result.
    What these two operations do preserve is that a semifinal with a
    winner still has one afterwards, and that a tournamentPhase that is
    completed stays completed. *)
Theorem resolved_match_stays_resolved (e : Engine) (b : Bracket) :
  bracketStructure e = Some b ->
  (forall matchId hg ag pen r e',
     updateSemifinalResult e matchId hg ag pen = (r, e') ->
     exists b',
       bracketStructure e' = Some b'
       /\ (is_Some (s_winner (fst (semifinals b))) ->
           is_Some (s_winner (fst (semifinals b'))))
       /\ (is_Some (s_winner (snd (semifinals b))) ->
           is_Some (s_winner (snd (semifinals b'))))
       /\ tournamentPhase (metadata b') = tournamentPhase (metadata b))
  /\ (forall now hg ag pen r e',
        updateFinalResult now e hg ag pen = (r, e') ->
        exists b',
          bracketStructure e' = Some b'
          /\ semifinals b' = semifinals b
          /\ (tournamentPhase (metadata b) = phase_completed ->
              tournamentPhase (metadata b') = phase_completed))
  /\ (forall hg ag pen h a,
        Js.parseInt hg = Some h -> Js.parseInt ag = Some a -> a < h ->
        exists s',
          fst (updateSemifinalResult e (s_id (fst (semifinals b))) hg ag pen) = inr s'
          /\ s_homeGoals s' = Some h /\ s_awayGoals s' = Some a
          /\ s_winner s' = Some (s_homeTeam (fst (semifinals b)))
          /\ s_loser s' = Some (s_awayTeam (fst (semifinals b)))).
Proof.
  intros Hb. split; [| split].
  - intros matchId hg ag pen r e'. unfold updateSemifinalResult.
    rewrite Hb. cbn [bracketStructure].
    rewrite bool_decide_eq_true_2 by (eexists; reflexivity). rewrite Hb.
    destruct (semifinals b) as [semi1 semi2] eqn:Hs. cbn [fst snd].
    destruct (bool_decide (s_id semi1 = matchId)).
    + pose proof (resolveSemifinal_keeps_winner hg ag pen semi1) as Hkeep.
      destruct (resolveSemifinal hg ag pen semi1) as [[err | []] s1];
        intros [= <- <-]; eexists; (split; [reflexivity |]); cbn;
        repeat split; auto.
    + destruct (bool_decide (s_id semi2 = matchId)).
      * pose proof (resolveSemifinal_keeps_winner hg ag pen semi2) as Hkeep.
        destruct (resolveSemifinal hg ag pen semi2) as [[err | []] s2];
          intros [= <- <-]; eexists; (split; [reflexivity |]); cbn;
          repeat split; auto.
      * intros [= <- <-]. exists b. rewrite Hs. repeat split; auto.
  - intros now hg ag pen r e'. unfold updateFinalResult. rewrite Hb.
    destruct (bool_decide (is_Some (f_homeTeam (final b)))); cbn [negb].
    + destruct (resolveFinal hg ag pen (final b)) as [[err | [ch ru]] f1];
        intros [= <- <-]; eexists; (split; [reflexivity |]); cbn;
        repeat split; auto.
    + intros [= <- <-]. exists b. repeat split; auto.
  - intros hg ag pen h a Hh Ha Hlt. unfold updateSemifinalResult.
    rewrite Hb. cbn [bracketStructure].
    rewrite bool_decide_eq_true_2 by (eexists; reflexivity). rewrite Hb.
    destruct (semifinals b) as [semi1 semi2] eqn:Hs. cbn [fst snd].
    rewrite bool_decide_eq_true_2 by reflexivity.
    rewrite (resolveSemifinal_home_win hg ag pen semi1 h a Hh Ha Hlt).
    eexists. split; [reflexivity |]. repeat split.
Qed.

(** The second call on the resolved sample bracket: semi-1, first won by A,
    is still resolved afterwards. *)
Lemma resolved_match_stays_resolved_witness :
  exists b',
    bracketStructure
      (snd (updateSemifinalResult resolvedEngine "semi-1" (Js.JNum 0) (Js.JNum 1) None))
      = Some b'
    /\ is_Some (s_winner (fst (semifinals b'))).
Proof.
  destruct (bracketStructure resolvedEngine) as [b |] eqn:Hb; [| discriminate Hb].
  destruct (resolved_match_stays_resolved resolvedEngine b Hb) as (Hsemi & _ & _).
  destruct (Hsemi "semi-1" (Js.JNum 0) (Js.JNum 1) None _ _ eq_refl)
    as (b' & Hb' & Hkeep & _ & _).
  exists b'. split; [exact Hb' |]. apply Hkeep.
  injection Hb as <-. eexists. reflexivity.
Defined.

End Terminality.

(** ** Form *)

Section Form.
Import Standings.

Lemma capForm_bounded (r : Row) : formBounded (capForm r).
Proof.
  unfold formBounded, capForm.
  destruct (Nat.ltb_spec 5 (length (form r))); cbn; [| lia].
  rewrite length_drop. lia.
Qed.

Lemma foldMatch_formBounded (standings : list Row) (m : Match) :
  Forall formBounded standings -> Forall formBounded (foldMatch standings m).
Proof.
  intros Hall. unfold foldMatch.
  destruct (findRow (homeTeam m) standings) as [h |]; [| exact Hall].
  destruct (findRow (awayTeam m) standings) as [a |]; [| exact Hall].
  cbv zeta. apply Forall_lookup. intros k r.
  destruct (decide (a = k)) as [-> | Hak].
  { rewrite list_lookup_alter_eq. intros Hr.
    apply fmap_Some in Hr as (r0 & _ & ->). apply capForm_bounded. }
  rewrite list_lookup_alter_ne by exact Hak.
  destruct (decide (h = k)) as [-> | Hhk].
  { rewrite list_lookup_alter_eq. intros Hr.
    apply fmap_Some in Hr as (r0 & _ & ->). apply capForm_bounded. }
  rewrite list_lookup_alter_ne by exact Hhk.
  intros Hr. apply (proj1 (Forall_lookup _ _) Hall k r). rewrite <- Hr.
  destruct (Tournament.result _); now rewrite ?list_lookup_alter_ne by assumption.
Qed.

Lemma foldl_foldMatch_formBounded (ms : list Match) (standings : list Row) :
  Forall formBounded standings -> Forall formBounded (foldl foldMatch standings ms).
Proof.
  revert standings. induction ms as [| m ms IH]; intros standings Hall; cbn.
  - exact Hall.
  - apply IH, foldMatch_formBounded, Hall.
Qed.

Lemma foldStandings_formBounded (teams : list Team) (matches : list Match) :
  Forall formBounded (foldStandings teams matches).
Proof.
  unfold foldStandings. apply Forall_fmap.
  eapply Forall_impl.
  - apply foldl_foldMatch_formBounded. apply Forall_fmap, Forall_forall.
    intros t _. unfold formBounded. cbn. lia.
  - intros r Hr. exact Hr.
Qed.

Lemma calculateStandings_formBounded (localeCompare : string -> string -> Z)
    (store : LocalStorage) (matches : option (list Match)) :
  Forall formBounded (calculateStandings localeCompare store matches).
Proof.
  unfold calculateStandings.
  destruct (ls_teams store) as [teams |]; [| constructor].
  destruct (from_option Some (ls_matches store) matches) as [ms |]; [| constructor].
  unfold determineQualification. apply Forall_lookup. intros k r.
  rewrite list_lookup_imap. intros Hr.
  apply fmap_Some in Hr as (r0 & Hr0 & ->). unfold formBounded. cbn.
  apply list_elem_of_lookup_2 in Hr0. unfold applyTieBreakers in Hr0.
  apply sortBy_elem_of in Hr0.
  exact (proj1 (Forall_forall _ _) (foldStandings_formBounded teams ms) r0 Hr0).
Qed.

(** C6 on the code: every row keeps at most 5 form entries, but they are in
    the order of the match array, not of the match days. On the unsorted
    store A's form is W then L although the loss (day 3) came before the win
    (day 5); processing in ascending day order gives L then W. *)
Theorem form_follows_array_order (localeCompare : string -> string -> Z) :
  (forall store matches,
     Forall (fun r => (length (form r) <= 5)%nat)
       (calculateStandings localeCompare store matches))
  /\ (fun r => (teamId r, form r)) <$> calculateStandings localeCompare unsortedStore None
       = [("A", [W; L]); ("B", [L; W])]
  /\ (fun r => (teamId r, form r)) <$> calculateStandings localeCompare sortedStore None
       = [("A", [L; W]); ("B", [W; L])].
Proof.
  split; [apply calculateStandings_formBounded |].
  split; reflexivity.
Qed.

End Form.

(** ** Tie-break order *)

Section TieBreak.
Import Standings.

Variable localeCompare : string -> string -> Z.

(** The collation is a consistent comparator on names that tells any two
    different names apart. *)
Hypothesis localeCompare_eq : forall a b, localeCompare a b = 0 <-> a = b.
Hypothesis localeCompare_antisym :
  forall a b, localeCompare a b < 0 <-> 0 < localeCompare b a.
Hypothesis localeCompare_trans :
  forall a b c, localeCompare a b < 0 -> localeCompare b c < 0 -> localeCompare a c < 0.

Ltac split_compare :=
  unfold tieBreakCompare, ranksBefore;
  repeat match goal with
         | |- context [?x =? ?y] => destruct (Z.eqb_spec x y)
         end;
  cbn [negb].



Lemma localeCompare_le_trans (a b c : string) :
  localeCompare a b <= 0 -> localeCompare b c <= 0 -> localeCompare a c <= 0.
Proof.
  intros Hab Hbc.
  destruct (Z.eq_dec (localeCompare a b) 0) as [E | N].
  { apply localeCompare_eq in E. now subst. }
  destruct (Z.eq_dec (localeCompare b c) 0) as [E | N'].
  { apply localeCompare_eq in E. now subst. }
  pose proof (localeCompare_trans a b c). lia.
Qed.

Lemma tieBreakCompare_total (a b : Row) :
  0 < tieBreakCompare localeCompare a b -> tieBreakCompare localeCompare b a <= 0.
Proof.
  pose proof (localeCompare_antisym (teamName b) (teamName a)) as Hanti.
  split_compare; lia.
Qed.

Lemma tieBreakCompare_trans (a b c : Row) :
  tieBreakCompare localeCompare a b <= 0 ->
  tieBreakCompare localeCompare b c <= 0 ->
  tieBreakCompare localeCompare a c <= 0.
Proof.
  pose proof (localeCompare_le_trans (teamName a) (teamName b) (teamName c)) as Htr.
  split_compare; lia.
Qed.







End TieBreak.

(** ** An instance of the collation: code unit order *)

Section CodeUnitOrder.
Import Standings.

Lemma string_compare_refl (s : string) : String.compare s s = Eq.
Proof.
  induction s as [| c s IH]; cbn; [reflexivity |].
  unfold Ascii.compare. now rewrite N.compare_refl.
Qed.

Lemma string_compare_lt_trans (a b c : string) :
  String.compare a b = Lt -> String.compare b c = Lt -> String.compare a c = Lt.
Proof.
  revert b c. induction a as [| x a IH]; intros [| y b] [| z c]; cbn;
    try discriminate; try reflexivity.
  unfold Ascii.compare.
  destruct (N.compare_spec (N_of_ascii x) (N_of_ascii y)) as [Exy | Lxy | Gxy];
    try discriminate;
    destruct (N.compare_spec (N_of_ascii y) (N_of_ascii z)) as [Eyz | Lyz | Gyz];
    try discriminate; intros Hab Hbc.
  - rewrite Exy, Eyz, N.compare_refl. now apply IH with b.
  - rewrite Exy. now apply N.compare_lt_iff in Lyz as ->.
  - rewrite <- Eyz. now apply N.compare_lt_iff in Lxy as ->.
  - assert (N_of_ascii x < N_of_ascii z)%N as Hlt by lia.
    now apply N.compare_lt_iff in Hlt as ->.
Qed.

Lemma codeUnitCompare_eq (a b : string) : codeUnitCompare a b = 0 <-> a = b.
Proof.
  unfold codeUnitCompare. split.
  - destruct (String.compare a b) eqn:E; try discriminate.
    intros _. now apply String.compare_eq_iff.
  - intros ->. now rewrite string_compare_refl.
Qed.

Lemma codeUnitCompare_antisym (a b : string) :
  codeUnitCompare a b < 0 <-> 0 < codeUnitCompare b a.
Proof.
  unfold codeUnitCompare. rewrite (String.compare_antisym a b).
  destruct (String.compare b a); cbn; lia.
Qed.

Lemma codeUnitCompare_trans (a b c : string) :
  codeUnitCompare a b < 0 -> codeUnitCompare b c < 0 -> codeUnitCompare a c < 0.
Proof.
  unfold codeUnitCompare.
  destruct (String.compare a b) eqn:Eab; try lia.
  destruct (String.compare b c) eqn:Ebc; try lia.
  now rewrite (string_compare_lt_trans a b c Eab Ebc).
Qed.


End CodeUnitOrder.

(** * Further properties *)

Local Open Scope list_scope.

(** ** Cached statistics *)

Section CachedStatistics.
Import MatchEngine.

Lemma creditSide_identity (home : bool) (m : Match) (t : Team) :
  t_id (creditSide home m t) = t_id t
  /\ name (creditSide home m t) = name t
  /\ shortName (creditSide home m t) = shortName t.
Proof. destruct home; repeat split. Qed.

Lemma statistics_eq (s1 s2 : Statistics) :
  played s1 = played s2 -> won s1 = won s2 -> drawn s1 = drawn s2 ->
  lost s1 = lost s2 -> goalsFor s1 = goalsFor s2 ->
  goalsAgainst s1 = goalsAgainst s2 -> points s1 = points s2 -> s1 = s2.
Proof. destruct s1, s2; cbn; intros; subst; reflexivity. Qed.

Lemma creditSide_comm (b1 b2 : bool) (m1 m2 : Match) (t : Team) :
  creditSide b1 m1 (creditSide b2 m2 t) = creditSide b2 m2 (creditSide b1 m1 t).
Proof.
  destruct b1, b2; unfold creditSide, creditHome, creditAway, setStatistics;
    destruct (Tournament.result (Tournament.calculatePoints (homeGoals m1) (awayGoals m1))),
             (Tournament.result (Tournament.calculatePoints (homeGoals m2) (awayGoals m2)));
    apply (f_equal (mkTeam _ _ _)); apply statistics_eq; cbn; lia.
Qed.

Lemma alter_creditSide_comm (b1 b2 : bool) (m1 m2 : Match) (i j : nat) (l : list Team) :
  alter (creditSide b1 m1) i (alter (creditSide b2 m2) j l)
  = alter (creditSide b2 m2) j (alter (creditSide b1 m1) i l).
Proof.
  destruct (decide (i = j)) as [-> | Hne].
  - rewrite !list_alter_alter_eq. apply list_alter_ext; [| reflexivity].
    intros t _. apply creditSide_comm.
  - now apply list_alter_alter_ne.
Qed.

Lemma creditMatch_creditSide (teams : list Team) (h a : nat) (m : Match) :
  creditMatch teams h a m = alter (creditSide false m) a (alter (creditSide true m) h teams).
Proof. reflexivity. Qed.

Lemma findTeam_alter (f : Team -> Team) (id : string) (i : nat) (l : list Team) :
  (forall t, t_id (f t) = t_id t) -> findTeam id (alter f i l) = findTeam id l.
Proof.
  intros Hf. unfold findTeam. revert i.
  induction l as [| t l IH]; intros [| i]; cbn; try reflexivity.
  - rewrite Hf. destruct (decide (t_id t = id)); reflexivity.
  - destruct (decide (t_id t = id)); [reflexivity |].
    specialize (IH i). cbn in IH.
    destruct (list_find _ (alter f i l)) as [[? ?] |],
             (list_find _ l) as [[? ?] |]; cbn in *; congruence.
Qed.

Lemma findTeam_replayMatch (id : string) (teams : list Team) (m : Match) :
  findTeam id (replayMatch teams m) = findTeam id teams.
Proof.
  unfold replayMatch.
  destruct (findTeam (homeTeam m) teams) as [h |]; [| reflexivity].
  destruct (findTeam (awayTeam m) teams) as [a |]; [| reflexivity].
  rewrite creditMatch_creditSide.
  rewrite !findTeam_alter; [reflexivity | |]; intros t; apply creditSide_identity.
Qed.

Lemma replayMatch_comm (teams : list Team) (m1 m2 : Match) :
  replayMatch (replayMatch teams m1) m2 = replayMatch (replayMatch teams m2) m1.
Proof.
  unfold replayMatch at 1 3.
  rewrite !findTeam_replayMatch.
  unfold replayMatch.
  destruct (findTeam (homeTeam m1) teams) as [h1 |],
           (findTeam (awayTeam m1) teams) as [a1 |],
           (findTeam (homeTeam m2) teams) as [h2 |],
           (findTeam (awayTeam m2) teams) as [a2 |]; try reflexivity.
  rewrite !creditMatch_creditSide.
  rewrite (alter_creditSide_comm true false m2 m1 h2 a1).
  rewrite (alter_creditSide_comm false false m2 m1 a2 a1).
  rewrite (alter_creditSide_comm true true m2 m1 h2 h1).
  rewrite (alter_creditSide_comm false true m2 m1 a2 h1).
  reflexivity.
Qed.

Lemma foldl_replayMatch_perm (ms ms' : list Match) (teams : list Team) :
  ms ≡ₚ ms' -> foldl replayMatch teams ms = foldl replayMatch teams ms'.
Proof.
  intros Hp. revert teams.
  induction Hp as [| m ms ms' _ IH | m1 m2 ms | ms1 ms2 ms3 _ IH1 _ IH2];
    intros teams; cbn.
  - reflexivity.
  - apply IH.
  - now rewrite replayMatch_comm.
  - now rewrite IH1.
Qed.

Lemma resetStatistics_replayMatch (teams : list Team) (m : Match) :
  resetStatistics (replayMatch teams m) = resetStatistics teams.
Proof.
  unfold replayMatch, resetStatistics.
  destruct (findTeam (homeTeam m) teams) as [h |]; [| reflexivity].
  destruct (findTeam (awayTeam m) teams) as [a |]; [| reflexivity].
  rewrite creditMatch_creditSide.
  rewrite 2!(list_fmap_alter _ _ id) by (apply Forall_forall; intros t _; now destruct t).
  now rewrite !list_alter_id.
Qed.

Lemma resetStatistics_foldl (ms : list Match) (teams : list Team) :
  resetStatistics (foldl replayMatch teams ms) = resetStatistics teams.
Proof.
  revert teams. induction ms as [| m ms IH]; intros teams; cbn; [reflexivity |].
  now rewrite IH, resetStatistics_replayMatch.
Qed.

Lemma resetStatistics_idemp (teams : list Team) :
  resetStatistics (resetStatistics teams) = resetStatistics teams.
Proof.
  unfold resetStatistics. rewrite <- list_fmap_compose. reflexivity.
Qed.

Lemma recalculateAllStatistics_unfold (teams : list Team) (ms : list Match) :
  recalculateAllStatistics (mkStorage (Some teams) (Some ms))
  = (true,
     mkStorage
       (Some (foldl replayMatch (resetStatistics teams)
                (filter (fun m => Standings.isPlayed m = true) ms)))
       (Some ms)).
Proof. reflexivity. Qed.

(** X1: rebuilding the statistics twice gives what rebuilding them once
    gives, return value and store alike, also when data is missing. *)
Theorem recalculateAllStatistics_idempotent (store : LocalStorage) :
  recalculateAllStatistics (snd (recalculateAllStatistics store))
  = recalculateAllStatistics store.
Proof.
  destruct store as [[teams |] [ms |]]; try reflexivity.
  rewrite recalculateAllStatistics_unfold. cbn [snd].
  rewrite recalculateAllStatistics_unfold.
  now rewrite resetStatistics_foldl, resetStatistics_idemp.
Qed.

(** X2: the rebuilt statistics do not depend on the order in which the
    matches are stored. *)
Theorem recalculateAllStatistics_order_independent (teams : list Team)
    (ms ms' : list Match) :
  ms ≡ₚ ms' ->
  ls_teams (snd (recalculateAllStatistics (mkStorage (Some teams) (Some ms))))
  = ls_teams (snd (recalculateAllStatistics (mkStorage (Some teams) (Some ms')))).
Proof.
  intros Hp. rewrite !recalculateAllStatistics_unfold. cbn. f_equal.
  apply foldl_replayMatch_perm. now rewrite Hp.
Qed.

Lemma recalculateAllStatistics_order_independent_witness :
  ls_teams (snd (recalculateAllStatistics sampleStore))
  = ls_teams (snd (recalculateAllStatistics
                     (mkStorage (Some sampleTeams) (Some (reverse sampleMatches))))).
Proof.
  apply (recalculateAllStatistics_order_independent sampleTeams sampleMatches
           (reverse sampleMatches)).
  apply Permutation_sym, reverse_Permutation.
Defined.

End CachedStatistics.

Section StatisticsInvariants.
Import MatchEngine.

Lemma isPlayed_goals (m : Match) :
  Standings.isPlayed m = true ->
  status m = Status.played
  /\ exists h a, homeGoals m = Some h /\ awayGoals m = Some a.
Proof.
  unfold Standings.isPlayed. intros H.
  apply andb_prop in H as [H Ha]. apply andb_prop in H as [Hs Hh].
  apply bool_decide_eq_true_1 in Hs, Hh, Ha.
  split; [exact Hs |].
  destruct (homeGoals m) as [h |]; [| contradiction].
  destruct (awayGoals m) as [a |]; [| contradiction].
  now exists h, a.
Qed.

Lemma creditSide_addUp (home : bool) (m : Match) (t : Team) :
  Standings.isPlayed m = true ->
  statisticsAddUp (statistics t) ->
  statisticsAddUp (statistics (creditSide home m t)).
Proof.
  intros Hp [Hplayed Hpoints].
  destruct (isPlayed_goals m Hp) as (_ & h & a & Hh & Ha).
  unfold creditSide. rewrite Hh, Ha, calculatePoints_cases.
  unfold statisticsAddUp.
  destruct home; destruct (h >? a); [| destruct (a >? h) | | destruct (a >? h)];
    cbn; lia.
Qed.

Lemma replayMatch_addUp (teams : list Team) (m : Match) :
  Standings.isPlayed m = true ->
  Forall (fun t => statisticsAddUp (statistics t)) teams ->
  Forall (fun t => statisticsAddUp (statistics t)) (replayMatch teams m).
Proof.
  intros Hp Hall. unfold replayMatch.
  destruct (findTeam (homeTeam m) teams) as [h |]; [| exact Hall].
  destruct (findTeam (awayTeam m) teams) as [a |]; [| exact Hall].
  rewrite creditMatch_creditSide.
  repeat (apply Forall_alter; [| intros t _; now apply creditSide_addUp]).
  exact Hall.
Qed.

Lemma teamIdentity_replayMatch (teams : list Team) (m : Match) :
  teamIdentity <$> replayMatch teams m = teamIdentity <$> teams.
Proof.
  unfold replayMatch.
  destruct (findTeam (homeTeam m) teams) as [h |]; [| reflexivity].
  destruct (findTeam (awayTeam m) teams) as [a |]; [| reflexivity].
  rewrite creditMatch_creditSide.
  rewrite 2!(list_fmap_alter _ _ id)
    by (apply Forall_forall; intros t _; unfold creditSide; now destruct t).
  now rewrite !list_alter_id.
Qed.

Lemma foldl_replayMatch_invariants (ms : list Match) (teams : list Team) :
  Forall (fun m => Standings.isPlayed m = true) ms ->
  Forall (fun t => statisticsAddUp (statistics t)) teams ->
  Forall (fun t => statisticsAddUp (statistics t)) (foldl replayMatch teams ms)
  /\ teamIdentity <$> foldl replayMatch teams ms = teamIdentity <$> teams.
Proof.
  intros Hms. revert teams.
  induction Hms as [| m ms Hm Hms IH]; intros teams Hall; cbn; [now split |].
  destruct (IH (replayMatch teams m) (replayMatch_addUp teams m Hm Hall)) as [H1 H2].
  split; [exact H1 |]. now rewrite H2, teamIdentity_replayMatch.
Qed.

Lemma played_filter (ms : list Match) :
  Forall (fun m => Standings.isPlayed m = true)
    (filter (fun m => Standings.isPlayed m = true) ms).
Proof. apply Forall_forall. intros m Hm. now apply list_elem_of_filter in Hm as [? _]. Qed.

(** X3: after the full rebuild the teams are the same teams in the same
    order (id, name and short name untouched), the stored matches are
    untouched, and every team's counters add up: played = won + drawn + lost
    and points = 3 * won + drawn. *)
Theorem recalculateAllStatistics_counters_add_up (teams : list Team)
    (ms : list Match) :
  exists teams',
    recalculateAllStatistics (mkStorage (Some teams) (Some ms))
      = (true, mkStorage (Some teams') (Some ms))
    /\ teamIdentity <$> teams' = teamIdentity <$> teams
    /\ Forall (fun t => statisticsAddUp (statistics t)) teams'.
Proof.
  rewrite recalculateAllStatistics_unfold. eexists. split; [reflexivity |].
  destruct (foldl_replayMatch_invariants
              (filter (fun m => Standings.isPlayed m = true) ms)
              (resetStatistics teams) (played_filter ms)) as [H1 H2].
  - apply Forall_fmap, Forall_forall. intros t _. split; reflexivity.
  - split; [| exact H1]. rewrite H2. unfold resetStatistics.
    rewrite <- list_fmap_compose. reflexivity.
Qed.

End StatisticsInvariants.

Section CacheCurrent.
Import MatchEngine MatchQueries.

Lemma storage_eta (store : LocalStorage) :
  store = mkStorage (ls_teams store) (ls_matches store).
Proof. now destruct store. Qed.

Lemma cacheCurrent_inv (store : LocalStorage) :
  cacheCurrent store ->
  exists teams ms,
    store = mkStorage (Some teams) (Some ms)
    /\ foldl replayMatch (resetStatistics teams)
         (filter (fun m => Standings.isPlayed m = true) ms) = teams.
Proof.
  unfold cacheCurrent. destruct store as [[teams |] [ms |]]; try discriminate.
  rewrite recalculateAllStatistics_unfold. intros [= H].
  exists teams, ms. split; [reflexivity | exact H].
Qed.

Lemma cacheCurrent_recalculated (store : LocalStorage) :
  fst (recalculateAllStatistics store) = true ->
  cacheCurrent (snd (recalculateAllStatistics store)).
Proof.
  destruct store as [[teams |] [ms |]]; try discriminate.
  intros _. unfold cacheCurrent.
  rewrite recalculateAllStatistics_unfold. cbn [snd].
  rewrite recalculateAllStatistics_unfold.
  now rewrite resetStatistics_foldl, resetStatistics_idemp.
Qed.

Lemma updateTeamStatistics_replay (teams : list Team) (ms : list Match) (m : Match) :
  snd (updateTeamStatistics (mkStorage (Some teams) (Some ms)) m)
  = if Standings.isPlayed m
    then mkStorage (Some (replayMatch teams m)) (Some ms)
    else mkStorage (Some teams) (Some ms).
Proof.
  unfold updateTeamStatistics, Standings.isPlayed, replayMatch. cbn [ls_teams ls_matches].
  destruct (status m); cbn; try reflexivity.
  destruct (homeGoals m); cbn; try reflexivity.
  destruct (awayGoals m); cbn; try reflexivity.
  destruct (findTeam (homeTeam m) teams); [| reflexivity].
  destruct (findTeam (awayTeam m) teams); reflexivity.
Qed.

(** Replacing a match that does not count by another one: the played
    matches gain the new one exactly when it counts. *)
Lemma played_after_insert (ms : list Match) (i : nat) (m m3 : Match) :
  ms !! i = Some m ->
  Standings.isPlayed m = false ->
  filter (fun x => Standings.isPlayed x = true) (<[i := m3]> ms)
  ≡ₚ (if Standings.isPlayed m3 then [m3] else [])
     ++ filter (fun x => Standings.isPlayed x = true) ms.
Proof.
  intros Hi Hm.
  rewrite insert_take_drop by (eapply lookup_lt_Some; exact Hi).
  rewrite <- (take_drop_middle ms i m Hi) at 3.
  rewrite !filter_app, !filter_cons.
  rewrite (decide_False (P := Standings.isPlayed m = true)) by congruence.
  destruct (Standings.isPlayed m3) eqn:H3.
  - rewrite decide_True by reflexivity. cbn.
    now rewrite <- Permutation_middle.
  - rewrite decide_False by congruence. reflexivity.
Qed.

Lemma cacheCurrent_after_replace (teams : list Team) (ms : list Match)
    (i : nat) (m m3 : Match) :
  cacheCurrent (mkStorage (Some teams) (Some ms)) ->
  ms !! i = Some m ->
  Standings.isPlayed m = false ->
  cacheCurrent
    (if Standings.isPlayed m3
     then mkStorage (Some (replayMatch teams m3)) (Some (<[i := m3]> ms))
     else mkStorage (Some teams) (Some (<[i := m3]> ms))).
Proof.
  intros Hc Hi Hm.
  apply cacheCurrent_inv in Hc as (teams0 & ms0 & [= <- <-] & Hfold).
  pose proof (played_after_insert ms i m m3 Hi Hm) as Hperm.
  unfold cacheCurrent.
  destruct (Standings.isPlayed m3); rewrite recalculateAllStatistics_unfold;
    f_equal; f_equal; f_equal.
  - rewrite resetStatistics_replayMatch.
    rewrite (foldl_replayMatch_perm _ _ _ Hperm).
    rewrite (foldl_replayMatch_perm _ _ _
               (Permutation_app_comm [m3]
                  (filter (fun x => Standings.isPlayed x = true) ms))).
    rewrite foldl_snoc. now rewrite Hfold.
  - rewrite (foldl_replayMatch_perm _ _ _ Hperm). exact Hfold.
Qed.

Lemma getMatch_find (teams : option (list Team)) (ms : list Match)
    (matchId : string) (m : Match) :
  getMatch (mkStorage teams (Some ms)) matchId = Some m ->
  exists i, list_find (fun x => m_id x = matchId) ms = Some (i, m)
            /\ ms !! i = Some m.
Proof.
  unfold getMatch. cbn. intros H.
  destruct (list_find (fun x => m_id x = matchId) ms) as [[i x] |] eqn:Hf;
    [| discriminate].
  injection H as <-. exists i. split; [reflexivity |].
  now apply list_find_Some in Hf as [? _].
Qed.

Lemma if_same_branch (b : bool) (A B : LocalStorage) :
  (if b then (if b then A else B) else B) = if b then A else B.
Proof. now destruct b. Qed.

Lemma credit_when_played (m : Match) (A B : LocalStorage) :
  (if bool_decide (status m = Status.played)
   then (if Standings.isPlayed m then A else B) else B)
  = if Standings.isPlayed m then A else B.
Proof. unfold Standings.isPlayed. now destruct (status m). Qed.

(** X4: the incremental path agrees with the full rebuild. When the cached
    statistics are current and a match that did not count yet gets its
    result through [updateResult], the cached statistics are current
    afterwards too. *)
Theorem updateResult_keeps_cache_current (now : string) (store store' : LocalStorage)
    (matchId : string) (result : ResultData) (m m' : Match) :
  cacheCurrent store ->
  getMatch store matchId = Some m ->
  Standings.isPlayed m = false ->
  updateResult now store matchId result = (inr m', store') ->
  cacheCurrent store'.
Proof.
  intros Hc Hget Hm.
  destruct (cacheCurrent_inv store Hc) as (teams & ms & -> & _).
  destruct (getMatch_find _ ms matchId m Hget) as (i & Hfind & Hi).
  unfold updateResult. cbn [ls_matches ls_teams].
  destruct (bool_decide (matchId = "")); [discriminate |].
  rewrite Hfind.
  destruct (checkGoals (r_homeGoals result) (homeGoals m)) as [hg |]; [| discriminate].
  destruct (checkGoals (r_awayGoals result) (awayGoals m)) as [ag |]; [| discriminate].
  cbv zeta. set (m3 := setLastUpdated now _). clearbody m3.
  intros [= _ <-].
  rewrite updateTeamStatistics_replay, credit_when_played.
  now apply cacheCurrent_after_replace with m.
Qed.

Lemma updateResult_keeps_cache_current_witness :
  cacheCurrent
    (snd (updateResult sampleNow (snd (recalculateAllStatistics sampleStore)) "m2"
            (mkResultData (Js.JNum 1) (Js.JNum 1) None))).
Proof.
  eapply (updateResult_keeps_cache_current sampleNow
            (snd (recalculateAllStatistics sampleStore)) _ "m2"
            (mkResultData (Js.JNum 1) (Js.JNum 1) None)
            (sampleMatch "m2" 4 "C" "D" None None Status.scheduled)).
  - reflexivity.
  - reflexivity.
  - reflexivity.
  - reflexivity.
Defined.

(** X5: [setMatchStatus] keeps the cached statistics current as well,
    whichever transition it performs. *)
Theorem setMatchStatus_keeps_cache_current (now : string) (store store' : LocalStorage)
    (matchId : string) (newStatus : Status.t) (reason : option string)
    (m' : Match) (old : Status.t) :
  cacheCurrent store ->
  setMatchStatus now store matchId newStatus reason = (inr (m', old), store') ->
  cacheCurrent store'.
Proof.
  intros Hc.
  destruct (cacheCurrent_inv store Hc) as (teams & ms & -> & _).
  unfold setMatchStatus. cbn [ls_matches ls_teams].
  destruct (bool_decide (matchId = "")); [discriminate |].
  destruct (negb (bool_decide (newStatus ∈ validStatuses))); [discriminate |].
  destruct (list_find (fun x => m_id x = matchId) ms) as [[i m] |] eqn:Hfind;
    [| discriminate].
  assert (ms !! i = Some m) as Hi by (now apply list_find_Some in Hfind as [? _]).
  destruct (validateStatusTransition_spec (status m) newStatus)
    as [[Hin Hv] | [Hout Hv]]; rewrite Hv; [| discriminate].
  cbv zeta.
  match goal with
  | |- context [match ?h with Some _ => _ | None => (inl "Postponement reason is required", _) end] =>
      set (handled := h)
  end.
  assert (forall m3, handled = Some m3 -> status m3 = newStatus) as Hst.
  { subst handled. intros m3.
    destruct (bool_decide (newStatus = Status.postponed));
      [destruct (negb (Js.truthy reason)); [discriminate |];
       destruct (bool_decide (status m = Status.played)) |];
      intros [= <-]; reflexivity. }
  clearbody handled. destruct handled as [m3 |]; [| discriminate].
  specialize (Hst m3 eq_refl).
  match goal with
  | |- (_, ?a) = _ -> _ =>
      assert (cacheCurrent a) as Hafter; [| intros [= _ _ <-]; exact Hafter]
  end.
  destruct (decide (status m = Status.played)) as [Hold | Hold].
  - (* leaving played: only a postponement is a valid transition *)
    rewrite Hold in Hin.
    destruct newStatus;
      try (exfalso; revert Hin; apply (bool_decide_unpack _); exact I).
    rewrite (bool_decide_eq_true_2 _ Hold). decide_status. cbn [negb andb].
    apply cacheCurrent_recalculated. reflexivity.
  - rewrite (bool_decide_eq_false_2 _ Hold). cbn [andb].
    rewrite updateTeamStatistics_replay.
    assert (Standings.isPlayed m = false) as Hm.
    { unfold Standings.isPlayed. now rewrite (bool_decide_eq_false_2 _ Hold). }
    replace (bool_decide (newStatus = Status.played)
             && bool_decide (homeGoals m3 <> None)
             && bool_decide (awayGoals m3 <> None))
      with (Standings.isPlayed m3)
      by (unfold Standings.isPlayed; now rewrite Hst).
    rewrite if_same_branch.
    now apply cacheCurrent_after_replace with m.
Qed.

Lemma setMatchStatus_keeps_cache_current_witness :
  cacheCurrent
    (snd (setMatchStatus sampleNow (snd (recalculateAllStatistics sampleStore)) "m1"
            Status.postponed (Some "rain"))).
Proof.
  eapply (setMatchStatus_keeps_cache_current sampleNow
            (snd (recalculateAllStatistics sampleStore)) _ "m1"
            Status.postponed (Some "rain")).
  - reflexivity.
  - reflexivity.
Defined.

Lemma played_after_delete (ms : list Match) (i : nat) (m : Match) :
  ms !! i = Some m ->
  Standings.isPlayed m = false ->
  filter (fun x => Standings.isPlayed x = true) (delete i ms)
  = filter (fun x => Standings.isPlayed x = true) ms.
Proof.
  intros Hi Hm. rewrite delete_take_drop.
  rewrite <- (take_drop_middle ms i m Hi) at 3.
  rewrite !filter_app, filter_cons.
  now rewrite (decide_False (P := Standings.isPlayed m = true)) by congruence.
Qed.

(** X6: [deleteMatch] keeps the cached statistics current: a played match
    taken out triggers the full rebuild, any other match did not count. *)
Theorem deleteMatch_keeps_cache_current (store store' : LocalStorage)
    (matchId : string) (m : Match) :
  cacheCurrent store ->
  deleteMatch store matchId = (inr m, store') ->
  cacheCurrent store'.
Proof.
  intros Hc.
  destruct (cacheCurrent_inv store Hc) as (teams & ms & -> & Hfold).
  unfold deleteMatch. cbn [ls_matches ls_teams].
  destruct (list_find (fun x => m_id x = matchId) ms) as [[i d] |] eqn:Hfind;
    [| discriminate].
  assert (ms !! i = Some d) as Hi by (now apply list_find_Some in Hfind as [? _]).
  match goal with
  | |- (_, ?a) = _ -> _ =>
      assert (cacheCurrent a) as Hafter; [| intros [= _ <-]; exact Hafter]
  end.
  destruct (decide (status d = Status.played)) as [Hst | Hst].
  - rewrite (bool_decide_eq_true_2 _ Hst).
    apply cacheCurrent_recalculated. reflexivity.
  - rewrite (bool_decide_eq_false_2 _ Hst).
    unfold cacheCurrent. rewrite recalculateAllStatistics_unfold.
    rewrite (played_after_delete ms i d Hi), Hfold; [reflexivity |].
    unfold Standings.isPlayed. now rewrite (bool_decide_eq_false_2 _ Hst).
Qed.

Lemma deleteMatch_keeps_cache_current_witness :
  cacheCurrent (snd (deleteMatch (snd (recalculateAllStatistics sampleStore)) "m1")).
Proof.
  eapply (deleteMatch_keeps_cache_current
            (snd (recalculateAllStatistics sampleStore)) _ "m1").
  - reflexivity.
  - reflexivity.
Defined.

End CacheCurrent.

(** ** Creating, reading and deleting matches *)

Section SortedInsertion.
Import Js.
Context {A : Type} (compare : A -> A -> Z).
Hypothesis compare_total : forall x y, 0 < compare x y -> compare y x <= 0.
Hypothesis compare_trans :
  forall x y z, compare x y <= 0 -> compare y z <= 0 -> compare x z <= 0.

Lemma insertBy_head (x : A) (l : list A) :
  Forall (fun z => compare x z <= 0) l -> insertBy compare x l = x :: l.
Proof.
  destruct 1 as [| z l Hz _]; cbn; [reflexivity |].
  destruct (Z.leb_spec (compare x z) 0); [reflexivity | lia].
Qed.

(** Sorting a sorted array changes nothing. *)
Lemma sortBy_sorted_id (l : list A) :
  StronglySorted (fun a b => compare a b <= 0) l -> sortBy compare l = l.
Proof.
  induction 1 as [| x l _ IH Hx]; [reflexivity |].
  change (insertBy compare x (sortBy compare l) = x :: l).
  rewrite IH. now apply insertBy_head.
Qed.

(** Inserting next to an element [x] and taking [x] out again is inserting
    without it, when the array around [x] is sorted. *)
Lemma insertBy_around (y x : A) (l1 l2 : list A) :
  StronglySorted (fun a b => compare a b <= 0) (l1 ++ x :: l2) ->
  exists k1 k2,
    insertBy compare y (l1 ++ x :: l2) = k1 ++ x :: k2
    /\ k1 ++ k2 = insertBy compare y (l1 ++ l2)
    /\ (forall z, z ∈ k1 -> z = y \/ z ∈ l1).
Proof.
  induction l1 as [| z l1 IH]; cbn; intros Hs.
  - apply StronglySorted_inv in Hs as [_ Hx].
    destruct (Z.leb_spec (compare y x) 0) as [Hle | Hgt].
    + exists [y], l2. cbn. split; [reflexivity |]. split.
      * symmetry. apply insertBy_head.
        eapply Forall_impl; [exact Hx |]. intros z Hz. cbn in Hz.
        now apply compare_trans with x.
      * intros z Hz. left. now apply list_elem_of_singleton in Hz.
    + exists [], (insertBy compare y l2). cbn. split; [reflexivity |].
      split; [reflexivity |]. intros z Hz. now apply elem_of_nil in Hz.
  - apply StronglySorted_inv in Hs as [Hs Hz].
    destruct (Z.leb_spec (compare y z) 0) as [Hle | Hgt].
    + exists (y :: z :: l1), l2. cbn. split; [reflexivity |].
      split; [reflexivity |].
      intros w Hw. apply elem_of_cons in Hw as [-> | Hw]; [now left | now right].
    + destruct (IH Hs) as (k1 & k2 & H1 & H2 & H3).
      exists (z :: k1), k2. cbn. rewrite H1, H2. split; [reflexivity |].
      split; [reflexivity |].
      intros w Hw. apply elem_of_cons in Hw as [-> | Hw].
      * right. now left.
      * destruct (H3 w Hw) as [-> | Hin]; [now left | right; now right].
Qed.

(** The array sorted with [x] appended is the array sorted without it, with
    [x] put in somewhere. *)
Lemma sortBy_snoc_split (x : A) (l : list A) :
  exists k1 k2,
    sortBy compare (l ++ [x]) = k1 ++ x :: k2
    /\ k1 ++ k2 = sortBy compare l
    /\ (forall z, z ∈ k1 -> z ∈ l).
Proof.
  induction l as [| y l IH].
  - exists [], []. repeat split. intros z Hz. now apply elem_of_nil in Hz.
  - destruct IH as (k1 & k2 & H1 & H2 & H3).
    change (sortBy compare ((y :: l) ++ [x]))
      with (insertBy compare y (sortBy compare (l ++ [x]))).
    change (sortBy compare (y :: l)) with (insertBy compare y (sortBy compare l)).
    rewrite H1.
    destruct (insertBy_around y x k1 k2) as (j1 & j2 & J1 & J2 & J3).
    { rewrite <- H1. now apply sortBy_sorted. }
    exists j1, j2. split; [exact J1 |]. split.
    + rewrite J2, H2. reflexivity.
    + intros z Hz. destruct (J3 z Hz) as [-> | Hin]; [now left |].
      right. now apply H3.
Qed.

End SortedInsertion.

Lemma StronglySorted_weaken {A : Type} (R R' : A -> A -> Prop) (l : list A) :
  (forall a b, R a b -> R' a b) -> StronglySorted R l -> StronglySorted R' l.
Proof.
  intros HR. induction 1 as [| x l _ IH Hx]; constructor; [exact IH |].
  eapply Forall_impl; [exact Hx | intros b; apply HR].
Qed.

Section MatchStore.
Import MatchEngine MatchQueries.

(** The comparator [createMatch] sorts with. *)
Let byDay (a b : Match) : Z := day a - day b.

Lemma byDay_total (x y : Match) : 0 < byDay x y -> byDay y x <= 0.
Proof. unfold byDay. lia. Qed.

Lemma byDay_trans (x y z : Match) : byDay x y <= 0 -> byDay y z <= 0 -> byDay x z <= 0.
Proof. unfold byDay. lia. Qed.

Lemma createMatch_success (now : string) (store store' : LocalStorage)
    (data : MatchData) (m : Match) :
  createMatch now store data = (inr m, store') ->
  exists ms,
    validateMatchData store data = None
    /\ ls_matches store = Some ms
    /\ list_find (fun x => m_id x = d_id data) ms = None
    /\ m_id m = d_id data /\ day m = d_day data
    /\ homeTeam m = d_homeTeam data /\ awayTeam m = d_awayTeam data
    /\ homeGoals m = Js.numOrNull (d_homeGoals data)
    /\ awayGoals m = Js.numOrNull (d_awayGoals data)
    /\ store' = mkStorage (ls_teams store) (Some (Js.sortBy byDay (ms ++ [m]))).
Proof.
  unfold createMatch. intros H.
  destruct (validateMatchData store data); [discriminate |].
  destruct (ls_matches store) as [ms |]; [| discriminate].
  destruct (list_find (fun x => m_id x = d_id data) ms) eqn:Hf; [discriminate |].
  injection H as <- <-. exists ms. repeat split. exact Hf.
Qed.

(** X7: after a successful [createMatch] the stored matches are the old
    ones and the new one, in ascending day order whatever the order was
    before; the teams are untouched. *)
Theorem createMatch_keeps_day_order (now : string) (store store' : LocalStorage)
    (data : MatchData) (m : Match) :
  createMatch now store data = (inr m, store') ->
  exists ms ms',
    ls_matches store = Some ms
    /\ ls_matches store' = Some ms'
    /\ ms' ≡ₚ m :: ms
    /\ StronglySorted (fun a b => day a <= day b) ms'
    /\ ls_teams store' = ls_teams store.
Proof.
  intros H. destruct (createMatch_success now store store' data m H)
    as (ms & _ & Hms & _ & _ & _ & _ & _ & _ & _ & ->).
  exists ms, (Js.sortBy byDay (ms ++ [m])). repeat split; try assumption.
  - rewrite sortBy_perm. now rewrite Permutation_app_comm.
  - eapply StronglySorted_weaken;
      [| apply (sortBy_sorted byDay byDay_total byDay_trans)].
    intros a b. unfold byDay. cbn. lia.
Qed.

Lemma createMatch_keeps_day_order_witness :
  exists ms',
    ls_matches
      (snd (createMatch sampleNow unsortedStore
              (mkMatchData "m3" 4 "B" "A" None None None None None None)))
      = Some ms'
    /\ StronglySorted (fun a b => day a <= day b) ms'.
Proof.
  destruct (createMatch_keeps_day_order sampleNow unsortedStore
              (snd (createMatch sampleNow unsortedStore
                      (mkMatchData "m3" 4 "B" "A" None None None None None None)))
              (mkMatchData "m3" 4 "B" "A" None None None None None None)
              (mkMatch "m3" 4 "B" "A" "21:00" None None Status.scheduled
                 None None sampleNow) eq_refl)
    as (ms & ms' & _ & Hms' & _ & Hs & _).
  exists ms'. split; assumption.
Defined.

Lemma validateMatchData_accepts (store : LocalStorage) (data : MatchData) :
  validateMatchData store data = None ->
  d_id data <> ""
  /\ ramadanDayRange_min <= d_day data <= ramadanDayRange_max
  /\ d_homeTeam data <> "" /\ d_awayTeam data <> ""
  /\ d_homeTeam data <> d_awayTeam data
  /\ (forall teams, ls_teams store = Some teams ->
        d_homeTeam data ∈ t_id <$> teams /\ d_awayTeam data ∈ t_id <$> teams)
  /\ (forall g, d_homeGoals data = Some g -> 0 <= g)
  /\ (forall g, d_awayGoals data = Some g -> 0 <= g)
  /\ (Js.truthy (d_scheduledTime data) = true ->
        timeRegex (default "" (d_scheduledTime data)) = true).
Proof.
  unfold validateMatchData.
  destruct (bool_decide_reflect (d_id data = "")) as [| Hid]; [discriminate |].
  destruct (Z.eqb_spec (d_day data) 0) as [| Hday0]; [discriminate |].
  destruct (bool_decide_reflect (d_homeTeam data = "")) as [| Hh]; [discriminate |].
  destruct (bool_decide_reflect (d_awayTeam data = "")) as [| Ha]; [discriminate |].
  cbn [orb].
  destruct (bool_decide_reflect (d_homeTeam data = d_awayTeam data)) as [| Hne];
    [discriminate |].
  destruct (Z.ltb_spec (d_day data) ramadanDayRange_min) as [| Hlo];
    [discriminate |].
  destruct (Z.gtb_spec (d_day data) ramadanDayRange_max) as [| Hhi];
    [discriminate |].
  cbn [orb]. cbv zeta.
  intros H.
  assert (forall teams, ls_teams store = Some teams ->
            d_homeTeam data ∈ t_id <$> teams /\ d_awayTeam data ∈ t_id <$> teams)
    as Hteams.
  { intros teams Ht. rewrite Ht in H.
    destruct (bool_decide_reflect (d_homeTeam data ∈ t_id <$> teams)) as [Hin1 |];
      [| discriminate].
    destruct (bool_decide_reflect (d_awayTeam data ∈ t_id <$> teams)) as [Hin2 |];
      [| discriminate].
    now split. }
  assert (match d_status data with
          | Some s => negb (bool_decide (s ∈ validStatuses))
          | None => false
          end = false) as Hstatus.
  { destruct (d_status data) as [s |]; [| reflexivity].
    now rewrite validStatuses_complete. }
  rewrite Hstatus in H.
  assert ((forall g, d_homeGoals data = Some g -> 0 <= g)
          /\ (forall g, d_awayGoals data = Some g -> 0 <= g)
          /\ (Js.truthy (d_scheduledTime data) = true ->
               timeRegex (default "" (d_scheduledTime data)) = true)) as Hrest.
  { destruct (ls_teams store) as [teams |];
      [destruct (negb (bool_decide (d_homeTeam data ∈ t_id <$> teams)));
         [discriminate |];
       destruct (negb (bool_decide (d_awayTeam data ∈ t_id <$> teams)));
         [discriminate |] |];
      (destruct (d_homeGoals data) as [hg |];
       [cbn in H; destruct (Z.ltb_spec hg 0) as [| Hhg]; [discriminate |] |];
       (destruct (d_awayGoals data) as [ag |];
        [cbn in H; destruct (Z.ltb_spec ag 0) as [| Hag]; [discriminate |] |]);
       (repeat split;
        [ intros g [= <-]; assumption || lia
        | intros g [= <-]; assumption || lia
        | intros Ht; rewrite Ht in H; cbn in H;
          destruct (timeRegex (default "" (d_scheduledTime data)));
            [reflexivity | discriminate] ])). }
  destruct Hrest as (Hg1 & Hg2 & Htime).
  repeat split; try assumption; try lia; try (now apply Hteams).
Qed.


(** X9: a created match is found by every query that should find it. What
    [createMatch] stored is what [getMatch] reads back under the new id,
    and there was no match under that id before; the match is among those
    [getMatchesByTeam] returns for its home and for its away team, among
    those [getMatchesByStatus] returns for its status, and among those
    [getMatchesByDayRange] returns for the days 3 to 23. *)
Theorem createMatch_then_getMatch (now : string) (store store' : LocalStorage)
    (data : MatchData) (m : Match) :
  createMatch now store data = (inr m, store') ->
  getMatch store (d_id data) = None
  /\ getMatch store' (d_id data) = Some m
  /\ m ∈ getMatchesByTeam store' (homeTeam m)
  /\ m ∈ getMatchesByTeam store' (awayTeam m)
  /\ m ∈ getMatchesByStatus store' (status m)
  /\ m ∈ getMatchesByDayRange store' ramadanDayRange_min ramadanDayRange_max.
Proof.
  intros H. destruct (createMatch_success now store store' data m H)
    as (ms & Hv & Hms & Hnone & Hid & Hday & _ & _ & _ & _ & ->).
  assert (m ∈ Js.sortBy byDay (ms ++ [m])) as Hin.
  { apply sortBy_elem_of, elem_of_app. right. now apply list_elem_of_singleton. }
  destruct (validateMatchData_accepts store data Hv) as (_ & Hrange & _).
  unfold getMatch, getMatchesByTeam, getMatchesByStatus, getMatchesByDayRange.
  rewrite Hms, Hnone. cbn [ls_matches].
  split; [reflexivity |]. split.
  - destruct (list_find_elem_of (fun x => m_id x = d_id data) _ m Hin Hid)
      as [[i x] Hfind].
    rewrite Hfind. cbn. f_equal.
    apply list_find_Some in Hfind as (Hi & Hx & _).
    apply list_elem_of_lookup_2, sortBy_elem_of, elem_of_app in Hi as [Hold | Hnew].
    + exfalso. apply list_find_None in Hnone.
      exact (proj1 (Forall_forall _ _) Hnone x Hold Hx).
    + now apply list_elem_of_singleton in Hnew.
  - repeat split; apply list_elem_of_filter; (split; [| exact Hin]);
      [now left | now right | reflexivity | now rewrite Hday].
Qed.

Lemma createMatch_then_getMatch_witness :
  getMatch (snd (createMatch sampleNow sampleStore zeroScoreData)) "m3"
  = Some (mkMatch "m3" 5 "A" "C" "21:00" (Some 3) None Status.played
            None None sampleNow).
Proof.
  apply (createMatch_then_getMatch sampleNow sampleStore
           (snd (createMatch sampleNow sampleStore zeroScoreData)) zeroScoreData).
  reflexivity.
Defined.

Lemma find_after_delete (P : Match -> Prop) `{!forall x, Decision (P x)}
    (l : list Match) (i : nat) (m : Match) :
  l !! i = Some m -> ~ P m ->
  snd <$> list_find P (delete i l) = snd <$> list_find P l.
Proof.
  revert i. induction l as [| x l IH]; intros [| i] Hi Hm; cbn in *;
    try discriminate.
  - injection Hi as ->. rewrite decide_False by exact Hm.
    destruct (list_find P l) as [[? ?] |]; reflexivity.
  - destruct (decide (P x)); [reflexivity |].
    specialize (IH i Hi Hm).
    destruct (list_find P (delete i l)) as [[? ?] |],
             (list_find P l) as [[? ?] |]; cbn in *; congruence.
Qed.

(** X10: [deleteMatch] refuses an id that is not stored and leaves the store
    as it was; otherwise it takes out exactly the first match with that id:
    one match fewer, every other id reads back as before, and with unique
    ids nothing is left under the deleted id. *)
Theorem deleteMatch_removes_one (store : LocalStorage) (matchId : string) :
  match deleteMatch store matchId with
  | (inl _, store') => store' = store /\ getMatch store matchId = None
  | (inr m, store') =>
      getMatch store matchId = Some m
      /\ exists ms i,
           ls_matches store = Some ms /\ ms !! i = Some m
           /\ ls_matches store' = Some (delete i ms)
           /\ (forall other, other <> matchId ->
                 getMatch store' other = getMatch store other)
           /\ (NoDup (m_id <$> ms) -> getMatch store' matchId = None)
  end.
Proof.
  unfold deleteMatch, getMatch.
  destruct (ls_matches store) as [ms |] eqn:Hms; [| now split].
  destruct (list_find (fun x => m_id x = matchId) ms) as [[i m] |] eqn:Hfind;
    [| now split].
  apply list_find_Some in Hfind as (Hi & Hid & _).
  split; [reflexivity |]. exists ms, i.
  assert (ls_matches
            (if bool_decide (status m = Status.played)
             then snd (recalculateAllStatistics
                         (mkStorage (ls_teams store) (Some (delete i ms))))
             else mkStorage (ls_teams store) (Some (delete i ms)))
          = Some (delete i ms)) as Hafter.
  { destruct (bool_decide (status m = Status.played)); [| reflexivity].
    now rewrite recalculateAllStatistics_matches. }
  rewrite Hafter. repeat split; try assumption.
  - intros other Hne. apply find_after_delete with m; [exact Hi | congruence].
  - intros Hnd.
    assert (list_find (fun x => m_id x = matchId) (delete i ms) = None) as ->;
      [| reflexivity].
    apply list_find_None, Forall_forall. intros x Hx Hxid.
    rewrite delete_take_drop in Hx.
    rewrite <- (take_drop_middle ms i m Hi), fmap_app, fmap_cons in Hnd.
    apply NoDup_app in Hnd as (_ & Hdisj & Hnd).
    apply NoDup_cons in Hnd as [Hnotin _].
    apply elem_of_app in Hx as [Hx | Hx].
    + apply (Hdisj (m_id x)); [now apply list_elem_of_fmap_2 |].
      rewrite Hxid, <- Hid. now left.
    + apply Hnotin. rewrite Hid, <- Hxid. now apply list_elem_of_fmap_2.
Qed.

(** X11: deleting the match just created gives back the stored matches, when
    they were in day order: [createMatch] followed by [deleteMatch] of the
    new id succeeds, returns the new match and restores the match list, and
    the whole store if the new match was not a played one. *)
Theorem createMatch_then_deleteMatch (now : string) (store store1 : LocalStorage)
    (data : MatchData) (m : Match) (ms : list Match) :
  ls_matches store = Some ms ->
  StronglySorted (fun a b => day a <= day b) ms ->
  createMatch now store data = (inr m, store1) ->
  exists store2,
    deleteMatch store1 (d_id data) = (inr m, store2)
    /\ ls_matches store2 = Some ms
    /\ (status m <> Status.played -> store2 = store).
Proof.
  intros Hms Hsorted H.
  destruct (createMatch_success now store store1 data m H)
    as (ms0 & _ & Hms0 & Hnone & Hid & _ & _ & _ & _ & _ & ->).
  rewrite Hms in Hms0. injection Hms0 as <-.
  destruct (sortBy_snoc_split byDay byDay_total byDay_trans m ms)
    as (k1 & k2 & Hsplit & Hrest & Hk1).
  rewrite (sortBy_sorted_id byDay) in Hrest
    by (eapply StronglySorted_weaken; [| exact Hsorted];
        intros a b; unfold byDay; cbn; lia).
  assert (list_find (fun x => m_id x = d_id data) (k1 ++ m :: k2)
          = Some (length k1, m)) as Hfind.
  { rewrite list_find_app_r.
    - cbn. rewrite decide_True by exact Hid. cbn. f_equal.
    - apply list_find_None, Forall_forall. intros x Hx.
      apply list_find_None in Hnone.
      exact (proj1 (Forall_forall _ _) Hnone x (Hk1 x Hx)). }
  unfold deleteMatch. cbn [ls_matches ls_teams]. rewrite Hsplit, Hfind.
  rewrite delete_middle, Hrest.
  eexists. split; [reflexivity |]. split.
  - destruct (bool_decide (status m = Status.played)); [| reflexivity].
    now rewrite recalculateAllStatistics_matches.
  - intros Hst. rewrite (bool_decide_eq_false_2 _ Hst).
    rewrite (storage_eta store), Hms. reflexivity.
Qed.

Lemma createMatch_then_deleteMatch_witness :
  exists store2,
    deleteMatch
      (snd (createMatch sampleNow sampleStore
              (mkMatchData "m3" 3 "B" "C" None None None None None None))) "m3"
      = (inr (mkMatch "m3" 3 "B" "C" "21:00" None None Status.scheduled
                None None sampleNow), store2)
    /\ ls_matches store2 = Some sampleMatches.
Proof.
  destruct (createMatch_then_deleteMatch sampleNow sampleStore
              (snd (createMatch sampleNow sampleStore
                      (mkMatchData "m3" 3 "B" "C" None None None None None None)))
              (mkMatchData "m3" 3 "B" "C" None None None None None None)
              (mkMatch "m3" 3 "B" "C" "21:00" None None Status.scheduled
                 None None sampleNow) sampleMatches)
    as (store2 & Hdel & Hms & _).
  - reflexivity.
  - repeat constructor; cbn; lia.
  - reflexivity.
  - exists store2. split; assumption.
Defined.

End MatchStore.

Section CreateAndCache.
Import MatchEngine MatchQueries.

(** X12: [createMatch] never touches the team statistics, so it keeps them
    current exactly when the new match does not count: a match created as
    scheduled, postponed or without both goals. *)
Theorem createMatch_keeps_cache_current (now : string) (store store' : LocalStorage)
    (data : MatchData) (m : Match) :
  cacheCurrent store ->
  createMatch now store data = (inr m, store') ->
  Standings.isPlayed m = false ->
  cacheCurrent store'.
Proof.
  intros Hcur Hcreate Hnot.
  destruct (cacheCurrent_inv store Hcur) as (teams & ms & -> & Hfold).
  unfold createMatch in Hcreate. cbn [ls_matches ls_teams] in Hcreate.
  destruct (validateMatchData _ data); [discriminate |].
  destruct (list_find _ ms); [discriminate |].
  cbv zeta in Hcreate. injection Hcreate as Hm <-.
  unfold cacheCurrent. rewrite recalculateAllStatistics_unfold.
  f_equal. f_equal. f_equal.
  rewrite <- Hfold at 2. apply foldl_replayMatch_perm.
  rewrite sortBy_perm, filter_app, Hm.
  rewrite (filter_cons_False _ m []) by (rewrite Hnot; discriminate).
  rewrite filter_nil, app_nil_r. reflexivity.
Qed.

Lemma createMatch_keeps_cache_current_witness :
  cacheCurrent
    (snd (createMatch sampleNow (snd (recalculateAllStatistics sampleStore))
            (mkMatchData "m3" 6 "B" "C" None None None None None None))).
Proof.
  apply (createMatch_keeps_cache_current sampleNow
           (snd (recalculateAllStatistics sampleStore)) _
           (mkMatchData "m3" 6 "B" "C" None None None None None None)
           (mkMatch "m3" 6 "B" "C" "21:00" None None Status.scheduled
              None None sampleNow)).
  - apply cacheCurrent_recalculated. reflexivity.
  - reflexivity.
  - reflexivity.
Defined.

End CreateAndCache.

Section Fixtures.
Import MatchEngine MatchQueries.

Lemma fixtures_after_replace (teams : option (list Team)) (ms : list Match)
    (i : nat) (m m3 : Match) :
  ms !! i = Some m -> fixture m3 = fixture m ->
  Some (fixture <$> <[i := m3]> ms) = Some (fixture <$> ms).
Proof.
  intros Hi Hfix. f_equal. rewrite list_fmap_insert, Hfix.
  apply list_insert_id. rewrite list_lookup_fmap, Hi. reflexivity.
Qed.

Lemma teamIdentity_foldl_replayMatch (ms : list Match) (teams : list Team) :
  teamIdentity <$> foldl replayMatch teams ms = teamIdentity <$> teams.
Proof.
  revert teams. induction ms as [| m ms IH]; intros teams; cbn; [reflexivity |].
  rewrite IH. apply teamIdentity_replayMatch.
Qed.

Lemma teamIdentity_resetStatistics (teams : list Team) :
  teamIdentity <$> resetStatistics teams = teamIdentity <$> teams.
Proof.
  unfold resetStatistics. rewrite <- list_fmap_compose.
  apply list_fmap_ext. intros _ t _. reflexivity.
Qed.

Lemma storedTeams_recalculateAllStatistics (store : LocalStorage) :
  storedTeams (snd (recalculateAllStatistics store)) = storedTeams store.
Proof.
  unfold storedTeams, recalculateAllStatistics.
  destruct (ls_teams store) as [teams |] eqn:Ht; [| cbn; now rewrite Ht].
  destruct (ls_matches store) as [ms |]; [| cbn; now rewrite Ht].
  cbn. f_equal.
  change (setStatistics zeroStatistics <$> teams) with (resetStatistics teams).
  now rewrite teamIdentity_foldl_replayMatch, teamIdentity_resetStatistics.
Qed.

Lemma storedTeams_updateTeamStatistics (store : LocalStorage) (m : Match) :
  storedTeams (snd (updateTeamStatistics store m)) = storedTeams store.
Proof.
  unfold storedTeams, updateTeamStatistics.
  destruct (_ || _ || _); [reflexivity |].
  destruct (ls_teams store) as [teams |] eqn:Ht; [| cbn; now rewrite Ht].
  pose proof (teamIdentity_replayMatch teams m) as Hr.
  unfold replayMatch in Hr.
  destruct (findTeam (homeTeam m) teams), (findTeam (awayTeam m) teams);
    cbn; rewrite ?Ht; cbn; congruence.
Qed.

(** X13: entering a result or changing a status never alters the fixture
    list or the team list: whatever [updateResult] and [setMatchStatus]
    return, the stored matches keep their ids, days, teams and times, in the
    same order, and the stored teams keep their ids and names. *)
Theorem result_and_status_keep_fixtures (now : string) (store : LocalStorage)
    (matchId : string) (result : ResultData) (newStatus : Status.t)
    (reason : option string) :
  let after1 := snd (updateResult now store matchId result) in
  let after2 := snd (setMatchStatus now store matchId newStatus reason) in
  (storedFixtures after1 = storedFixtures store
   /\ storedTeams after1 = storedTeams store)
  /\ (storedFixtures after2 = storedFixtures store
      /\ storedTeams after2 = storedTeams store).
Proof.
  cbv zeta. split.
  - unfold updateResult.
    destruct (bool_decide (matchId = "")); [now split |].
    destruct (ls_matches store) as [ms |] eqn:Hms; [| now split].
    destruct (list_find (fun x => m_id x = matchId) ms) as [[i m] |] eqn:Hfind;
      [| now split].
    apply list_find_Some in Hfind as (Hi & _ & _).
    destruct (checkGoals (r_homeGoals result) (homeGoals m)) as [hg |];
      [| now split].
    destruct (checkGoals (r_awayGoals result) (awayGoals m)) as [ag |];
      [| now split].
    cbv zeta. set (m3 := setLastUpdated now _).
    assert (fixture m3 = fixture m) as Hfix
      by (subst m3; destruct (Js.truthy (r_bestPlayer result)); reflexivity).
    clearbody m3. cbn [snd].
    pose proof (fixtures_after_replace (ls_teams store) ms i m m3 Hi Hfix) as Hf.
    destruct (bool_decide (status m3 = Status.played)).
    + rewrite storedTeams_updateTeamStatistics. unfold storedFixtures.
      rewrite updateTeamStatistics_matches, Hms. cbn. now rewrite Hf.
    + unfold storedFixtures. rewrite Hms. cbn. now rewrite Hf.
  - unfold setMatchStatus.
    destruct (bool_decide (matchId = "")); [now split |].
    destruct (negb _); [now split |].
    destruct (ls_matches store) as [ms |] eqn:Hms; [| now split].
    destruct (list_find (fun x => m_id x = matchId) ms) as [[i m] |] eqn:Hfind;
      [| now split].
    apply list_find_Some in Hfind as (Hi & _ & _).
    destruct (validateStatusTransition (status m) newStatus); [now split |].
    cbv zeta.
    match goal with
    | |- context [match ?h with
                  | Some _ => _
                  | None => (inl "Postponement reason is required", _)
                  end] =>
        assert (forall m3, h = Some m3 -> fixture m3 = fixture m) as Hfix;
        [| destruct h as [m3 |]; [| now split]]
    end.
    { intros m3.
      destruct (bool_decide (newStatus = Status.postponed));
        [destruct (negb (Js.truthy reason)); [discriminate |];
         destruct (bool_decide (status m = Status.played)) |];
        intros [= <-]; reflexivity. }
    specialize (Hfix m3 eq_refl). cbn [snd].
    pose proof (fixtures_after_replace (ls_teams store) ms i m m3 Hi Hfix) as Hf.
    destruct (_ && negb _).
    + rewrite storedTeams_recalculateAllStatistics. unfold storedFixtures.
      rewrite recalculateAllStatistics_matches, Hms. cbn. now rewrite Hf.
    + destruct (_ && _ && _).
      * rewrite storedTeams_updateTeamStatistics. unfold storedFixtures.
        rewrite updateTeamStatistics_matches, Hms. cbn. now rewrite Hf.
      * unfold storedFixtures. rewrite Hms. cbn. now rewrite Hf.
Qed.

End Fixtures.

Section CountedTwice.
Import MatchEngine MatchQueries.

Lemma sumOver_cons {A : Type} (g : A -> Z) (x : A) (l : list A) :
  sumOver g (x :: l) = g x + sumOver g l.
Proof. reflexivity. Qed.

Lemma sumOver_alter {A : Type} (g : A -> Z) (f : A -> A) (i : nat) (l : list A)
    (x : A) :
  l !! i = Some x -> sumOver g (alter f i l) = sumOver g l + g (f x) - g x.
Proof.
  revert i. induction l as [| y l IH]; intros [| i] Hi; try discriminate.
  - injection Hi as ->. cbn [alter list_alter]. rewrite !sumOver_cons. lia.
  - cbn in Hi. change (alter f (S i) (y :: l)) with (y :: alter f i l).
    rewrite !sumOver_cons, (IH i Hi). lia.
Qed.

Lemma findTeam_lookup (id : string) (teams : list Team) (i : nat) :
  findTeam id teams = Some i -> exists t, teams !! i = Some t /\ t_id t = id.
Proof.
  unfold findTeam.
  destruct (list_find _ teams) as [[j t] |] eqn:Hf; [| discriminate].
  intros [= <-]. apply list_find_Some in Hf as (Hj & Hid & _). eauto.
Qed.

Lemma findTeam_elem_of (id : string) (teams : list Team) :
  id ∈ t_id <$> teams -> exists i, findTeam id teams = Some i.
Proof.
  intros Hin. apply list_elem_of_fmap in Hin as (t & -> & Hin).
  destruct (list_find_elem_of (fun x => t_id x = t_id t) teams t Hin eq_refl)
    as [[i y] Hf].
  exists i. unfold findTeam. now rewrite Hf.
Qed.

Lemma playedCount_creditSide (home : bool) (m : Match) (t : Team) :
  playedCount (creditSide home m t) = playedCount t + 1.
Proof.
  unfold playedCount, creditSide, creditHome, creditAway.
  destruct home;
    destruct (Tournament.result
                (Tournament.calculatePoints (homeGoals m) (awayGoals m)));
    reflexivity.
Qed.

Lemma playedCount_replayMatch (teams : list Team) (m : Match) :
  sumOver playedCount (replayMatch teams m)
  = sumOver playedCount teams + creditedSides teams m.
Proof.
  unfold replayMatch, creditedSides.
  destruct (findTeam (homeTeam m) teams) as [h |] eqn:Hh; [| lia].
  destruct (findTeam (awayTeam m) teams) as [a |] eqn:Ha; [| lia].
  destruct (findTeam_lookup _ _ _ Hh) as (th & Hth & _).
  rewrite <- (findTeam_alter (creditSide true m) (awayTeam m) h teams) in Ha
    by (intros t; apply creditSide_identity).
  destruct (findTeam_lookup _ _ _ Ha) as (ta & Hta & _).
  rewrite creditMatch_creditSide.
  rewrite (sumOver_alter _ _ a _ ta Hta), (sumOver_alter _ _ h _ th Hth).
  rewrite !playedCount_creditSide. lia.
Qed.

Lemma creditedSides_replayMatch (teams : list Team) (m x : Match) :
  creditedSides (replayMatch teams m) x = creditedSides teams x.
Proof. unfold creditedSides. now rewrite !findTeam_replayMatch. Qed.

Lemma sumOver_ext {A : Type} (g g' : A -> Z) (l : list A) :
  (forall x, g x = g' x) -> sumOver g l = sumOver g' l.
Proof.
  intros Hext. induction l as [| x l IH]; [reflexivity |].
  now rewrite !sumOver_cons, IH, Hext.
Qed.

Lemma playedCount_foldl_replayMatch (ms : list Match) (teams : list Team) :
  sumOver playedCount (foldl replayMatch teams ms)
  = sumOver playedCount teams + sumOver (creditedSides teams) ms.
Proof.
  revert teams. induction ms as [| m ms IH]; intros teams;
    [cbn [foldl]; change (sumOver (creditedSides teams) []) with 0; lia |].
  cbn [foldl]. rewrite sumOver_cons, IH, playedCount_replayMatch.
  rewrite (sumOver_ext _ (creditedSides teams) ms)
    by (intros x; apply creditedSides_replayMatch).
  lia.
Qed.

Lemma findTeam_resetStatistics (id : string) (teams : list Team) :
  findTeam id (resetStatistics teams) = findTeam id teams.
Proof.
  unfold findTeam, resetStatistics. rewrite list_find_fmap.
  destruct (list_find _ teams) as [[i t] |]; reflexivity.
Qed.

Lemma creditedSides_resetStatistics (teams : list Team) (x : Match) :
  creditedSides (resetStatistics teams) x = creditedSides teams x.
Proof. unfold creditedSides. now rewrite !findTeam_resetStatistics. Qed.

Lemma playedCount_resetStatistics (teams : list Team) :
  sumOver playedCount (resetStatistics teams) = 0.
Proof.
  induction teams as [| t teams IH]; [reflexivity |].
  change (resetStatistics (t :: teams))
    with (setStatistics zeroStatistics t :: resetStatistics teams).
  rewrite sumOver_cons, IH. reflexivity.
Qed.

(** The played counters of a rebuilt team list: two for every counted match
    whose teams are both in the list. *)
Lemma playedCount_recalculated (teams : list Team) (ms : list Match) :
  sumOver playedCount
    (foldl replayMatch (resetStatistics teams)
       (filter (fun m => Standings.isPlayed m = true) ms))
  = sumOver (creditedSides teams) (filter (fun m => Standings.isPlayed m = true) ms).
Proof.
  rewrite playedCount_foldl_replayMatch, playedCount_resetStatistics.
  rewrite (sumOver_ext _ (creditedSides teams))
    by (intros x; apply creditedSides_resetStatistics).
  lia.
Qed.

Lemma sumOver_played_replace (g : Match -> Z) (ms : list Match) (i : nat)
    (m m3 : Match) :
  ms !! i = Some m ->
  Standings.isPlayed m = true -> Standings.isPlayed m3 = true -> g m3 = g m ->
  sumOver g (filter (fun x => Standings.isPlayed x = true) (<[i := m3]> ms))
  = sumOver g (filter (fun x => Standings.isPlayed x = true) ms).
Proof.
  intros Hi Hm Hm3 Hg. revert i Hi.
  induction ms as [| y ms IH]; intros [| i] Hi; try discriminate.
  - injection Hi as ->. cbn [insert list_insert].
    rewrite !filter_cons_True by assumption. now rewrite !sumOver_cons, Hg.
  - cbn in Hi. change (<[S i := m3]> (y :: ms)) with (y :: <[i := m3]> ms).
    rewrite !filter_cons.
    destruct (decide _); rewrite ?sumOver_cons; now rewrite (IH i Hi).
Qed.

Lemma checkGoals_keeps_goals (v : Js.Val) (g : Z) (r : option Z) :
  checkGoals v (Some g) = Some r -> r <> None.
Proof.
  unfold checkGoals. destruct (Js.provided v); [| now intros [= <-]].
  destruct (Js.parseInt v) as [goals |]; [| discriminate].
  destruct (goals <? 0); [discriminate |]. now intros [= <-].
Qed.

(** X14: [updateResult] credits the teams every time it leaves a played
    match, also when the match was counted before. Correcting the result of
    a counted match therefore leaves the played counters of the stored teams
    two above what the rebuild from the stored matches gives: the match is
    in the statistics twice, and they are no longer current. *)
Theorem updateResult_counts_played_match_again (now : string)
    (store store' : LocalStorage) (matchId : string) (result : ResultData)
    (m m' : Match) (teams : list Team) :
  cacheCurrent store ->
  ls_teams store = Some teams ->
  getMatch store matchId = Some m ->
  Standings.isPlayed m = true ->
  homeTeam m ∈ t_id <$> teams ->
  awayTeam m ∈ t_id <$> teams ->
  updateResult now store matchId result = (inr m', store') ->
  exists teams' rebuilt,
    ls_teams store' = Some teams'
    /\ ls_teams (snd (recalculateAllStatistics store')) = Some rebuilt
    /\ sumOver playedCount rebuilt = sumOver playedCount teams
    /\ sumOver playedCount teams' = sumOver playedCount teams + 2
    /\ ~ cacheCurrent store'.
Proof.
  intros Hcur Hteams Hget Hplayed Hhome Haway Hupd.
  destruct (cacheCurrent_inv store Hcur) as (teams0 & ms & -> & Hfold).
  cbn in Hteams. injection Hteams as ->.
  destruct (getMatch_find _ _ _ _ Hget) as (i & Hfind & Hi).
  destruct (isPlayed_goals m Hplayed) as (Hst & h & a & Hh & Ha).
  revert Hupd. unfold updateResult.
  destruct (bool_decide (matchId = "")); [discriminate |].
  cbn [ls_matches ls_teams]. rewrite Hfind, Hh, Ha.
  destruct (checkGoals (r_homeGoals result) (Some h)) as [hg |] eqn:Hhg;
    [| discriminate].
  destruct (checkGoals (r_awayGoals result) (Some a)) as [ag |] eqn:Hag;
    [| discriminate].
  apply checkGoals_keeps_goals in Hhg, Hag.
  rewrite (bool_decide_eq_true_2 _ Hhg), (bool_decide_eq_true_2 _ Hag).
  cbn [andb]. cbv zeta. set (m3 := setLastUpdated now _).
  assert (Standings.isPlayed m3 = true) as Hp3.
  { subst m3. unfold Standings.isPlayed.
    destruct (Js.truthy (r_bestPlayer result)); cbn;
      rewrite (bool_decide_eq_true_2 _ Hhg), (bool_decide_eq_true_2 _ Hag);
      reflexivity. }
  assert (creditedSides teams m3 = 2 /\ creditedSides teams m = 2) as [Hc3 Hc].
  { assert (creditedSides teams m = 2) as Hc.
    { unfold creditedSides.
      destruct (findTeam_elem_of _ _ Hhome) as (x & ->).
      destruct (findTeam_elem_of _ _ Haway) as (y & ->). reflexivity. }
    split; [| exact Hc]. rewrite <- Hc. subst m3.
    destruct (Js.truthy (r_bestPlayer result)); reflexivity. }
  assert (status m3 = Status.played) as Hs3
    by (apply isPlayed_goals in Hp3 as [? _]; assumption).
  clearbody m3.
  rewrite (bool_decide_eq_true_2 _ Hs3), updateTeamStatistics_replay, Hp3.
  intros [= _ <-].
  assert (sumOver playedCount
            (foldl replayMatch (resetStatistics (replayMatch teams m3))
               (filter (fun x => Standings.isPlayed x = true) (<[i := m3]> ms)))
          = sumOver playedCount teams) as Hrebuilt.
  { rewrite resetStatistics_replayMatch, playedCount_recalculated.
    rewrite (sumOver_played_replace _ ms i m m3 Hi Hplayed Hp3)
      by (now rewrite Hc3, Hc).
    rewrite <- playedCount_recalculated, Hfold. reflexivity. }
  assert (sumOver playedCount (replayMatch teams m3)
          = sumOver playedCount teams + 2) as Hstored
    by (rewrite playedCount_replayMatch, Hc3; reflexivity).
  eexists _, _. rewrite recalculateAllStatistics_unfold. cbn [ls_teams snd].
  split; [reflexivity |]. split; [reflexivity |].
  split; [exact Hrebuilt |]. split; [exact Hstored |].
  intros Hcur'. apply cacheCurrent_inv in Hcur' as (t1 & ms1 & [= <- <-] & Hfold').
  rewrite Hfold' in Hrebuilt. lia.
Qed.

Lemma updateResult_counts_played_match_again_witness :
  exists teams',
    ls_teams (snd (updateResult sampleNow (snd (recalculateAllStatistics sampleStore))
                     "m1" (mkResultData (Js.JNum 2) (Js.JNum 2) None)))
      = Some teams'
    /\ sumOver playedCount teams' = 4.
Proof.
  destruct (updateResult_counts_played_match_again sampleNow
              (snd (recalculateAllStatistics sampleStore))
              (snd (updateResult sampleNow (snd (recalculateAllStatistics sampleStore))
                      "m1" (mkResultData (Js.JNum 2) (Js.JNum 2) None)))
              "m1" (mkResultData (Js.JNum 2) (Js.JNum 2) None)
              (sampleMatch "m1" 3 "A" "B" (Some 2) (Some 1) Status.played)
              (mkMatch "m1" 3 "A" "B" "21:00" (Some 2) (Some 2) Status.played
                 None None sampleNow)
              (default [] (ls_teams (snd (recalculateAllStatistics sampleStore)))))
    as (teams' & rebuilt & Ht & _ & _ & Hsum & _).
  - apply cacheCurrent_recalculated. reflexivity.
  - reflexivity.
  - reflexivity.
  - reflexivity.
  - apply (bool_decide_unpack _). exact I.
  - apply (bool_decide_unpack _). exact I.
  - reflexivity.
  - exists teams'. split; [exact Ht |]. rewrite Hsum. reflexivity.
Defined.

End CountedTwice.

(** ** The standings table and the cached statistics *)

Section RowViews.
Import MatchEngine.

Lemma rowView_eq (r : Standings.Row) (t : Team) :
  Standings.teamId r = t_id t ->
  Standings.played r = played (statistics t) ->
  Standings.won r = won (statistics t) ->
  Standings.drawn r = drawn (statistics t) ->
  Standings.lost r = lost (statistics t) ->
  Standings.goalsFor r = goalsFor (statistics t) ->
  Standings.goalsAgainst r = goalsAgainst (statistics t) ->
  Standings.points r = points (statistics t) ->
  rowView r = teamView t.
Proof.
  intros. unfold rowView, teamView. f_equal; [assumption |].
  apply statistics_eq; assumption.
Qed.

Lemma rowView_inv (r : Standings.Row) (t : Team) :
  rowView r = teamView t ->
  Standings.teamId r = t_id t
  /\ Standings.played r = played (statistics t)
  /\ Standings.won r = won (statistics t)
  /\ Standings.drawn r = drawn (statistics t)
  /\ Standings.lost r = lost (statistics t)
  /\ Standings.goalsFor r = goalsFor (statistics t)
  /\ Standings.goalsAgainst r = goalsAgainst (statistics t)
  /\ Standings.points r = points (statistics t).
Proof.
  unfold rowView, teamView, rowStatistics. intros [= Hid Hst].
  rewrite <- Hst. cbn. repeat split; assumption || reflexivity.
Qed.

End RowViews.

Section StandingsAndStatistics.
Import MatchEngine Standings.

Lemma findRow_view (id : string) (rows : list Row) (teams : list Team) :
  rowView <$> rows = teamView <$> teams -> findRow id rows = findTeam id teams.
Proof.
  revert teams. induction rows as [| r rows IH]; intros [| t teams] Hview;
    try discriminate; [reflexivity |].
  injection Hview as Hid _ Hrest. specialize (IH teams Hrest).
  unfold findRow, findTeam in *. cbn [list_find]. rewrite Hid.
  destruct (decide (t_id t = id)); [reflexivity |].
  destruct (list_find _ rows) as [[? ?] |], (list_find _ teams) as [[? ?] |];
    cbn in *; congruence.
Qed.

Ltac lookup_alter :=
  repeat first
    [ rewrite list_lookup_alter_eq
    | rewrite list_lookup_alter_ne by congruence ].

(** One match folded into the table and replayed on the team records. *)
Lemma foldMatch_view (rows : list Row) (teams : list Team) (m : Match) :
  isPlayed m = true ->
  rowView <$> rows = teamView <$> teams ->
  rowView <$> foldMatch rows m = teamView <$> replayMatch teams m.
Proof.
  intros Hp Hview. unfold foldMatch, replayMatch.
  rewrite !(findRow_view _ rows teams Hview).
  destruct (findTeam (homeTeam m) teams) as [h |]; [| exact Hview].
  destruct (findTeam (awayTeam m) teams) as [a |]; [| exact Hview].
  destruct (isPlayed_goals m Hp) as (_ & hg & ag & Hh & Ha).
  unfold creditMatch, creditHome, creditAway.
  rewrite Hh, Ha, calculatePoints_cases. cbv zeta.
  apply list_eq. intros k. rewrite !list_lookup_fmap.
  pose proof (f_equal (fun l => l !! k) Hview) as Hk. cbn beta in Hk.
  rewrite !list_lookup_fmap in Hk.
  destruct (hg >? ag); [| destruct (ag >? hg)]; cbn [Tournament.result
    Tournament.homePoints Tournament.awayPoints default];
    destruct (decide (h = k)) as [-> | Hkh];
    destruct (decide (a = k)) as [-> | Hka];
    lookup_alter;
    destruct (rows !! _) as [r |], (teams !! _) as [t |];
    try discriminate; try reflexivity;
    cbn [fmap option_fmap option_map] in Hk |- *;
    assert (rowView r = teamView t) as Hrt by congruence;
    apply rowView_inv in Hrt as (? & ? & ? & ? & ? & ? & ? & ?);
    f_equal; apply rowView_eq; unfold capForm;
    repeat case_match; cbn; try assumption; lia.
Qed.

Lemma initialRow_view (teams : list Team) :
  rowView <$> (initialRow <$> teams) = teamView <$> resetStatistics teams.
Proof.
  unfold resetStatistics. rewrite <- !list_fmap_compose.
  apply list_fmap_ext. intros _ t _. reflexivity.
Qed.

Lemma foldl_foldMatch_view (ms : list Match) (rows : list Row) (teams : list Team) :
  Forall (fun m => isPlayed m = true) ms ->
  rowView <$> rows = teamView <$> teams ->
  rowView <$> foldl foldMatch rows ms = teamView <$> foldl replayMatch teams ms.
Proof.
  intros Hall. revert rows teams.
  induction Hall as [| m ms Hm _ IH]; intros rows teams Hview; [exact Hview |].
  cbn [foldl]. apply IH. now apply foldMatch_view.
Qed.

Lemma foldStandings_view (teams : list Team) (ms : list Match) :
  rowView <$> foldStandings teams ms
  = teamView <$> foldl replayMatch (resetStatistics teams)
                   (filter (fun m => isPlayed m = true) ms).
Proof.
  unfold foldStandings. rewrite <- list_fmap_compose.
  rewrite (list_fmap_ext (rowView ∘ setGoalDifference) rowView)
    by (intros _ r _; reflexivity).
  apply foldl_foldMatch_view; [apply played_filter | apply initialRow_view].
Qed.

Lemma determineQualification_view (l : list Row) :
  rowView <$> determineQualification l = rowView <$> l.
Proof.
  unfold determineQualification. rewrite fmap_imap.
  rewrite (imap_ext _ (fun _ => rowView)) by (intros i r _; reflexivity).
  apply imap_const.
Qed.

End StandingsAndStatistics.

Section StandingsTable.
Import MatchEngine Standings StandingsQueries.

Variable localeCompare : string -> string -> Z.

Lemma calculateStandings_view (teams : list Team) (stored : option (list Match))
    (ms : list Match) :
  rowView <$> calculateStandings localeCompare (mkStorage (Some teams) stored) (Some ms)
  ≡ₚ teamView <$> foldl replayMatch (resetStatistics teams)
                    (filter (fun m => isPlayed m = true) ms).
Proof.
  unfold calculateStandings. cbn [ls_teams ls_matches from_option].
  rewrite determineQualification_view. unfold applyTieBreakers.
  rewrite sortBy_perm. now rewrite foldStandings_view.
Qed.

(** X15: the standings table and the cached statistics agree. The rows
    [calculateStandings] computes from the stored matches carry, team by
    team, the counters that [recalculateAllStatistics] stores in the team
    records: played, won, drawn, lost, goals for and against, points. *)
Theorem standings_agree_with_statistics (teams : list Team) (ms : list Match) :
  exists teams',
    recalculateAllStatistics (mkStorage (Some teams) (Some ms))
      = (true, mkStorage (Some teams') (Some ms))
    /\ rowView <$> calculateStandings localeCompare
                     (mkStorage (Some teams) (Some ms)) None
       ≡ₚ teamView <$> teams'.
Proof.
  eexists. split; [apply recalculateAllStatistics_unfold |].
  apply (calculateStandings_view teams (Some ms) ms).
Qed.

End StandingsTable.

Section TableShape.
Import MatchEngine Standings StandingsQueries.

Variable localeCompare : string -> string -> Z.

Lemma filter_all {A : Type} (P : A -> Prop) `{!forall x, Decision (P x)} (l : list A) :
  Forall P l -> filter P l = l.
Proof.
  induction 1 as [| x l Hx _ IH]; [reflexivity |].
  now rewrite filter_cons_True, IH.
Qed.

Lemma filter_none {A : Type} (P : A -> Prop) `{!forall x, Decision (P x)} (l : list A) :
  Forall (fun x => ~ P x) l -> filter P l = [].
Proof.
  induction 1 as [| x l Hx _ IH]; [reflexivity |].
  now rewrite filter_cons_False, IH.
Qed.

Lemma rowIdentity_foldMatch (rows : list Row) (m : Match) :
  rowIdentity <$> foldMatch rows m = rowIdentity <$> rows.
Proof.
  unfold foldMatch.
  destruct (findRow (homeTeam m) rows) as [h |]; [| reflexivity].
  destruct (findRow (awayTeam m) rows) as [a |]; [| reflexivity].
  cbv zeta.
  destruct (Tournament.result _);
    rewrite !(list_fmap_alter _ _ id)
      by (apply Forall_forall; intros r _; unfold capForm;
          repeat case_match; reflexivity);
    now rewrite !list_alter_id.
Qed.

Lemma rowIdentity_foldStandings (teams : list Team) (ms : list Match) :
  rowIdentity <$> foldStandings teams ms = teamName2 <$> teams.
Proof.
  unfold foldStandings. rewrite <- list_fmap_compose.
  rewrite (list_fmap_ext (rowIdentity ∘ setGoalDifference) rowIdentity)
    by (intros _ r _; reflexivity).
  generalize (filter (fun m => isPlayed m = true) ms). intros l.
  assert (forall rows, rowIdentity <$> foldl foldMatch rows l = rowIdentity <$> rows)
    as Hfold.
  { induction l as [| m l IH]; intros rows; [reflexivity |].
    cbn [foldl]. now rewrite IH, rowIdentity_foldMatch. }
  rewrite Hfold, <- list_fmap_compose.
  apply list_fmap_ext. intros _ t _. reflexivity.
Qed.

Lemma rowView_inv_rows (r r0 : Row) :
  rowView r = rowView r0 ->
  goalsFor r = goalsFor r0 /\ goalsAgainst r = goalsAgainst r0.
Proof. unfold rowView, rowStatistics. intros [= _ _ _ _ _ ? ? _]. now split. Qed.

Lemma determineQualification_lookup (l : list Row) (i : nat) (r : Row) :
  determineQualification l !! i = Some r ->
  position r = Z.of_nat i + 1
  /\ qualified r = (Z.of_nat i <? playoffQualifiers)
  /\ exists r0, l !! i = Some r0 /\ rowIdentity r = rowIdentity r0
                /\ rowView r = rowView r0
                /\ goalDifference r = goalDifference r0.
Proof.
  unfold determineQualification. rewrite list_lookup_imap.
  destruct (l !! i) as [r0 |]; [| discriminate].
  intros [= <-]. repeat split. exists r0. repeat split.
Qed.

Lemma goalDifference_foldStandings (teams : list Team) (ms : list Match) :
  Forall (fun r => goalDifference r = goalsFor r - goalsAgainst r)
    (foldStandings teams ms).
Proof.
  unfold foldStandings. apply Forall_fmap, Forall_forall. intros r _. reflexivity.
Qed.

Lemma calculateStandings_identities (teams : list Team)
    (stored : option (list Match)) (ms : list Match) :
  rowIdentity <$> calculateStandings localeCompare (mkStorage (Some teams) stored)
                    (Some ms)
  ≡ₚ teamName2 <$> teams.
Proof.
  unfold calculateStandings. cbn [ls_teams ls_matches from_option].
  rewrite <- rowIdentity_foldStandings with (ms := ms).
  unfold applyTieBreakers.
  rewrite <- (sortBy_perm (tieBreakCompare localeCompare) (foldStandings teams ms)) at 2.
  generalize (Js.sortBy (tieBreakCompare localeCompare) (foldStandings teams ms)).
  intros l. unfold determineQualification. rewrite fmap_imap.
  rewrite (imap_ext _ (const rowIdentity)) by (intros i r _; reflexivity).
  now rewrite imap_const.
Qed.

Lemma calculateStandings_goalDifference (teams : list Team)
    (stored : option (list Match)) (ms : list Match) :
  Forall (fun r => goalDifference r = goalsFor r - goalsAgainst r)
    (calculateStandings localeCompare (mkStorage (Some teams) stored) (Some ms)).
Proof.
  unfold calculateStandings. cbn [ls_teams ls_matches from_option].
  apply Forall_forall. intros r Hr.
  apply list_elem_of_lookup in Hr as [i Hi].
  apply determineQualification_lookup in Hi as (_ & _ & r0 & Hr0 & _ & Hview & Hgd).
  apply rowView_inv_rows in Hview as (Hgf & Hga). rewrite Hgd, Hgf, Hga.
  apply list_elem_of_lookup_2 in Hr0. unfold applyTieBreakers in Hr0.
  apply sortBy_elem_of in Hr0.
  exact (proj1 (Forall_forall _ _) (goalDifference_foldStandings teams ms) r0 Hr0).
Qed.

(** X16: the table [calculateStandings] returns has one row for every stored
    team, under the team's id and name; the rows are numbered 1, 2, 3, ... in
    the order returned, and a row is qualified exactly when its position is
    at most four; every row's goal difference is its goals for minus its
    goals against. *)
Theorem calculateStandings_one_row_per_team (teams : list Team)
    (stored : option (list Match)) (ms : list Match) :
  let table :=
    calculateStandings localeCompare (mkStorage (Some teams) stored) (Some ms) in
  rowIdentity <$> table ≡ₚ teamName2 <$> teams
  /\ (forall i r, table !! i = Some r ->
        position r = Z.of_nat i + 1
        /\ qualified r = bool_decide (position r <= 4))
  /\ Forall (fun r => goalDifference r = goalsFor r - goalsAgainst r) table.
Proof.
  cbv zeta. split; [apply calculateStandings_identities |].
  split; [| apply calculateStandings_goalDifference].
  intros i r Hi. unfold calculateStandings in Hi.
  cbn [ls_teams ls_matches from_option] in Hi.
  apply determineQualification_lookup in Hi as (Hpos & Hq & _).
  split; [exact Hpos |]. rewrite Hq, Hpos. unfold playoffQualifiers.
  destruct (Z.ltb_spec (Z.of_nat i) 4).
  - now rewrite bool_decide_eq_true_2 by lia.
  - now rewrite bool_decide_eq_false_2 by lia.
Qed.

End TableShape.

Section Qualification.
Import MatchEngine Standings StandingsQueries.

Variable localeCompare : string -> string -> Z.

Lemma calculateStandings_lookup (store : LocalStorage) (matches : option (list Match))
    (i : nat) (r : Row) :
  calculateStandings localeCompare store matches !! i = Some r ->
  position r = Z.of_nat i + 1 /\ qualified r = (Z.of_nat i <? 4).
Proof.
  unfold calculateStandings.
  destruct (ls_teams store); [| discriminate].
  destruct (from_option Some (ls_matches store) matches); [| discriminate].
  intros Hi. apply determineQualification_lookup in Hi as (? & ? & _). now split.
Qed.

Lemma qualified_prefix (store : LocalStorage) :
  let table := calculateStandings localeCompare store None in
  filter (fun r => qualified r = true) table = take 4 table
  /\ filter (fun r => negb (qualified r) = true) table = drop 4 table.
Proof.
  intros table.
  assert (Forall (fun r => qualified r = true) (take 4 table)) as Htop.
  { apply Forall_forall. intros r Hr.
    apply elem_of_take in Hr as (i & Hi & Hlt).
    apply calculateStandings_lookup in Hi as [_ ->]. apply Z.ltb_lt. lia. }
  assert (Forall (fun r => qualified r = false) (drop 4 table)) as Hrest.
  { apply Forall_forall. intros r Hr.
    apply list_elem_of_lookup in Hr as [j Hj]. rewrite lookup_drop in Hj.
    apply calculateStandings_lookup in Hj as [_ ->]. apply Z.ltb_ge. lia. }
  rewrite <- (take_drop 4 table) at 1 3. rewrite !filter_app. split.
  - rewrite (filter_all _ _ Htop), filter_none, app_nil_r; [reflexivity |].
    eapply Forall_impl; [exact Hrest |]. intros r ->. discriminate.
  - rewrite (filter_none _ (take 4 table)), filter_all; [reflexivity | |].
    + eapply Forall_impl; [exact Hrest |]. now intros r ->.
    + eapply Forall_impl; [exact Htop |]. intros r ->. discriminate.
Qed.

(** X17: the qualified teams are the top four of the table. What
    [getQualifiedTeams] returns is what [getTopTeams] returns for its default
    count; [getEliminatedTeams] returns the rest, so the two lists together
    are the standings in order; and there are four qualified teams as soon
    as there are four rows. *)
Theorem qualified_teams_are_top_four (store : LocalStorage) :
  getQualifiedTeams localeCompare store = getTopTeams localeCompare store None
  /\ getQualifiedTeams localeCompare store ++ getEliminatedTeams localeCompare store
     = calculateStandings localeCompare store None
  /\ length (getQualifiedTeams localeCompare store)
     = Nat.min 4 (length (calculateStandings localeCompare store None)).
Proof.
  destruct (qualified_prefix store) as [Hq He].
  unfold getQualifiedTeams, getEliminatedTeams, getTopTeams.
  rewrite Hq, He. split; [reflexivity |]. split; [apply take_drop |].
  apply length_take.
Qed.

(** X18: [getTeamPosition] answers for exactly the stored team ids, with a
    position between 1 and the number of teams, and never gives two
    different ids the same position. *)
Theorem getTeamPosition_in_range (teams : list Team) (ms : list Match)
    (id : string) :
  let store := mkStorage (Some teams) (Some ms) in
  (id ∈ t_id <$> teams <-> is_Some (getTeamPosition localeCompare store id))
  /\ (forall p, getTeamPosition localeCompare store id = Some p ->
        1 <= p <= Z.of_nat (length teams))
  /\ (forall id' p,
        getTeamPosition localeCompare store id = Some p ->
        getTeamPosition localeCompare store id' = Some p -> id = id').
Proof.
  cbv zeta.
  pose proof (calculateStandings_identities localeCompare teams (Some ms) ms)
    as Hperm.
  assert (forall i r,
            calculateStandings localeCompare (mkStorage (Some teams) (Some ms))
              (Some ms) !! i = Some r ->
            position r = Z.of_nat i + 1 /\ qualified r = (Z.of_nat i <? 4)) as Hpos
    by (intros i r; apply calculateStandings_lookup).
  change (calculateStandings localeCompare (mkStorage (Some teams) (Some ms)) (Some ms))
    with (calculateStandings localeCompare (mkStorage (Some teams) (Some ms)) None)
    in Hperm, Hpos.
  unfold getTeamPosition.
  set (table := calculateStandings localeCompare (mkStorage (Some teams) (Some ms)) None)
    in *.
  split; [| split].
  - split.
    + intros Hin.
      assert (id ∈ fst <$> (teamName2 <$> teams)) as Hin'.
      { rewrite <- list_fmap_compose. exact Hin. }
      rewrite <- Hperm, <- list_fmap_compose in Hin'.
      apply list_elem_of_fmap in Hin' as (r & Hid & Hr).
      destruct (list_find_elem_of (fun x => teamId x = id) table r Hr (eq_sym Hid))
        as [[i y] ->].
      eexists. reflexivity.
    + destruct (list_find _ table) as [[i r] |] eqn:Hf; [| intros [? [=]]].
      intros _. apply list_find_Some in Hf as (Hi & Hid & _).
      assert (id ∈ fst <$> (rowIdentity <$> table)) as Hin.
      { rewrite <- list_fmap_compose. apply list_elem_of_fmap.
        exists r. split; [now rewrite <- Hid |]. eapply list_elem_of_lookup_2, Hi. }
      rewrite Hperm, <- list_fmap_compose in Hin. exact Hin.
  - intros p. destruct (list_find _ table) as [[i r] |] eqn:Hf; [| discriminate].
    intros [= <-]. apply list_find_Some in Hf as (Hi & _ & _).
    destruct (Hpos i r Hi) as [-> _].
    apply lookup_lt_Some in Hi.
    assert (length table = length teams) as Hlen.
    { rewrite <- (length_fmap rowIdentity), Hperm. apply length_fmap. }
    lia.
  - intros id' p.
    destruct (list_find (fun r => teamId r = id) table) as [[i r] |] eqn:Hf;
      [| discriminate].
    destruct (list_find (fun r => teamId r = id') table) as [[i' r'] |] eqn:Hf';
      [| discriminate].
    intros [= <-] [= Heq].
    apply list_find_Some in Hf as (Hi & Hid & _).
    apply list_find_Some in Hf' as (Hi' & Hid' & _).
    destruct (Hpos i r Hi) as [Hp _]. destruct (Hpos i' r' Hi') as [Hp' _].
    assert (i = i') as -> by lia.
    congruence.
Qed.

End Qualification.

Section TableTotals.
Import MatchEngine Standings StandingsQueries.

Variable localeCompare : string -> string -> Z.

Lemma sumOver_fmap {A B : Type} (f : A -> B) (g : B -> Z) (l : list A) :
  sumOver g (f <$> l) = sumOver (fun x => g (f x)) l.
Proof.
  induction l as [| x l IH]; [reflexivity |].
  rewrite fmap_cons, !sumOver_cons, IH. reflexivity.
Qed.

Lemma sumOver_perm {A : Type} (g : A -> Z) (l l' : list A) :
  l ≡ₚ l' -> sumOver g l = sumOver g l'.
Proof.
  induction 1 as [| x l l' _ IH | x y l | l l' l'' _ IH1 _ IH2];
    rewrite ?sumOver_cons; try lia; reflexivity.
Qed.

(** What a replayed match adds to a sum over the team records, when each
    side's statements add a fixed amount. *)
Lemma sumOver_replayMatch (g : Team -> Z) (dh da : Z) (teams : list Team) (m : Match) :
  (forall t, g (creditSide true m t) = g t + dh) ->
  (forall t, g (creditSide false m t) = g t + da) ->
  dh + da = 0 ->
  sumOver g (replayMatch teams m) = sumOver g teams.
Proof.
  intros Hh Ha Hzero. unfold replayMatch.
  destruct (findTeam (homeTeam m) teams) as [h |] eqn:Hfh; [| reflexivity].
  destruct (findTeam (awayTeam m) teams) as [a |] eqn:Hfa; [| reflexivity].
  destruct (findTeam_lookup _ _ _ Hfh) as (th & Hth & _).
  rewrite <- (findTeam_alter (creditSide true m) (awayTeam m) h teams) in Hfa
    by (intros t; apply creditSide_identity).
  destruct (findTeam_lookup _ _ _ Hfa) as (ta & Hta & _).
  rewrite creditMatch_creditSide.
  rewrite (sumOver_alter _ _ a _ ta Hta), (sumOver_alter _ _ h _ th Hth).
  rewrite Hh, Ha. lia.
Qed.

Lemma balance_replayMatch (teams : list Team) (m : Match) :
  isPlayed m = true ->
  sumOver (fun t => goalBalance (teamView t)) (replayMatch teams m)
    = sumOver (fun t => goalBalance (teamView t)) teams
  /\ sumOver (fun t => resultBalance (teamView t)) (replayMatch teams m)
     = sumOver (fun t => resultBalance (teamView t)) teams.
Proof.
  intros Hp. destruct (isPlayed_goals m Hp) as (_ & h & a & Hh & Ha).
  split.
  - apply (sumOver_replayMatch _ (h - a) (a - h)); [| | lia];
      intros t; unfold creditSide, creditHome, creditAway;
      rewrite Hh, Ha, calculatePoints_cases;
      destruct (h >? a); [| destruct (a >? h) | | destruct (a >? h)];
      cbn; unfold goalBalance; cbn; lia.
  - apply (sumOver_replayMatch _
             (if h >? a then 1 else if a >? h then -1 else 0)
             (if h >? a then -1 else if a >? h then 1 else 0));
      [| | destruct (h >? a); [| destruct (a >? h)]; reflexivity];
      intros t; unfold creditSide, creditHome, creditAway;
      rewrite Hh, Ha, calculatePoints_cases;
      destruct (h >? a); [| destruct (a >? h) | | destruct (a >? h)];
      cbn; unfold resultBalance; cbn; lia.
Qed.

Lemma balance_foldl_replayMatch (ms : list Match) (teams : list Team) :
  Forall (fun m => isPlayed m = true) ms ->
  sumOver (fun t => goalBalance (teamView t)) (foldl replayMatch teams ms)
    = sumOver (fun t => goalBalance (teamView t)) teams
  /\ sumOver (fun t => resultBalance (teamView t)) (foldl replayMatch teams ms)
     = sumOver (fun t => resultBalance (teamView t)) teams.
Proof.
  intros Hall. revert teams.
  induction Hall as [| m ms Hm _ IH]; intros teams; [now split |].
  cbn [foldl]. destruct (IH (replayMatch teams m)) as [-> ->].
  now apply balance_replayMatch.
Qed.

Lemma sumOver_zero {A : Type} (g : A -> Z) (l : list A) :
  Forall (fun x => g x = 0) l -> sumOver g l = 0.
Proof.
  induction 1 as [| x l Hx _ IH]; [reflexivity |].
  rewrite sumOver_cons, Hx, IH. reflexivity.
Qed.

Lemma sumOver_sub {A : Type} (f g : A -> Z) (l : list A) :
  sumOver (fun x => f x - g x) l = sumOver f l - sumOver g l.
Proof.
  induction l as [| x l IH]; [reflexivity |].
  rewrite !sumOver_cons, IH. lia.
Qed.

Lemma sumOver_ext_in {A : Type} (f g : A -> Z) (l : list A) :
  Forall (fun x => f x = g x) l -> sumOver f l = sumOver g l.
Proof.
  induction 1 as [| x l Hx _ IH]; [reflexivity |].
  now rewrite !sumOver_cons, Hx, IH.
Qed.

Lemma rebuilt_balance (teams : list Team) (ms : list Match) :
  let teams' :=
    foldl replayMatch (resetStatistics teams)
      (filter (fun m => isPlayed m = true) ms) in
  sumOver goalBalance (teamView <$> teams') = 0
  /\ sumOver resultBalance (teamView <$> teams') = 0
  /\ Forall (fun t => statisticsAddUp (statistics t)) teams'.
Proof.
  cbv zeta.
  destruct (balance_foldl_replayMatch _ (resetStatistics teams) (played_filter ms))
    as [Hg Hr].
  rewrite !sumOver_fmap, Hg, Hr.
  assert (Forall (fun t => statistics t = zeroStatistics) (resetStatistics teams))
    as Hzero by (apply Forall_fmap, Forall_forall; intros t _; reflexivity).
  split; [| split].
  - apply sumOver_zero. eapply Forall_impl; [exact Hzero |].
    intros t Ht. unfold goalBalance, teamView. cbn. now rewrite Ht.
  - apply sumOver_zero. eapply Forall_impl; [exact Hzero |].
    intros t Ht. unfold resultBalance, teamView. cbn. now rewrite Ht.
  - apply foldl_replayMatch_invariants; [apply played_filter |].
    eapply Forall_impl; [exact Hzero |].
    intros t Ht. rewrite Ht. split; reflexivity.
Qed.

(** X19: the table balances. Over the rows [calculateStandings] returns, the
    goals scored equal the goals conceded, the wins equal the losses and the
    goal differences sum to zero; and in every row the matches played are
    the wins, draws and losses together and the points are three for a win
    and one for a draw. *)
Theorem standings_totals_balance (teams : list Team)
    (stored : option (list Match)) (ms : list Match) :
  let table :=
    calculateStandings localeCompare (mkStorage (Some teams) stored) (Some ms) in
  sumOver goalsFor table = sumOver goalsAgainst table
  /\ sumOver won table = sumOver lost table
  /\ sumOver goalDifference table = 0
  /\ Forall (fun r => statisticsAddUp (rowStatistics r)) table.
Proof.
  intros table.
  pose proof (calculateStandings_view localeCompare teams stored ms) as Hview.
  fold table in Hview.
  destruct (rebuilt_balance teams ms) as (Hg & Hr & Hadd).
  rewrite <- (sumOver_perm goalBalance _ _ Hview), sumOver_fmap in Hg.
  rewrite <- (sumOver_perm resultBalance _ _ Hview), sumOver_fmap in Hr.
  assert (sumOver goalsFor table - sumOver goalsAgainst table = 0) as Hgoals
    by (rewrite <- sumOver_sub; exact Hg).
  assert (sumOver won table - sumOver lost table = 0) as Hres
    by (rewrite <- sumOver_sub; exact Hr).
  split; [lia |]. split; [lia |]. split.
  - pose proof (calculateStandings_goalDifference localeCompare teams stored ms)
      as Hgd.
    fold table in Hgd. rewrite (sumOver_ext_in _ _ _ Hgd), sumOver_sub. lia.
  - apply Forall_forall. intros r Hr'.
    assert (rowView r ∈ rowView <$> table) as Hin
      by (apply list_elem_of_fmap; eauto).
    rewrite Hview in Hin. apply list_elem_of_fmap in Hin as (t & Ht & Hin).
    unfold rowView, teamView in Ht. injection Ht as _ ->.
    exact (proj1 (Forall_forall _ _) Hadd t Hin).
Qed.

End TableTotals.

Section StoredStatistics.
Import MatchEngine Standings StandingsQueries.

Variable localeCompare : string -> string -> Z.


Lemma NoDup_ids_lookup (teams : list Team) (i j : nat) (t t' : Team) :
  NoDup (t_id <$> teams) ->
  teams !! i = Some t -> teams !! j = Some t' -> t_id t = t_id t' -> i = j.
Proof.
  intros Hnd Hi Hj Hid.
  apply (NoDup_lookup (t_id <$> teams) i j (t_id t) Hnd);
    rewrite list_lookup_fmap; [rewrite Hi | rewrite Hj]; cbn; congruence.
Qed.

Lemma t_id_of_identity (l l' : list Team) :
  teamIdentity <$> l = teamIdentity <$> l' -> t_id <$> l = t_id <$> l'.
Proof.
  intros H. apply (f_equal (fmap (fun x : string * string * string => fst (fst x)))) in H.
  now rewrite <- !list_fmap_compose in H.
Qed.




End StoredStatistics.



Section Matchdays.
Import MatchEngine Standings StandingsQueries.

Variable localeCompare : string -> string -> Z.

Lemma calculateStandings_counted_only (store : LocalStorage) (ms ms' : list Match) :
  filter (fun m => isPlayed m = true) ms = filter (fun m => isPlayed m = true) ms' ->
  calculateStandings localeCompare store (Some ms)
  = calculateStandings localeCompare store (Some ms').
Proof.
  intros Heq. unfold calculateStandings, foldStandings. cbn [from_option].
  now rewrite Heq.
Qed.

(** X21: the table after a matchday is the table of the matches played up to
    that day: [getStandingsAfterMatchday] leaves out every later match and
    nothing else. From the last day on which a counted match was played it
    is the current table. *)
Theorem getStandingsAfterMatchday_upto (store : LocalStorage) (ms : list Match)
    (d : Z) :
  ls_matches store = Some ms ->
  getStandingsAfterMatchday localeCompare store d
  = calculateStandings localeCompare store
      (Some (filter (fun m => day m <= d) ms))
  /\ (Forall (fun m => isPlayed m = true -> day m <= d) ms ->
      getStandingsAfterMatchday localeCompare store d
      = calculateStandings localeCompare store None).
Proof.
  intros Hms. unfold getStandingsAfterMatchday. rewrite Hms. split.
  - apply calculateStandings_counted_only.
    rewrite !list_filter_filter. apply list_filter_iff. intros m. tauto.
  - intros Hall.
    assert (calculateStandings localeCompare store None
            = calculateStandings localeCompare store (Some ms)) as ->
      by (unfold calculateStandings; cbn [from_option]; now rewrite Hms).
    apply calculateStandings_counted_only.
    rewrite list_filter_filter. clear Hms.
    induction Hall as [| m l Hm _ IH]; [reflexivity |].
    rewrite !filter_cons.
    destruct (decide (isPlayed m = true)) as [Hp | Hp].
    + rewrite decide_True by (split; [| split]; auto). now rewrite IH.
    + rewrite decide_False by (intros [? _]; contradiction). exact IH.
Qed.

End Matchdays.

Lemma getStandingsAfterMatchday_upto_witness :
  StandingsQueries.getStandingsAfterMatchday codeUnitCompare sampleStore 3
  = Standings.calculateStandings codeUnitCompare sampleStore None.
Proof.
  apply (getStandingsAfterMatchday_upto codeUnitCompare sampleStore sampleMatches 3).
  - reflexivity.
  - repeat constructor; cbn; try discriminate; lia.
Defined.


(** ** Tournament engine *)

Section Fixtures2.
Import TournamentQueries.

Lemma head_sortBy {A : Type} (compare : A -> A -> Z) (l : list A) :
  (forall x y, 0 < compare x y -> compare y x <= 0) ->
  (forall x y z, compare x y <= 0 -> compare y z <= 0 -> compare x z <= 0) ->
  (forall x, compare x x <= 0) ->
  match head (Js.sortBy compare l) with
  | Some m => m ∈ l /\ forall x, x ∈ l -> compare m x <= 0
  | None => l = []
  end.
Proof.
  intros Htotal Htrans Hrefl.
  pose proof (sortBy_sorted compare Htotal Htrans l) as Hsorted.
  pose proof (sortBy_perm compare l) as Hperm.
  destruct (Js.sortBy compare l) as [| m rest]; cbn.
  - now apply Permutation_nil_l in Hperm.
  - split; [rewrite <- Hperm; now left |].
    intros x Hx. rewrite <- Hperm in Hx.
    apply StronglySorted_inv in Hsorted as [_ Hall].
    apply elem_of_cons in Hx as [-> | Hx]; [apply Hrefl |].
    exact (proj1 (Forall_forall _ _) Hall x Hx).
Qed.

(** X22: [getNextMatch] returns a stored match that is scheduled and no
    later than any other scheduled match, and nothing only when no match is
    scheduled; [getLastMatch] returns a stored match that is played and no
    earlier than any other played match, and nothing only when no match is
    played. *)
Theorem next_and_last_match (teams : option (list Team)) (ms : list Match) :
  let store := mkStorage teams (Some ms) in
  match getNextMatch store with
  | Some m =>
      m ∈ ms /\ status m = Status.scheduled
      /\ forall x, x ∈ ms -> status x = Status.scheduled -> day m <= day x
  | None => forall x, x ∈ ms -> status x <> Status.scheduled
  end
  /\ match getLastMatch store with
     | Some m =>
         m ∈ ms /\ status m = Status.played
         /\ forall x, x ∈ ms -> status x = Status.played -> day x <= day m
     | None => forall x, x ∈ ms -> status x <> Status.played
     end.
Proof.
  cbv zeta. unfold getNextMatch, getLastMatch. cbn [ls_matches]. split.
  - pose proof (head_sortBy (fun a b : Match => day a - day b)
                  (filter (fun m => status m = Status.scheduled) ms)) as H.
    cbn beta in H.
    destruct (head _) as [m |].
    + destruct H as [Hin Hmin]; try (intros; lia).
      apply list_elem_of_filter in Hin as [Hst Hin].
      split; [exact Hin |]. split; [exact Hst |].
      intros x Hx Hxs.
      specialize (Hmin x (proj2 (list_elem_of_filter _ _ _) (conj Hxs Hx))). lia.
    + intros x Hx Hxs.
      assert (x ∈ filter (fun m => status m = Status.scheduled) ms) as Hf
        by (apply list_elem_of_filter; now split).
      rewrite H in Hf by (intros; lia). now apply not_elem_of_nil in Hf.
  - pose proof (head_sortBy (fun a b : Match => day b - day a)
                  (filter (fun m => status m = Status.played) ms)) as H.
    cbn beta in H.
    destruct (head _) as [m |].
    + destruct H as [Hin Hmin]; try (intros; lia).
      apply list_elem_of_filter in Hin as [Hst Hin].
      split; [exact Hin |]. split; [exact Hst |].
      intros x Hx Hxs.
      specialize (Hmin x (proj2 (list_elem_of_filter _ _ _) (conj Hxs Hx))). lia.
    + intros x Hx Hxs.
      assert (x ∈ filter (fun m => status m = Status.played) ms) as Hf
        by (apply list_elem_of_filter; now split).
      rewrite H in Hf by (intros; lia). now apply not_elem_of_nil in Hf.
Qed.

End Fixtures2.


Section Phases.
Import TournamentQueries.

Lemma head_sortBy_None {A : Type} (compare : A -> A -> Z) (l : list A) :
  head (Js.sortBy compare l) = None <-> l = [].
Proof.
  pose proof (sortBy_perm compare l) as Hperm. split.
  - destruct (Js.sortBy compare l); [| discriminate].
    intros _. now apply Permutation_nil_l in Hperm.
  - now intros ->.
Qed.

Lemma filter_length_all {A : Type} (P : A -> Prop) `{!forall x, Decision (P x)}
    (l : list A) :
  length (filter P l) = length l <-> Forall P l.
Proof.
  split.
  - intros Hlen. apply Forall_forall. intros x Hx.
    destruct (decide (P x)) as [Hp | Hn]; [exact Hp |].
    pose proof (length_filter_lt P l x Hx Hn). lia.
  - intros Hall. now rewrite filter_all.
Qed.

(** X23: the phase [getCurrentPhase] reports fits the fixtures. It is
    [not_started] exactly when there is no last match, so no match is
    played; it is [playoffs] exactly when there are matches and all are
    played, and then there is no next match. *)
Theorem getCurrentPhase_fits_fixtures (teams : option (list Team)) (ms : list Match) :
  let store := mkStorage teams (Some ms) in
  (getCurrentPhase store = not_started <-> getLastMatch store = None)
  /\ (getCurrentPhase store = playoffs
      <-> ms <> [] /\ Forall (fun m => status m = Status.played) ms)
  /\ (getCurrentPhase store = playoffs -> getNextMatch store = None).
Proof.
  cbv zeta. unfold getCurrentPhase, getLastMatch, getNextMatch. cbn [ls_matches].
  rewrite !head_sortBy_None.
  pose proof (length_filter (fun m => status m = Status.played) ms) as Hle.
  pose proof (filter_length_all (fun m => status m = Status.played) ms) as Hall.
  assert (forall l : list Match, length l = 0%nat <-> l = []) as Hnil
    by (intros [| ? ?]; cbn; split; intros; (discriminate || reflexivity || lia)).
  destruct (Nat.eqb_spec (length (filter (fun m => status m = Status.played) ms)) 0)
    as [Hz | Hnz].
  - split; [| split].
    + split; [intros _; now apply Hnil | reflexivity].
    + split; [discriminate |]. intros [Hne Hf]. exfalso.
      apply Hall in Hf. rewrite Hz in Hf. symmetry in Hf. now apply Hnil in Hf.
    + discriminate.
  - destruct (Nat.ltb_spec (length (filter (fun m => status m = Status.played) ms))
                (length ms)) as [Hlt | Hge].
    + split; [| split].
      * split; [discriminate |]. intros Hf. now apply Hnil in Hf.
      * split; [discriminate |]. intros [_ Hf]. apply Hall in Hf. lia.
      * discriminate.
    + assert (Forall (fun m => status m = Status.played) ms) as Hf
        by (apply Hall; lia).
      split; [| split].
      * split; [discriminate |]. intros Hf'. now apply Hnil in Hf'.
      * split; [| reflexivity]. intros _. split; [| exact Hf].
        intros ->. now apply Hnz.
      * intros _. apply filter_none.
        eapply Forall_impl; [exact Hf |]. intros m ->. discriminate.
Qed.

End Phases.


Section QualificationOfStandings.
Import Standings StandingsQueries TournamentQueries.

Variable localeCompare : string -> string -> Z.
Hypothesis localeCompare_eq : forall a b, localeCompare a b = 0 <-> a = b.
Hypothesis localeCompare_antisym :
  forall a b, localeCompare a b < 0 <-> 0 < localeCompare b a.
Hypothesis localeCompare_trans :
  forall a b c, localeCompare a b < 0 -> localeCompare b c < 0 -> localeCompare a c < 0.

Lemma qualificationCompare_weaker (a b a' b' : Row) :
  rankKey a' = rankKey a -> rankKey b' = rankKey b ->
  tieBreakCompare localeCompare a b <= 0 -> qualificationCompare a' b' <= 0.
Proof.
  unfold rankKey. intros [= Hp Hg Hf] [= Hp' Hg' Hf'].
  unfold tieBreakCompare, qualificationCompare. rewrite Hp, Hg, Hf, Hp', Hg', Hf'.
  repeat match goal with
         | |- context [?x =? ?y] => destruct (Z.eqb_spec x y)
         end; cbn [negb]; lia.
Qed.

Lemma StronglySorted_lookup_2 {A : Type} (R : A -> A -> Prop) (l : list A) :
  (forall i j x y, (i < j)%nat -> l !! i = Some x -> l !! j = Some y -> R x y) ->
  StronglySorted R l.
Proof.
  induction l as [| a l IH]; intros H; constructor.
  - apply IH. intros i j x y Hij Hi Hj. apply (H (S i) (S j) x y); [lia | |]; assumption.
  - apply Forall_forall. intros y Hy. apply list_elem_of_lookup in Hy as [j Hj].
    apply (H 0%nat (S j) a y); [lia | reflexivity | exact Hj].
Qed.

Lemma StronglySorted_lookup_1 {A : Type} (R : A -> A -> Prop) (l : list A)
    (i j : nat) (x y : A) :
  StronglySorted R l -> (i < j)%nat -> l !! i = Some x -> l !! j = Some y -> R x y.
Proof.
  intros Hs. revert i j. induction Hs as [| a l _ IH Hall]; intros i j Hij Hi Hj;
    [discriminate |].
  destruct j as [| j]; [lia |]. cbn in Hj.
  destruct i as [| i].
  - injection Hi as <-.
    apply (proj1 (Forall_forall _ _) Hall). eapply list_elem_of_lookup_2, Hj.
  - cbn in Hi. apply (IH i j); [lia | |]; assumption.
Qed.

Lemma determineQualification_lookup_row (l : list Row) (i : nat) (r : Row) :
  determineQualification l !! i = Some r ->
  exists r0, l !! i = Some r0
             /\ r = setRank (Z.of_nat i + 1) (Z.of_nat i <? playoffQualifiers) r0.
Proof.
  unfold determineQualification. rewrite list_lookup_imap.
  destruct (l !! i) as [r0 |]; [| discriminate].
  intros [= <-]. exists r0. split; reflexivity.
Qed.

(** The calculated table is in the order [determinePlayoffQualification]
    sorts into. *)
Lemma calculateStandings_ranked (store : LocalStorage) :
  StronglySorted (fun a b => qualificationCompare a b <= 0)
    (calculateStandings localeCompare store None).
Proof.
  unfold calculateStandings.
  destruct (ls_teams store) as [teams |]; [| constructor].
  destruct (from_option Some (ls_matches store) None) as [ms |]; [| constructor].
  pose proof (sortBy_sorted (tieBreakCompare localeCompare)
                (tieBreakCompare_total localeCompare localeCompare_antisym)
                (tieBreakCompare_trans localeCompare localeCompare_eq localeCompare_trans)
                (foldStandings teams ms)) as Hsorted.
  fold (applyTieBreakers localeCompare (foldStandings teams ms)) in Hsorted.
  apply StronglySorted_lookup_2. intros i j x y Hij Hi Hj.
  apply determineQualification_lookup_row in Hi as (x0 & Hx0 & ->).
  apply determineQualification_lookup_row in Hj as (y0 & Hy0 & ->).
  apply (qualificationCompare_weaker x0 y0); [reflexivity | reflexivity |].
  exact (StronglySorted_lookup_1 _ _ i j x0 y0 Hsorted Hij Hx0 Hy0).
Qed.

Lemma setRank_same (r : Row) (p : Z) (q : bool) :
  position r = p -> qualified r = q -> setRank p q r = r.
Proof. destruct r. cbn. intros -> ->. reflexivity. Qed.

(** X24: [determinePlayoffQualification] agrees with the standings engine.
    Given the calculated table, it keeps the order and the positions of the
    rows: its qualified entries are the rows [getQualifiedTeams] returns,
    seeded by their positions, its eliminated entries the rows
    [getEliminatedTeams] returns; and it draws a bracket exactly when the
    table has four rows, pairing position 1 with 4 and 2 with 3. *)
Theorem determinePlayoffQualification_of_standings (store : LocalStorage) :
  let table := calculateStandings localeCompare store None in
  let q := determinePlayoffQualification (Some table) in
  se_row <$> q_qualified q = getQualifiedTeams localeCompare store
  /\ se_row <$> q_eliminated q = getEliminatedTeams localeCompare store
  /\ Forall (fun s => playoffSeed s = Some (position (se_row s))) (q_qualified q)
  /\ Forall (fun s => playoffSeed s = None) (q_eliminated q)
  /\ (q_playoffBracket q = None <-> (length table < 4)%nat)
  /\ (forall b, q_playoffBracket q = Some b ->
        table !! 0%nat = Some (fst (gb_semi1 b))
        /\ table !! 3%nat = Some (snd (gb_semi1 b))
        /\ table !! 1%nat = Some (fst (gb_semi2 b))
        /\ table !! 2%nat = Some (snd (gb_semi2 b))
        /\ position <$> [fst (gb_semi1 b); snd (gb_semi1 b);
                         fst (gb_semi2 b); snd (gb_semi2 b)] = [1; 4; 2; 3]).
Proof.
  intros table q.
  destruct (qualified_prefix localeCompare store) as [Hq He].
  fold table in Hq, He. unfold getQualifiedTeams, getEliminatedTeams.
  fold table. rewrite Hq, He. clear Hq He.
  subst q. unfold determinePlayoffQualification.
  rewrite (sortBy_sorted_id qualificationCompare table)
    by apply calculateStandings_ranked.
  cbn [q_qualified q_eliminated q_playoffBracket].
  assert (forall i r, table !! i = Some r ->
            position r = Z.of_nat i + 1 /\ qualified r = (Z.of_nat i <? 4)) as Hrow
    by (intros i r; apply calculateStandings_lookup).
  split; [| split; [| split; [| split; [| split]]]].
  - apply list_eq. intros i. rewrite list_lookup_fmap, list_lookup_imap.
    destruct (take 4 table !! i) as [r |] eqn:Hi; [| reflexivity].
    apply lookup_take_Some in Hi as [Hi Hlt].
    destruct (Hrow i r Hi) as [Hp Hqual]. cbn. f_equal.
    apply setRank_same; [exact Hp |]. rewrite Hqual. apply Z.ltb_lt. lia.
  - apply list_eq. intros i. rewrite list_lookup_fmap, list_lookup_imap.
    destruct (drop 4 table !! i) as [r |] eqn:Hi; [| reflexivity].
    rewrite lookup_drop in Hi.
    destruct (Hrow _ r Hi) as [Hp Hqual]. cbn. f_equal.
    apply setRank_same.
    + rewrite Hp. unfold playoffQualifiers. lia.
    + rewrite Hqual. apply Z.ltb_ge. lia.
  - apply Forall_lookup. intros i s. rewrite list_lookup_imap.
    destruct (take 4 table !! i) as [r |]; [| discriminate].
    intros [= <-]. reflexivity.
  - apply Forall_lookup. intros i s. rewrite list_lookup_imap.
    destruct (drop 4 table !! i) as [r |]; [| discriminate].
    intros [= <-]. reflexivity.
  - destruct table as [| a [| b [| c [| d rest]]]]; cbn;
      split; intros; try reflexivity; try discriminate; lia.
  - intros b.
    destruct table as [| q0 [| q1 [| q2 [| q3 rest]]]] eqn:Htable;
      try discriminate.
    cbn. intros [= <-]. cbn.
    repeat split; try reflexivity.
    destruct (Hrow 0%nat q0 eq_refl) as [-> _].
    destruct (Hrow 1%nat q1 eq_refl) as [-> _].
    destruct (Hrow 2%nat q2 eq_refl) as [-> _].
    destruct (Hrow 3%nat q3 eq_refl) as [-> _].
    reflexivity.
Qed.

End QualificationOfStandings.

Lemma determinePlayoffQualification_of_standings_witness :
  let table := Standings.calculateStandings codeUnitCompare sampleStore None in
  let q := TournamentQueries.determinePlayoffQualification (Some table) in
  TournamentQueries.se_row <$> TournamentQueries.q_qualified q
  = StandingsQueries.getQualifiedTeams codeUnitCompare sampleStore.
Proof.
  exact (proj1 (determinePlayoffQualification_of_standings codeUnitCompare
                  codeUnitCompare_eq codeUnitCompare_antisym codeUnitCompare_trans
                  sampleStore)).
Defined.


(** ** Playoff engine *)

Section PlayoffFlow.
Import Playoff PlayoffQueries.

Lemma resolveSemifinal_inr (hg ag : Js.Val) (pen : option PenaltyResult)
    (s s' : Semifinal) (u : unit) :
  resolveSemifinal hg ag pen s = (inr u, s') ->
  s_id s' = s_id s /\ s_homeTeam s' = s_homeTeam s /\ s_awayTeam s' = s_awayTeam s
  /\ s_status s' = completed
  /\ s_homeGoals s' = Js.parseInt hg /\ s_awayGoals s' = Js.parseInt ag
  /\ decidedAmong (s_homeTeam s) (s_awayTeam s) (s_winner s') (s_loser s').
Proof.
  unfold resolveSemifinal, decidedAmong. cbv zeta. cbn [s_homeGoals s_awayGoals].
  repeat case_match; intros [= ?]; subst; cbn; repeat split; try congruence;
    first [left; split; reflexivity | right; split; reflexivity].
Qed.

Lemma resolveFinal_inr (hg ag : Js.Val) (pen : option PenaltyResult)
    (f0 f : FinalMatch) (ch ru : option TeamRef) :
  resolveFinal hg ag pen f0 = (inr (ch, ru), f) ->
  f_homeTeam f = f_homeTeam f0 /\ f_awayTeam f = f_awayTeam f0
  /\ f_status f = completed
  /\ f_winner f = ch /\ f_champion f = ch /\ f_runnerUp f = ru
  /\ ((ch = f_homeTeam f0 /\ ru = f_awayTeam f0)
      \/ (ch = f_awayTeam f0 /\ ru = f_homeTeam f0)).
Proof.
  unfold resolveFinal. cbv zeta. cbn [f_homeGoals f_awayGoals].
  repeat case_match; intros [= ? ? ?]; subst; cbn; repeat split; try congruence;
    first [left; split; reflexivity | right; split; reflexivity].
Qed.

Lemma updateSemifinalResult_inr (e e' : Engine) (b : Bracket) (matchId : string)
    (hg ag : Js.Val) (pen : option PenaltyResult) (s' : Semifinal) :
  bracketStructure e = Some b ->
  updateSemifinalResult e matchId hg ag pen = (inr s', e') ->
  exists first : bool,
    (if first then s_id (fst (semifinals b)) = matchId
     else s_id (fst (semifinals b)) <> matchId /\ s_id (snd (semifinals b)) = matchId)
    /\ resolveSemifinal hg ag pen
         (if first then fst (semifinals b) else snd (semifinals b)) = (inr tt, s')
    /\ e' = (let b1 :=
               updateBracketProgression
                 (setSemifinals
                    (if first then (s', snd (semifinals b))
                     else (fst (semifinals b), s')) b) in
             mkEngine (storage e) (Some b1) (Some b1)).
Proof.
  intros Hb. unfold updateSemifinalResult.
  rewrite bool_decide_eq_true_2 by (rewrite Hb; eexists; reflexivity).
  rewrite Hb. destruct (semifinals b) as [semi1 semi2]. cbn [fst snd].
  destruct (bool_decide (s_id semi1 = matchId)) eqn:H1.
  - apply bool_decide_eq_true in H1.
    destruct (resolveSemifinal hg ag pen semi1) as [[err | []] s1] eqn:Hres;
      [discriminate |].
    intros [= <- <-]. exists true. repeat split; assumption.
  - apply bool_decide_eq_false in H1.
    destruct (bool_decide (s_id semi2 = matchId)) eqn:H2; [| discriminate].
    apply bool_decide_eq_true in H2.
    destruct (resolveSemifinal hg ag pen semi2) as [[err | []] s2] eqn:Hres;
      [discriminate |].
    intros [= <- <-]. exists false. repeat split; assumption.
Qed.

Lemma updateFinalResult_inr (now : string) (e e' : Engine) (b : Bracket)
    (hg ag : Js.Val) (pen : option PenaltyResult) (f : FinalMatch) :
  bracketStructure e = Some b ->
  updateFinalResult now e hg ag pen = (inr f, e') ->
  is_Some (f_homeTeam (final b))
  /\ exists ch ru,
       resolveFinal hg ag pen (final b) = (inr (ch, ru), f)
       /\ e' = (let b1 :=
                  mkBracket (semifinals b) f (thirdPlace b)
                    (mkMetadata (generated (metadata b)) (qualifiedTeams (metadata b))
                       phase_completed ch ru (Some now)) in
                mkEngine (storage e) (Some b1) (Some b1)).
Proof.
  intros Hb. unfold updateFinalResult. rewrite Hb.
  destruct (bool_decide (is_Some (f_homeTeam (final b)))) eqn:Hh; [| discriminate].
  apply bool_decide_eq_true in Hh. cbn [negb].
  destruct (resolveFinal hg ag pen (final b)) as [[err | [ch ru]] f1] eqn:Hres;
    [discriminate |].
  intros [= <- <-]. split; [exact Hh |]. exists ch, ru. split; reflexivity.
Qed.

Lemma getTournamentSummary_of_bracket (e : Engine) (b : Bracket) :
  bracketStructure e = Some b ->
  let s := fst (getTournamentSummary e) in
  playoffsGenerated s = true
  /\ semifinalsComplete s
     = isCompleted (s_status (fst (semifinals b)))
       && isCompleted (s_status (snd (semifinals b)))
  /\ finalComplete s = isCompleted (f_status (final b))
  /\ su_champion s = f_champion (final b)
  /\ (is_Some (f_champion (final b)) -> su_runnerUp s = f_runnerUp (final b))
  /\ su_thirdPlace s = tp_winner (thirdPlace b)
  /\ (su_phase s = bracketPhase b \/ su_phase s = group_stage
      \/ su_phase s = not_started).
Proof.
  intros Hb. cbv zeta.
  assert (ensureLoaded e = e) as Hloaded.
  { unfold ensureLoaded. rewrite bool_decide_eq_true_2; [reflexivity |].
    rewrite Hb. eexists. reflexivity. }
  assert (exists phase,
            getTournamentPhase e = (phase, e)
            /\ (phase = bracketPhase b \/ phase = group_stage \/ phase = not_started))
    as (phase & Hphase & Hcases).
  { unfold getTournamentPhase.
    destruct (ls_matches (storage e)); [| eexists; split; [reflexivity | tauto]].
    destruct (_ <? _)%nat; [eexists; split; [reflexivity | tauto] |].
    rewrite Hloaded, Hb. eexists. split; [reflexivity | tauto]. }
  unfold getTournamentSummary, getPlayoffBracket.
  rewrite Hphase, Hloaded, Hb. cbn.
  repeat split; try exact Hcases.
  - destruct (f_champion (final b)); reflexivity.
  - intros Hch. now rewrite (bool_decide_eq_true_2 _ Hch).
Qed.

(** X25: the playoffs from the semifinals to the champion. On a bracket with
    the semifinals [semi-1] and [semi-2], once both are entered and the
    final is entered, each with success: each semifinal's winner and loser
    are its two teams; the final was played by the two winners, home the
    winner of [semi-1]; champion and runner-up are those two; the third
    place match is between the two losers; the tournament is marked
    completed with that champion, and the bracket in memory is the one
    saved; [getTournamentSummary] then reports the playoffs generated, the
    semifinals and the final complete, and that champion and runner-up. *)
Theorem playoffs_from_semifinals_to_champion (now : string)
    (e e1 e2 e3 : Engine) (b : Bracket) (s1 s2 : Semifinal) (f : FinalMatch)
    (hg1 ag1 hg2 ag2 hgf agf : Js.Val) (pen1 pen2 penf : option PenaltyResult) :
  bracketStructure e = Some b ->
  s_id (fst (semifinals b)) = "semi-1" ->
  s_id (snd (semifinals b)) = "semi-2" ->
  updateSemifinalResult e "semi-1" hg1 ag1 pen1 = (inr s1, e1) ->
  updateSemifinalResult e1 "semi-2" hg2 ag2 pen2 = (inr s2, e2) ->
  updateFinalResult now e2 hgf agf penf = (inr f, e3) ->
  decidedAmong (s_homeTeam (fst (semifinals b))) (s_awayTeam (fst (semifinals b)))
    (s_winner s1) (s_loser s1)
  /\ decidedAmong (s_homeTeam (snd (semifinals b))) (s_awayTeam (snd (semifinals b)))
       (s_winner s2) (s_loser s2)
  /\ f_homeTeam f = s_winner s1 /\ f_awayTeam f = s_winner s2
  /\ decidedAmong' (s_winner s1) (s_winner s2) (f_champion f) (f_runnerUp f)
  /\ exists b3,
       bracketStructure e3 = Some b3 /\ playoffsSlot e3 = Some b3
       /\ semifinals b3 = (s1, s2) /\ final b3 = f
       /\ tp_homeTeam (thirdPlace b3) = s_loser s1
       /\ tp_awayTeam (thirdPlace b3) = s_loser s2
       /\ tournamentPhase (metadata b3) = phase_completed
       /\ champion (metadata b3) = f_champion f
       /\ runnerUp (metadata b3) = f_runnerUp f
       /\ bracketPhase b3 = tournament_completed
       /\ (let s := fst (getTournamentSummary e3) in
           playoffsGenerated s = true /\ semifinalsComplete s = true
           /\ finalComplete s = true
           /\ su_champion s = f_champion f /\ su_runnerUp s = f_runnerUp f).
Proof.
  intros Hb Hid1 Hid2 Hs1 Hs2 Hf.
  destruct (updateSemifinalResult_inr _ _ _ _ _ _ _ _ Hb Hs1)
    as ([|] & Hwhich1 & Hres1 & ->);
    [| destruct Hwhich1 as [Hne _]; now rewrite Hid1 in Hne].
  apply resolveSemifinal_inr in Hres1
    as (Hs1id & Hs1h & Hs1a & Hs1st & _ & _ & Hdec1).
  cbv zeta in Hs2.
  clear Hs1.
  match type of Hs2 with
  | updateSemifinalResult ?ee _ _ _ _ = _ =>
      destruct (updateSemifinalResult_inr ee _ _ _ _ _ _ _ eq_refl Hs2)
        as ([|] & Hwhich2 & Hres2 & ->)
  end.
  { exfalso. cbn in Hwhich2. rewrite Hs1id, Hid1 in Hwhich2. discriminate. }
  clear Hs2.
  cbn [semifinals updateBracketProgression setSemifinals fst snd] in Hres2.
  apply resolveSemifinal_inr in Hres2
    as (Hs2id & Hs2h & Hs2a & Hs2st & _ & _ & Hdec2).
  assert (is_Some (s_winner s1) /\ is_Some (s_loser s1)) as [Hw1 Hl1]
    by (destruct Hdec1 as [[-> ->] | [-> ->]]; split; eexists; reflexivity).
  assert (is_Some (s_winner s2) /\ is_Some (s_loser s2)) as [Hw2 Hl2]
    by (destruct Hdec2 as [[-> ->] | [-> ->]]; split; eexists; reflexivity).
  cbv zeta in Hf.
  match type of Hf with
  | updateFinalResult _ (mkEngine ?st _ (Some ?b2)) _ _ _ = _ =>
      set (bb := b2) in *;
      destruct (updateFinalResult_inr _ (mkEngine st (Some bb) (Some bb)) _ bb
                  _ _ _ _ eq_refl Hf)
        as (_ & ch & ru & Hresf & ->)
  end.
  apply resolveFinal_inr in Hresf as (Hfh & Hfa & Hfst & _ & Hfc & Hfr & Hdecf).
  assert (final bb = setFinalTeams (s_winner s1) (s_winner s2) (final bb)
          /\ f_homeTeam (final bb) = s_winner s1
          /\ f_awayTeam (final bb) = s_winner s2
          /\ tp_homeTeam (thirdPlace bb) = s_loser s1
          /\ tp_awayTeam (thirdPlace bb) = s_loser s2
          /\ semifinals bb = (s1, s2)) as (_ & Hbh & Hba & Hth & Hta & Hsemis).
  { subst bb. cbn.
    rewrite !(bool_decide_eq_true_2 _ Hw1), !(bool_decide_eq_true_2 _ Hw2),
      !(bool_decide_eq_true_2 _ Hl1), !(bool_decide_eq_true_2 _ Hl2).
    cbn. repeat split. }
  split; [exact Hdec1 |]. split; [exact Hdec2 |].
  split; [congruence |]. split; [congruence |].
  split.
  { unfold decidedAmong'. rewrite Hfc, Hfr, <- Hbh, <- Hba. exact Hdecf. }
  assert (is_Some (f_champion f)) as Hchampion.
  { rewrite Hfc. destruct Hdecf as [[-> _] | [-> _]]; congruence. }
  eexists. cbv zeta.
  split; [reflexivity |]. split; [reflexivity |].
  match goal with
  | |- context [getTournamentSummary ?e3] =>
      pose proof (getTournamentSummary_of_bracket e3 _ eq_refl) as Hsummary
  end.
  cbv zeta in Hsummary.
  destruct Hsummary as (Hgen & Hsemi & Hfin & Hsch & Hsru & _ & _).
  cbn [semifinals final thirdPlace metadata tournamentPhase champion runnerUp] in *.
  rewrite Hsemis in Hsemi. cbn [fst snd] in Hsemi.
  rewrite Hs1st, Hs2st in Hsemi. rewrite Hfst in Hfin.
  repeat split; try assumption; try congruence.
  - unfold bracketPhase. cbn [final]. now rewrite Hfst.
  - now apply Hsru.
Qed.

End PlayoffFlow.

Section PlayoffFlowInstance.
Import Playoff PlayoffQueries.

Lemma playoffs_from_semifinals_to_champion_witness :
  exists b3,
    bracketStructure
      (snd (updateFinalResult sampleNow
              (snd (updateSemifinalResult resolvedEngine "semi-2"
                      (Js.JNum 0) (Js.JNum 1) None))
              (Js.JNum 1) (Js.JNum 1) (Some (mkPenalty "home")))) = Some b3
    /\ champion (metadata b3)
       = Some (seedTeam sampleStore 1 (Standings.initialRow (sampleTeam "A")))
    /\ bracketPhase b3 = tournament_completed.
Proof.
  pose (teamA := seedTeam sampleStore 1 (Standings.initialRow (sampleTeam "A"))).
  pose (teamB := seedTeam sampleStore 2 (Standings.initialRow (sampleTeam "B"))).
  pose (teamC := seedTeam sampleStore 3 (Standings.initialRow (sampleTeam "C"))).
  pose (teamD := seedTeam sampleStore 4 (Standings.initialRow (sampleTeam "D"))).
  destruct (playoffs_from_semifinals_to_champion sampleNow sampleEngine
              resolvedEngine
              (snd (updateSemifinalResult resolvedEngine "semi-2"
                      (Js.JNum 0) (Js.JNum 1) None))
              (snd (updateFinalResult sampleNow
                      (snd (updateSemifinalResult resolvedEngine "semi-2"
                              (Js.JNum 0) (Js.JNum 1) None))
                      (Js.JNum 1) (Js.JNum 1) (Some (mkPenalty "home"))))
              sampleBracket
              (mkSemifinal "semi-1" teamA teamD completed (Some 2) (Some 1)
                 (Some teamA) (Some teamD) None)
              (mkSemifinal "semi-2" teamB teamC completed (Some 0) (Some 1)
                 (Some teamC) (Some teamB) None)
              (mkFinal (Some teamA) (Some teamC) completed (Some 1) (Some 1)
                 (Some teamA) (Some teamA) (Some teamC) (Some (mkPenalty "home")))
              (Js.JNum 2) (Js.JNum 1) (Js.JNum 0) (Js.JNum 1) (Js.JNum 1) (Js.JNum 1)
              None None (Some (mkPenalty "home")))
    as (_ & _ & _ & _ & _ & b3 & Hb3 & _ & _ & _ & _ & _ & _ & Hch & _ & Hphase & _).
  - reflexivity.
  - reflexivity.
  - reflexivity.
  - vm_compute. reflexivity.
  - vm_compute. reflexivity.
  - vm_compute. reflexivity.
  - exists b3. split; [exact Hb3 |]. split; [| exact Hphase].
    rewrite Hch. reflexivity.
Defined.

End PlayoffFlowInstance.


Section PlayoffPhases.
Import Playoff PlayoffQueries.

Variable localeCompare : string -> string -> Z.

Lemma buildBracket_invariant (now : string) (store : LocalStorage)
    (rows : list Standings.Row) (b : Bracket) :
  buildBracket now store rows = inr b -> bracketInvariant b.
Proof.
  unfold buildBracket. destruct (_ <? _)%nat; [discriminate |].
  destruct (take 4 rows) as [| q0 [| q1 [| q2 [| q3 [| ? ?]]]]]; try discriminate.
  intros [= <-]. unfold bracketInvariant. cbn.
  split; [discriminate |]. split; [discriminate |].
  intros [? [=]].
Qed.

Lemma resolveSemifinal_status (hg ag : Js.Val) (pen : option PenaltyResult)
    (s : Semifinal) :
  s_status (snd (resolveSemifinal hg ag pen s)) = completed.
Proof.
  unfold resolveSemifinal. cbv zeta. cbn [s_homeGoals s_awayGoals].
  repeat case_match; reflexivity.
Qed.

Lemma resolveSemifinal_winner_kept (hg ag : Js.Val) (pen : option PenaltyResult)
    (s : Semifinal) (err : string) (s' : Semifinal) :
  resolveSemifinal hg ag pen s = (inl err, s') -> s_winner s' = s_winner s.
Proof.
  unfold resolveSemifinal. cbv zeta. cbn [s_homeGoals s_awayGoals].
  repeat case_match; intros [= ? ?]; subst; reflexivity.
Qed.

Lemma resolveFinal_status (hg ag : Js.Val) (pen : option PenaltyResult)
    (f : FinalMatch) :
  f_status (snd (resolveFinal hg ag pen f)) = completed.
Proof.
  unfold resolveFinal. cbv zeta. cbn [f_homeGoals f_awayGoals].
  repeat case_match; reflexivity.
Qed.

Lemma updateBracketProgression_invariant (b : Bracket) :
  s_status (fst (semifinals b)) <> pending ->
  s_status (snd (semifinals b)) <> pending ->
  (~ (is_Some (s_winner (fst (semifinals b)))
      /\ is_Some (s_winner (snd (semifinals b)))) ->
   bracketInvariant b) ->
  bracketInvariant (updateBracketProgression b).
Proof.
  intros H1 H2 Hold. unfold bracketInvariant, updateBracketProgression. cbn.
  split; [exact H1 |]. split; [exact H2 |]. intros Hw1 Hw2.
  rewrite (bool_decide_eq_true_2 _ Hw1), (bool_decide_eq_true_2 _ Hw2).
  cbn. discriminate.
Qed.

Lemma ensureLoaded_invariant (e : Engine) :
  engineInvariant e -> engineInvariant (ensureLoaded e).
Proof.
  intros [Hm Hs]. unfold ensureLoaded.
  destruct (bool_decide _); [now split |].
  split; cbn; exact Hs.
Qed.

Lemma updateSemifinalResult_invariant (e : Engine) (matchId : string)
    (hg ag : Js.Val) (pen : option PenaltyResult) :
  engineInvariant e ->
  engineInvariant (snd (updateSemifinalResult e matchId hg ag pen)).
Proof.
  intros Hinv. apply ensureLoaded_invariant in Hinv.
  unfold updateSemifinalResult. fold (ensureLoaded e).
  set (e1 := ensureLoaded e) in *. clearbody e1. destruct Hinv as [Hm Hs].
  destruct (bracketStructure e1) as [b |] eqn:Hb;
    [| split; [intros b' Hb'; cbn in Hb'; congruence | exact Hs]].
  destruct (Hm b eq_refl) as (Hst1 & Hst2 & Hfin).
  assert (engineInvariant e1) as Hinv1
    by (split; [intros b' Hb'; rewrite Hb in Hb'; injection Hb' as <-;
                exact (Hm b eq_refl) | exact Hs]).
  destruct (semifinals b) as [semi1 semi2] eqn:Hsemis. cbn [fst snd] in *.
  assert (forall first : bool,
            let semifinal := if first then semi1 else semi2 in
            engineInvariant
              (snd (let '(res, semifinal1) := resolveSemifinal hg ag pen semifinal in
                    let b1 :=
                      setSemifinals
                        (if first then (semifinal1, semi2) else (semi1, semifinal1)) b in
                    match res with
                    | inl err =>
                        (inl err, mkEngine (storage e1) (playoffsSlot e1) (Some b1))
                    | inr _ =>
                        (inr semifinal1,
                         saveBracket
                           (mkEngine (storage e1) (playoffsSlot e1)
                              (Some (updateBracketProgression b1))))
                    end))) as Hboth.
  { intros first. cbv zeta.
    pose proof (resolveSemifinal_status hg ag pen (if first then semi1 else semi2))
      as Hcompleted.
    destruct (resolveSemifinal hg ag pen (if first then semi1 else semi2))
      as [[err | u] s'] eqn:Hres; cbn [snd] in *.
    - apply resolveSemifinal_winner_kept in Hres.
      split; [| exact Hs]. cbn. intros b' [= <-].
      unfold bracketInvariant, setSemifinals.
      destruct first; cbn; rewrite ?Hcompleted, ?Hres;
        (split; [try discriminate; assumption |]);
        (split; [try discriminate; assumption |]); exact Hfin.
    - assert (bracketInvariant
                (updateBracketProgression
                   (setSemifinals
                      (if first then (s', semi2) else (semi1, s')) b))) as Hnew.
      { apply updateBracketProgression_invariant;
          destruct first; cbn; rewrite ?Hcompleted; try discriminate; try assumption;
          intros Hnot; unfold bracketInvariant; cbn; rewrite ?Hcompleted;
          (split; [try discriminate; assumption |]);
          (split; [try discriminate; assumption |]);
          intros Hw1 Hw2; exfalso; apply Hnot; now split. }
      split; cbn; intros b' [= <-]; exact Hnew. }
  destruct (bool_decide (s_id semi1 = matchId)); [exact (Hboth true) |].
  destruct (bool_decide (s_id semi2 = matchId)); [exact (Hboth false) |].
  exact Hinv1.
Qed.

Lemma updateFinalResult_invariant (now : string) (e : Engine)
    (hg ag : Js.Val) (pen : option PenaltyResult) :
  engineInvariant e ->
  engineInvariant (snd (updateFinalResult now e hg ag pen)).
Proof.
  intros Hinv. pose proof Hinv as [Hm Hs]. unfold updateFinalResult.
  destruct (bracketStructure e) as [b |] eqn:Hb; [| exact Hinv].
  destruct (negb _); [exact Hinv |].
  destruct (Hm b eq_refl) as (Hst1 & Hst2 & Hfin).
  pose proof (resolveFinal_status hg ag pen (final b)) as Hcompleted.
  destruct (resolveFinal hg ag pen (final b)) as [[err | [ch ru]] f1];
    cbn [snd] in *.
  - split; [| exact Hs]. cbn. intros b' [= <-].
    unfold bracketInvariant. cbn. rewrite Hcompleted.
    split; [exact Hst1 |]. split; [exact Hst2 |]. discriminate.
  - split; cbn; intros b' [= <-]; unfold bracketInvariant; cbn;
      rewrite Hcompleted; (split; [exact Hst1 |]); (split; [exact Hst2 |]);
      discriminate.
Qed.

(** X26: the phases the playoff engine can report. The brackets the engine
    builds and updates never have a pending semifinal, and have the final
    scheduled once both semifinals have a winner: this holds for a new
    engine and is kept by [generatePlayoffBracket], [updateSemifinalResult],
    [updateFinalResult], [resetPlayoffs] and [getTournamentPhase]. So
    [getTournamentPhase] never answers [playoffs_ready], and it answers
    [semifinals_completed] only when a semifinal is completed without a
    winner, as a rejected draw leaves it. *)
Theorem playoff_phases_reported :
  (forall store, engineInvariant (mkEngine store None None))
  /\ (forall now e, engineInvariant e ->
        engineInvariant (snd (generatePlayoffBracket localeCompare now e)))
  /\ (forall e matchId hg ag pen, engineInvariant e ->
        engineInvariant (snd (updateSemifinalResult e matchId hg ag pen)))
  /\ (forall now e hg ag pen, engineInvariant e ->
        engineInvariant (snd (updateFinalResult now e hg ag pen)))
  /\ (forall e, engineInvariant (resetPlayoffs e))
  /\ (forall e, engineInvariant e ->
        engineInvariant (snd (getTournamentPhase e))
        /\ fst (getTournamentPhase e) <> playoffs_ready
        /\ (fst (getTournamentPhase e) = semifinals_completed ->
            exists b,
              bracketStructure (snd (getTournamentPhase e)) = Some b
              /\ ((s_status (fst (semifinals b)) = completed
                   /\ s_winner (fst (semifinals b)) = None)
                  \/ (s_status (snd (semifinals b)) = completed
                      /\ s_winner (snd (semifinals b)) = None)))).
Proof.
  split; [| split; [| split; [| split; [| split]]]].
  - intros store. split; cbn; discriminate.
  - intros now e [Hm Hs]. unfold generatePlayoffBracket.
    destruct (buildBracket now (storage e) _) as [err | b] eqn:Hbuild;
      [now split |].
    apply buildBracket_invariant in Hbuild.
    split; cbn; intros b' [= <-]; exact Hbuild.
  - intros. now apply updateSemifinalResult_invariant.
  - intros. now apply updateFinalResult_invariant.
  - intros e. split; cbn; discriminate.
  - intros e Hinv. unfold getTournamentPhase.
    destruct (ls_matches (storage e)) as [ms |];
      [| split; [exact Hinv |]; split; discriminate].
    destruct (_ <? _)%nat; [split; [exact Hinv |]; split; discriminate |].
    apply ensureLoaded_invariant in Hinv.
    set (e1 := ensureLoaded e) in *. clearbody e1.
    split; [destruct (bracketStructure e1); exact Hinv |].
    destruct (bracketStructure e1) as [b |] eqn:Hb; [| split; discriminate].
    destruct Hinv as [Hm _]. destruct (Hm b Hb) as (Hst1 & Hst2 & Hfin).
    cbn [fst snd]. unfold bracketPhase. cbv zeta.
    destruct (f_status (final b)) eqn:Hf; cbn;
      try (split; [discriminate | discriminate]).
    destruct (s_status (fst (semifinals b))) eqn:H1,
             (s_status (snd (semifinals b))) eqn:H2; cbn;
      try contradiction; try (split; [discriminate | discriminate]).
    split; [discriminate |]. intros _. exists b. split; [exact Hb |].
    destruct (s_winner (fst (semifinals b))) as [w1 |] eqn:Hw1; [| now left].
    destruct (s_winner (snd (semifinals b))) as [w2 |] eqn:Hw2; [| now right].
    exfalso. apply Hfin; [eexists; reflexivity | eexists; reflexivity | reflexivity].
Qed.

End PlayoffPhases.


Section PlayoffPersistence.
Import Playoff PlayoffQueries.

Variable localeCompare : string -> string -> Z.

Lemma updateSemifinalResult_saved (e : Engine) (matchId : string)
    (hg ag : Js.Val) (pen : option PenaltyResult) :
  match updateSemifinalResult e matchId hg ag pen with
  | (inr _, e') => is_Some (bracketStructure e')
                   /\ playoffsSlot e' = bracketStructure e'
  | (inl _, e') => playoffsSlot e' = playoffsSlot e
  end.
Proof.
  unfold updateSemifinalResult.
  assert (playoffsSlot (if bool_decide (is_Some (bracketStructure e))
                        then e else loadBracket e) = playoffsSlot e) as Hslot
    by (destruct (bool_decide _); reflexivity).
  destruct (bracketStructure (if bool_decide (is_Some (bracketStructure e))
                              then e else loadBracket e)) as [b |];
    [| exact Hslot].
  destruct (semifinals b) as [semi1 semi2].
  destruct (bool_decide (s_id semi1 = matchId)).
  - destruct (resolveSemifinal hg ag pen semi1) as [[err | u] s']; cbn;
      [exact Hslot | split; [eexists |]; reflexivity].
  - destruct (bool_decide (s_id semi2 = matchId)); [| exact Hslot].
    destruct (resolveSemifinal hg ag pen semi2) as [[err | u] s']; cbn;
      [exact Hslot | split; [eexists |]; reflexivity].
Qed.

(** X27: what the playoff engine writes to storage. A call of
    [generatePlayoffBracket], [updateSemifinalResult] or [updateFinalResult]
    that succeeds saves the bracket it leaves in memory, so an engine
    started afterwards on the same storage gets that bracket from
    [getPlayoffBracket]; a call that fails writes nothing, so such an engine
    gets the bracket stored before. *)
Theorem playoff_bracket_saved_on_success (now : string) (e : Engine)
    (matchId : string) (hg ag : Js.Val) (pen : option PenaltyResult) :
  savedOnSuccess e (generatePlayoffBracket localeCompare now e)
  /\ savedOnSuccess e (updateSemifinalResult e matchId hg ag pen)
  /\ savedOnSuccess e (updateFinalResult now e hg ag pen).
Proof.
  unfold savedOnSuccess.
  assert (forall e0, fst (getPlayoffBracket (reloaded e0)) = playoffsSlot e0) as Hload
    by reflexivity.
  split; [| split].
  - unfold generatePlayoffBracket.
    destruct (buildBracket now (storage e) _) as [err | b]; [reflexivity |].
    split; [eexists |]; reflexivity.
  - pose proof (updateSemifinalResult_saved e matchId hg ag pen) as Hs.
    destruct (updateSemifinalResult e matchId hg ag pen) as [[err | s] e'].
    + rewrite !Hload. exact Hs.
    + rewrite Hload. exact Hs.
  - unfold updateFinalResult.
    destruct (bracketStructure e) as [b |]; [| reflexivity].
    destruct (negb _); [reflexivity |].
    destruct (resolveFinal hg ag pen (final b)) as [[err | [ch ru]] f1];
      [reflexivity |].
    split; [eexists |]; reflexivity.
Qed.

End PlayoffPersistence.


(** ** What the counters mean *)

Section CountersMeaning.
Import MatchEngine.

Lemma findTeam_Some_elem_of (id : string) (teams : list Team) (i : nat) :
  findTeam id teams = Some i -> id ∈ t_id <$> teams.
Proof.
  intros Hf. destruct (findTeam_lookup _ _ _ Hf) as (t & Hi & <-).
  apply list_elem_of_fmap_2. eapply list_elem_of_lookup_2, Hi.
Qed.

Lemma findTeam_None_not_elem_of (id : string) (teams : list Team) :
  findTeam id teams = None -> id ∉ t_id <$> teams.
Proof.
  intros Hf Hin. destruct (findTeam_elem_of _ _ Hin) as [i Hi]. congruence.
Qed.

Lemma findTeam_index (teams : list Team) (k i : nat) (t : Team) (id : string) :
  NoDup (t_id <$> teams) ->
  teams !! k = Some t -> findTeam id teams = Some i ->
  (i = k <-> id = t_id t).
Proof.
  intros Hnd Hk Hf. destruct (findTeam_lookup _ _ _ Hf) as (t' & Hi & Hid).
  split.
  - intros ->. congruence.
  - intros ->. exact (NoDup_ids_lookup teams i k t' t Hnd Hi Hk Hid).
Qed.

Lemma replayMatch_lookup (teams : list Team) (m : Match) (k : nat) (t : Team) :
  NoDup (t_id <$> teams) ->
  homeTeam m <> awayTeam m ->
  teams !! k = Some t ->
  replayMatch teams m !! k = Some (creditTeam (t_id <$> teams) t m).
Proof.
  intros Hnd Hne Hk. unfold replayMatch, creditTeam.
  destruct (findTeam (homeTeam m) teams) as [h |] eqn:Hh.
  2: { rewrite (bool_decide_eq_false_2 _ (findTeam_None_not_elem_of _ _ Hh)).
       exact Hk. }
  destruct (findTeam (awayTeam m) teams) as [a |] eqn:Ha.
  2: { rewrite (bool_decide_eq_false_2 _ (findTeam_None_not_elem_of _ _ Ha)).
       rewrite andb_false_r. exact Hk. }
  rewrite (bool_decide_eq_true_2 _ (findTeam_Some_elem_of _ _ _ Hh)).
  rewrite (bool_decide_eq_true_2 _ (findTeam_Some_elem_of _ _ _ Ha)).
  cbn [andb]. rewrite creditMatch_creditSide.
  pose proof (findTeam_index teams k h t _ Hnd Hk Hh) as Hhk.
  pose proof (findTeam_index teams k a t _ Hnd Hk Ha) as Hak.
  destruct (decide (homeTeam m = t_id t)) as [Hhome | Hhome].
  - rewrite (bool_decide_eq_true_2 _ Hhome).
    assert (h = k) as -> by now apply Hhk.
    assert (a <> k) as Hna
      by (intros ->; apply Hne; rewrite Hhome; symmetry; now apply Hak).
    rewrite list_lookup_alter_ne by exact Hna.
    now rewrite list_lookup_alter_eq, Hk.
  - rewrite (bool_decide_eq_false_2 _ Hhome).
    assert (h <> k) as Hnh by (intros ->; now apply Hhome, Hhk).
    destruct (decide (awayTeam m = t_id t)) as [Haway | Haway].
    + rewrite (bool_decide_eq_true_2 _ Haway).
      assert (a = k) as -> by now apply Hak.
      rewrite list_lookup_alter_eq, list_lookup_alter_ne by exact Hnh.
      now rewrite Hk.
    + rewrite (bool_decide_eq_false_2 _ Haway).
      assert (a <> k) as Hna by (intros ->; now apply Haway, Hak).
      now rewrite !list_lookup_alter_ne by assumption.
Qed.

Lemma t_id_replayMatch (teams : list Team) (m : Match) :
  t_id <$> replayMatch teams m = t_id <$> teams.
Proof. apply t_id_of_identity, teamIdentity_replayMatch. Qed.

Lemma foldl_replayMatch_lookup (ms : list Match) (teams : list Team)
    (k : nat) (t : Team) :
  NoDup (t_id <$> teams) ->
  Forall (fun m => homeTeam m <> awayTeam m) ms ->
  teams !! k = Some t ->
  foldl replayMatch teams ms !! k
  = Some (foldl (creditTeam (t_id <$> teams)) t ms).
Proof.
  intros Hnd Hall. revert teams t Hnd.
  induction Hall as [| m ms Hm _ IH]; intros teams t Hnd Hk; [exact Hk |].
  cbn [foldl].
  rewrite (IH (replayMatch teams m) (creditTeam (t_id <$> teams) t m)).
  - now rewrite t_id_replayMatch.
  - now rewrite t_id_replayMatch.
  - now apply replayMatch_lookup.
Qed.

Lemma creditTeam_id (ids : list string) (t : Team) (m : Match) :
  t_id (creditTeam ids t m) = t_id t.
Proof.
  unfold creditTeam. repeat case_match; try reflexivity;
    apply creditSide_identity.
Qed.

Lemma foldl_creditTeam_id (ids : list string) (l : list Match) (t : Team) :
  t_id (foldl (creditTeam ids) t l) = t_id t.
Proof.
  revert t. induction l as [| m l IH]; intros t; [reflexivity |].
  cbn [foldl]. rewrite IH. apply creditTeam_id.
Qed.

Lemma addStatistics_assoc (a b c : Statistics) :
  addStatistics (addStatistics a b) c = addStatistics a (addStatistics b c).
Proof. unfold addStatistics. cbn. f_equal; lia. Qed.

Lemma tally_cons (id : string) (m : Match) (l : list Match) :
  tally id (m :: l) = addStatistics (tally id [m]) (tally id l).
Proof.
  unfold tally, addStatistics. cbv zeta. cbn [played won drawn lost goalsFor
    goalsAgainst points].
  rewrite !(filter_cons _ m l), !(filter_cons _ m []), !filter_nil.
  rewrite !sumOver_cons. change (sumOver _ []) with 0.
  destruct (decide (goalsConceded id m < goalsScored id m));
    destruct (decide (goalsScored id m = goalsConceded id m));
    destruct (decide (goalsScored id m < goalsConceded id m));
    cbn [length]; apply statistics_eq; cbn; lia.
Qed.

Lemma creditTeam_tally (ids : list string) (t : Team) (m : Match) :
  homeTeam m <> awayTeam m ->
  Standings.isPlayed m = true ->
  statistics (creditTeam ids t m)
  = addStatistics (statistics t) (tally (t_id t) (matchesOf ids (t_id t) [m])).
Proof.
  intros Hne Hp. destruct (isPlayed_goals m Hp) as (_ & h & a & Hh & Ha).
  unfold creditTeam, matchesOf, counts.
  rewrite filter_cons, filter_nil.
  assert (addStatistics (statistics t) (tally (t_id t) []) = statistics t) as Hzero
    by (apply statistics_eq; cbn; lia).
  destruct (decide (homeTeam m ∈ ids)) as [Hin1 | Hout1].
  2: { rewrite (bool_decide_eq_false_2 _ Hout1). cbn [andb].
       rewrite decide_False by tauto. now rewrite Hzero. }
  destruct (decide (awayTeam m ∈ ids)) as [Hin2 | Hout2].
  2: { rewrite (bool_decide_eq_false_2 _ Hout2), andb_false_r.
       rewrite decide_False by tauto. now rewrite Hzero. }
  rewrite (bool_decide_eq_true_2 _ Hin1), (bool_decide_eq_true_2 _ Hin2).
  cbn [andb].
  destruct (decide (homeTeam m = t_id t)) as [Hhome | Hhome].
  - rewrite (bool_decide_eq_true_2 _ Hhome), decide_True by tauto.
    assert (goalsScored (t_id t) m = h /\ goalsConceded (t_id t) m = a) as [Hgs Hgc].
    { unfold goalsScored, goalsConceded.
      rewrite (bool_decide_eq_true_2 _ Hhome), Hh, Ha. now split. }
    unfold tally. cbv zeta.
    rewrite !filter_cons, !filter_nil, !sumOver_cons.
    change (sumOver (goalsScored (t_id t)) []) with 0.
    change (sumOver (goalsConceded (t_id t)) []) with 0.
    rewrite !Hgs, !Hgc.
    unfold creditSide, creditHome. rewrite Hh, Ha, calculatePoints_cases.
    cbn [default from_option]. unfold id.
    destruct (Z.gtb_spec h a); [| destruct (Z.gtb_spec a h)];
      repeat (destruct (decide _); try lia);
      apply statistics_eq; cbn; lia.
  - rewrite (bool_decide_eq_false_2 _ Hhome).
    destruct (decide (awayTeam m = t_id t)) as [Haway | Haway].
    + rewrite (bool_decide_eq_true_2 _ Haway), decide_True by tauto.
      assert (goalsScored (t_id t) m = a /\ goalsConceded (t_id t) m = h)
        as [Hgs Hgc].
      { unfold goalsScored, goalsConceded.
        rewrite (bool_decide_eq_false_2 _ Hhome), Hh, Ha. now split. }
      unfold tally. cbv zeta.
      rewrite !filter_cons, !filter_nil, !sumOver_cons.
      change (sumOver (goalsScored (t_id t)) []) with 0.
      change (sumOver (goalsConceded (t_id t)) []) with 0.
      rewrite !Hgs, !Hgc.
      unfold creditSide, creditAway. rewrite Hh, Ha, calculatePoints_cases.
      cbn [default from_option]. unfold id.
      destruct (Z.gtb_spec h a); [| destruct (Z.gtb_spec a h)];
        repeat (destruct (decide _); try lia);
        apply statistics_eq; cbn; lia.
    + rewrite (bool_decide_eq_false_2 _ Haway), decide_False by tauto.
      now rewrite Hzero.
Qed.

Lemma addStatistics_zero_l (id : string) (st : Statistics) :
  addStatistics (tally id []) st = st.
Proof. apply statistics_eq; cbn; lia. Qed.

Lemma addStatistics_zero_r (id : string) (st : Statistics) :
  addStatistics st (tally id []) = st.
Proof. apply statistics_eq; cbn; lia. Qed.

Lemma tally_app (id : string) (l1 l2 : list Match) :
  tally id (l1 ++ l2) = addStatistics (tally id l1) (tally id l2).
Proof.
  induction l1 as [| x l1 IH]; [now rewrite addStatistics_zero_l |].
  rewrite <- app_comm_cons, tally_cons, IH, <- addStatistics_assoc.
  now rewrite <- tally_cons.
Qed.

Lemma foldl_creditTeam_tally (ids : list string) (ms : list Match) (t : Team) :
  Forall (fun m => homeTeam m <> awayTeam m) ms ->
  statistics (foldl (creditTeam ids) t
                (filter (fun m => Standings.isPlayed m = true) ms))
  = addStatistics (statistics t) (tally (t_id t) (matchesOf ids (t_id t) ms)).
Proof.
  intros Hall. revert t.
  induction Hall as [| m ms Hm _ IH]; intros t;
    [now rewrite addStatistics_zero_r |].
  change (matchesOf ids (t_id t) (m :: ms))
    with (matchesOf ids (t_id t) ([m] ++ ms)).
  unfold matchesOf at 1. rewrite filter_app.
  fold (matchesOf ids (t_id t) [m]). fold (matchesOf ids (t_id t) ms).
  rewrite tally_app, <- addStatistics_assoc, filter_cons.
  destruct (decide (Standings.isPlayed m = true)) as [Hp | Hp].
  - cbn [foldl]. rewrite IH, creditTeam_id.
    now rewrite (creditTeam_tally ids t m Hm Hp).
  - rewrite IH. f_equal.
    assert (matchesOf ids (t_id t) [m] = []) as ->.
    { unfold matchesOf, counts. rewrite filter_cons, filter_nil.
      now rewrite decide_False by tauto. }
    now rewrite addStatistics_zero_r.
Qed.

End CountersMeaning.

Section CountersOfTheTable.
Import MatchEngine Standings.

Variable localeCompare : string -> string -> Z.

(** Every row is the tally of its team over the counted matches the team
    took part in. *)
Lemma calculateStandings_tally (teams : list Team)
    (stored : option (list Match)) (ms : list Match) :
  NoDup (t_id <$> teams) ->
  Forall (fun m => homeTeam m <> awayTeam m) ms ->
  Forall (fun r =>
            rowStatistics r
            = tally (teamId r) (matchesOf (t_id <$> teams) (teamId r) ms))
    (calculateStandings localeCompare (mkStorage (Some teams) stored) (Some ms)).
Proof.
  intros Hnd Hself. apply Forall_forall. intros r Hr.
  pose proof (calculateStandings_view localeCompare teams stored ms) as Hview.
  assert (rowView r ∈ rowView <$>
            calculateStandings localeCompare (mkStorage (Some teams) stored) (Some ms))
    as Hin by (apply list_elem_of_fmap; eauto).
  rewrite Hview in Hin. apply list_elem_of_fmap in Hin as (t' & Hrt & Hin).
  unfold rowView, teamView in Hrt. injection Hrt as Hid Hst.
  rewrite Hid, Hst. clear r Hr Hid Hst Hview.
  apply list_elem_of_lookup in Hin as [k Hk].
  assert (exists t0, resetStatistics teams !! k = Some t0
                     /\ t_id t0 = t_id t' /\ statistics t0 = zeroStatistics)
    as (t0 & Hk0 & Hid0 & Hst0).
  { pose proof (teamIdentity_foldl_replayMatch
                  (filter (fun m => isPlayed m = true) ms) (resetStatistics teams))
      as Hident.
    apply t_id_of_identity in Hident.
    pose proof (f_equal (fun l => l !! k) Hident) as Hl. cbn beta in Hl.
    rewrite !list_lookup_fmap, Hk in Hl.
    destruct (resetStatistics teams !! k) as [t0 |] eqn:Hk0; [| discriminate].
    exists t0. split; [reflexivity |]. split; [cbn in Hl; congruence |].
    unfold resetStatistics in Hk0. rewrite list_lookup_fmap in Hk0.
    destruct (teams !! k); [| discriminate]. cbn in Hk0. now injection Hk0 as <-. }
  assert (t_id <$> resetStatistics teams = t_id <$> teams) as Hids
    by (apply t_id_of_identity, teamIdentity_resetStatistics).
  assert (Forall (fun m => homeTeam m <> awayTeam m)
            (filter (fun m => isPlayed m = true) ms)) as Hself'.
  { apply Forall_forall. intros m Hm. apply list_elem_of_filter in Hm as [_ Hm].
    exact (proj1 (Forall_forall _ _) Hself m Hm). }
  rewrite (foldl_replayMatch_lookup _ (resetStatistics teams) k t0) in Hk;
    [| now rewrite Hids | exact Hself' | exact Hk0].
  injection Hk as <-. rewrite Hids.
  rewrite (foldl_creditTeam_tally _ ms t0 Hself).
  rewrite foldl_creditTeam_id.
  rewrite Hst0. apply statistics_eq; cbn; lia.
Qed.

Lemma matchesOf_getMatchesByTeam (teams : list Team) (ms : list Match) (id : string) :
  Forall (fun m => homeTeam m ∈ t_id <$> teams /\ awayTeam m ∈ t_id <$> teams) ms ->
  matchesOf (t_id <$> teams) id ms
  = filter (fun m => isPlayed m = true)
      (MatchQueries.getMatchesByTeam (mkStorage (Some teams) (Some ms)) id).
Proof.
  intros Hall. unfold matchesOf, MatchQueries.getMatchesByTeam, counts.
  cbn [ls_matches]. rewrite list_filter_filter.
  induction Hall as [| m ms [Hh Ha] _ IH]; [reflexivity |].
  rewrite !filter_cons, IH.
  destruct (decide (isPlayed m = true /\ (homeTeam m = id \/ awayTeam m = id)))
    as [Hyes | Hno].
  - rewrite decide_True by tauto. reflexivity.
  - rewrite decide_False by tauto. reflexivity.
Qed.

(** X28: the counters of the table mean what they say. With unique team ids
    and no match of a team against itself, every row [calculateStandings]
    returns is the record of its team counted by hand over the matches the
    team took part in, those that are played with both goals and between
    stored teams: played is their number; won, drawn and lost are the
    numbers of those in which the team scored more, as many and fewer goals
    than it conceded; goalsFor and goalsAgainst are the goals it scored and
    conceded in them; points are three a win and one a draw. When all
    matches are between stored teams, these are the played matches with both
    goals among those [getMatchesByTeam] returns for the team. *)
Theorem standings_counters_meaning (teams : list Team) (ms : list Match) :
  NoDup (t_id <$> teams) ->
  Forall (fun m => homeTeam m <> awayTeam m) ms ->
  let store := mkStorage (Some teams) (Some ms) in
  Forall (fun r =>
            rowStatistics r
            = tally (teamId r) (matchesOf (t_id <$> teams) (teamId r) ms)
            /\ played r
               = Z.of_nat (length (matchesOf (t_id <$> teams) (teamId r) ms))
            /\ points r = 3 * won r + drawn r
            /\ (Forall (fun m => homeTeam m ∈ t_id <$> teams
                                 /\ awayTeam m ∈ t_id <$> teams) ms ->
                rowStatistics r
                = tally (teamId r)
                    (filter (fun m => isPlayed m = true)
                       (MatchQueries.getMatchesByTeam store (teamId r)))))
    (calculateStandings localeCompare store None).
Proof.
  intros Hnd Hself store.
  pose proof (calculateStandings_tally teams (Some ms) ms Hnd Hself) as Hrows.
  eapply Forall_impl; [exact Hrows |]. intros r Hr. cbn beta in Hr.
  split; [exact Hr |].
  pose proof Hr as Hfields. unfold rowStatistics, tally in Hfields.
  cbv zeta in Hfields. injection Hfields as Hplayed Hwon Hdrawn _ _ _ Hpoints.
  split; [| split].
  - exact Hplayed.
  - rewrite Hpoints, Hwon, Hdrawn. reflexivity.
  - intros Hknown. rewrite Hr. f_equal.
    now apply matchesOf_getMatchesByTeam.
Qed.

End CountersOfTheTable.

Lemma standings_counters_meaning_witness :
  Forall (fun r =>
            Standings.played r
            = Z.of_nat (length (matchesOf (t_id <$> sampleTeams)
                                  (Standings.teamId r) sampleMatches)))
    (Standings.calculateStandings codeUnitCompare sampleStore None).
Proof.
  eapply Forall_impl.
  - apply (standings_counters_meaning codeUnitCompare sampleTeams sampleMatches).
    + apply (bool_decide_unpack _). vm_compute. exact I.
    + repeat constructor; discriminate.
  - intros r (_ & Hplayed & _). exact Hplayed.
Defined.


Section ComparingMatchdays.
Import MatchEngine Standings StandingsQueries StandingsComparison.

Variable localeCompare : string -> string -> Z.

Lemma filter_length_mono {A : Type} (P Q : A -> Prop)
    `{!forall x, Decision (P x)} `{!forall x, Decision (Q x)} (l : list A) :
  (forall x, P x -> Q x) -> (length (filter P l) <= length (filter Q l))%nat.
Proof.
  intros Himp. induction l as [| x l IH]; [reflexivity |].
  rewrite !filter_cons.
  destruct (decide (P x)) as [Hp | Hp].
  - rewrite decide_True by auto. cbn. lia.
  - destruct (decide (Q x)); cbn; lia.
Qed.

(** From one matchday to a later one the points of a team do not go down. *)
Lemma matchday_points_mono (teams : list Team) (stored : option (list Match))
    (ms : list Match) (d d' : Z) (r r' : Row) :
  NoDup (t_id <$> teams) ->
  Forall (fun m => homeTeam m <> awayTeam m) ms ->
  d <= d' ->
  r ∈ calculateStandings localeCompare (mkStorage (Some teams) stored)
        (Some (filter (fun m => day m <= d /\ isPlayed m = true) ms)) ->
  r' ∈ calculateStandings localeCompare (mkStorage (Some teams) stored)
         (Some (filter (fun m => day m <= d' /\ isPlayed m = true) ms)) ->
  teamId r' = teamId r ->
  points r <= points r'.
Proof.
  intros Hnd Hself Hle Hr Hr' Hid.
  assert (forall x, Forall (fun m => homeTeam m <> awayTeam m)
            (filter (fun m => day m <= x /\ isPlayed m = true) ms)) as Hself'.
  { intros x. apply Forall_forall. intros m Hm.
    apply list_elem_of_filter in Hm as [_ Hm].
    exact (proj1 (Forall_forall _ _) Hself m Hm). }
  pose proof (proj1 (Forall_forall _ _)
                (calculateStandings_tally localeCompare teams stored _ Hnd (Hself' d))
                r Hr) as Htally.
  pose proof (proj1 (Forall_forall _ _)
                (calculateStandings_tally localeCompare teams stored _ Hnd (Hself' d'))
                r' Hr') as Htally'.
  cbn beta in Htally, Htally'. rewrite Hid in Htally'.
  unfold rowStatistics, tally, matchesOf in Htally, Htally'.
  cbv zeta in Htally, Htally'.
  injection Htally as _ _ _ _ _ _ Hpoints.
  injection Htally' as _ _ _ _ _ _ Hpoints'.
  rewrite !list_filter_filter in Hpoints, Hpoints'.
  rewrite Hpoints, Hpoints'.
  match goal with
  | |- 3 * Z.of_nat (length (filter ?P ms)) + Z.of_nat (length (filter ?Q ms))
       <= 3 * Z.of_nat (length (filter ?P' ms)) + Z.of_nat (length (filter ?Q' ms)) =>
      pose proof (filter_length_mono P P' ms) as Hwins;
      pose proof (filter_length_mono Q Q' ms) as Hdraws
  end.
  cbn beta in Hwins, Hdraws.
  assert (forall x : Match, day x <= d -> day x <= d') as Hday by (intros; lia).
  specialize (Hwins ltac:(intuition auto)).
  specialize (Hdraws ltac:(intuition auto)).
  lia.
Qed.

Lemma calculateStandings_ids (teams : list Team) (stored : option (list Match))
    (ms : list Match) :
  teamId <$> calculateStandings localeCompare (mkStorage (Some teams) stored) (Some ms)
  ≡ₚ t_id <$> teams.
Proof.
  pose proof (calculateStandings_identities localeCompare teams stored ms) as Hperm.
  apply (fmap_Permutation fst) in Hperm.
  now rewrite <- !list_fmap_compose in Hperm.
Qed.

Lemma calculateStandings_position_range (teams : list Team)
    (stored : option (list Match)) (ms : list Match) (r : Row) :
  r ∈ calculateStandings localeCompare (mkStorage (Some teams) stored) (Some ms) ->
  1 <= position r <= Z.of_nat (length teams).
Proof.
  intros Hr. apply list_elem_of_lookup in Hr as [i Hi].
  pose proof (lookup_lt_Some _ _ _ Hi) as Hlt.
  apply calculateStandings_lookup in Hi as [-> _].
  pose proof (Permutation_length (calculateStandings_ids teams stored ms)) as Hlen.
  rewrite !length_fmap in Hlen. lia.
Qed.

(** X29: from one matchday to a later one no team loses points. With unique
    team ids and no match of a team against itself,
    [getStandingsComparison(fromDay, toDay)] for [fromDay <= toDay] has one
    entry for every stored team, with a points change that is not negative,
    both positions between 1 and the number of teams, and the position
    change their difference. *)
Theorem getStandingsComparison_points_never_drop (teams : list Team)
    (ms : list Match) (fromDay toDay : Z) :
  NoDup (t_id <$> teams) ->
  Forall (fun m => homeTeam m <> awayTeam m) ms ->
  fromDay <= toDay ->
  let comparison :=
    getStandingsComparison localeCompare (mkStorage (Some teams) (Some ms))
      fromDay toDay in
  c_teamId <$> comparison ≡ₚ t_id <$> teams
  /\ Forall (fun c =>
               0 <= pointsChange c
               /\ 1 <= fromPosition c <= Z.of_nat (length teams)
               /\ 1 <= toPosition c <= Z.of_nat (length teams)
               /\ positionChange c = fromPosition c - toPosition c) comparison.
Proof.
  intros Hnd Hself Hle. cbv zeta.
  unfold getStandingsComparison, getStandingsAfterMatchday. cbn [ls_matches].
  set (store := mkStorage (Some teams) (Some ms)).
  set (fromStandings :=
         calculateStandings localeCompare store
           (Some (filter (fun m => day m <= fromDay /\ isPlayed m = true) ms))).
  set (toStandings :=
         calculateStandings localeCompare store
           (Some (filter (fun m => day m <= toDay /\ isPlayed m = true) ms))).
  split.
  - rewrite <- list_fmap_compose.
    rewrite (list_fmap_ext _ teamId fromStandings) by (intros; reflexivity).
    apply calculateStandings_ids.
  - apply Forall_fmap, Forall_forall. intros r Hr. unfold compose. cbv beta zeta.
    assert (teamId r ∈ teamId <$> toStandings) as Hin.
    { subst toStandings store. rewrite calculateStandings_ids.
      rewrite <- (calculateStandings_ids teams (Some ms)
                    (filter (fun m => day m <= fromDay /\ isPlayed m = true) ms)).
      now apply list_elem_of_fmap_2. }
    apply list_elem_of_fmap in Hin as (r0 & Hid0 & Hr0).
    destruct (list_find_elem_of (fun x => teamId x = teamId r) toStandings r0 Hr0
                (eq_sym Hid0)) as [[j r'] Hfind].
    rewrite Hfind. cbn.
    apply list_find_Some in Hfind as (Hj & Hid' & _).
    apply list_elem_of_lookup_2 in Hj.
    pose proof (matchday_points_mono teams (Some ms) ms fromDay toDay r r'
                  Hnd Hself Hle Hr Hj Hid') as Hpoints.
    pose proof (calculateStandings_position_range teams (Some ms) _ r Hr).
    pose proof (calculateStandings_position_range teams (Some ms) _ r' Hj).
    repeat split; lia.
Qed.

End ComparingMatchdays.

Lemma getStandingsComparison_points_never_drop_witness :
  Forall (fun c => 0 <= StandingsComparison.pointsChange c)
    (StandingsComparison.getStandingsComparison codeUnitCompare sampleStore 2 3).
Proof.
  eapply Forall_impl.
  - apply (getStandingsComparison_points_never_drop codeUnitCompare
             sampleTeams sampleMatches 2 3).
    + apply (bool_decide_unpack _). vm_compute. exact I.
    + repeat constructor; discriminate.
    + lia.
  - intros c (Hpoints & _). exact Hpoints.
Defined.


(** ** The round-robin check *)

Section RoundRobin.
Import TournamentStructure.

Lemma foldl_checkPair_inl (ids : list string) (e : string) (l : list Match) :
  foldl (checkPair ids) (inl e) l = inl e.
Proof. induction l as [| m l IH]; [reflexivity | exact IH]. Qed.

(** What a pass of the first loop without a throw establishes. *)
Lemma foldl_checkPair_inr (ids : list string) (l : list Match)
    (pairs pairs' : list string) :
  foldl (checkPair ids) (inr pairs) l = inr pairs' ->
  Forall (fun m => homeTeam m ∈ ids /\ awayTeam m ∈ ids) l
  /\ Forall (fun m => (pairKey (homeTeam m) (awayTeam m) ∉ pairs)
                      /\ (pairKey (awayTeam m) (homeTeam m) ∉ pairs)) l
  /\ noRematch l.
Proof.
  revert pairs. induction l as [| m l IH]; intros pairs Hfold.
  { repeat split; constructor. }
  cbn [foldl] in Hfold. unfold checkPair at 2 in Hfold. cbv zeta in Hfold.
  destruct (bool_decide (pairKey (homeTeam m) (awayTeam m) ∈ pairs)) eqn:H1;
    [cbn in Hfold; now rewrite foldl_checkPair_inl in Hfold |].
  destruct (bool_decide (pairKey (awayTeam m) (homeTeam m) ∈ pairs)) eqn:H2;
    [cbn in Hfold; now rewrite foldl_checkPair_inl in Hfold |].
  apply bool_decide_eq_false in H1, H2. cbn [orb] in Hfold.
  destruct (bool_decide (homeTeam m ∈ ids)) eqn:H3;
    [| cbn in Hfold; now rewrite foldl_checkPair_inl in Hfold].
  destruct (bool_decide (awayTeam m ∈ ids)) eqn:H4;
    [| cbn in Hfold; now rewrite foldl_checkPair_inl in Hfold].
  apply bool_decide_eq_true in H3, H4. cbn [negb orb] in Hfold.
  destruct (IH _ Hfold) as (Hvalid & Hfresh & Hno).
  split; [constructor; [now split | exact Hvalid] |].
  split.
  - constructor; [now split |].
    eapply Forall_impl; [exact Hfresh |]. intros m' [Ha Hb].
    split; intros Hin; [apply Ha | apply Hb]; now right.
  - constructor; [exact Hno |].
    eapply Forall_impl; [exact Hfresh |]. intros m' [Ha Hb] Hmeet.
    destruct Hmeet as [[Hh Haw] | [Hh Haw]].
    + apply Ha. rewrite Hh, Haw. now left.
    + apply Hb. rewrite Hh, Haw. now left.
Qed.

Lemma meets_sym (m : Match) (x y : string) : meets m x y -> meets m y x.
Proof. unfold meets. tauto. Qed.

(** Under [noRematch], two matches of the list between the same teams are
    one match. *)
Lemma noRematch_unique (ms : list Match) (m1 m2 : Match) (x y : string) :
  noRematch ms -> m1 ∈ ms -> m2 ∈ ms -> meets m1 x y -> meets m2 x y -> m1 = m2.
Proof.
  intros Hno H1 H2 Hm1 Hm2.
  apply list_elem_of_lookup in H1 as [i Hi], H2 as [j Hj].
  assert (forall a b ma mb, (a < b)%nat -> ms !! a = Some ma -> ms !! b = Some mb ->
            meets ma x y -> meets mb x y -> False) as Hord.
  { intros a b ma mb Hab Ha Hb Hma Hmb.
    apply (StronglySorted_lookup_1 _ _ a b ma mb Hno Hab Ha Hb).
    destruct Hma as [[-> ->] | [-> ->]]; [exact Hmb | now apply meets_sym]. }
  destruct (Nat.lt_trichotomy i j) as [Hlt | [-> | Hgt]].
  - exfalso. exact (Hord i j m1 m2 Hlt Hi Hj Hm1 Hm2).
  - congruence.
  - exfalso. exact (Hord j i m2 m1 Hgt Hj Hi Hm2 Hm1).
Qed.

Lemma noRematch_NoDup (ms : list Match) : noRematch ms -> NoDup ms.
Proof.
  intros Hno. apply NoDup_alt. intros i j m Hi Hj.
  destruct (Nat.lt_trichotomy i j) as [Hlt | [-> | Hgt]]; [| reflexivity |];
    exfalso.
  - apply (StronglySorted_lookup_1 _ _ i j m m Hno Hlt Hi Hj). now left.
  - apply (StronglySorted_lookup_1 _ _ j i m m Hno Hgt Hj Hi). now left.
Qed.

(** Counting the pairs (id, match) with the id in the match, by id and by
    match. *)
Lemma sumOver_add {A : Type} (f g : A -> Z) (l : list A) :
  sumOver (fun x => f x + g x) l = sumOver f l + sumOver g l.
Proof.
  induction l as [| x l IH]; [reflexivity |].
  rewrite !sumOver_cons, IH. lia.
Qed.

Lemma sumOver_indicator {A : Type} (P : A -> Prop) `{!forall x, Decision (P x)}
    (l : list A) :
  sumOver (fun x => if decide (P x) then 1 else 0) l
  = Z.of_nat (length (filter P l)).
Proof.
  induction l as [| x l IH]; [reflexivity |].
  rewrite sumOver_cons, filter_cons, IH.
  destruct (decide (P x)); cbn [length]; lia.
Qed.

Lemma count_both_ways {A B : Type} (R : A -> B -> Prop)
    `{!forall x y, Decision (R x y)} (l1 : list A) (l2 : list B) :
  sumOver (fun x => Z.of_nat (length (filter (fun y => R x y) l2))) l1
  = sumOver (fun y => Z.of_nat (length (filter (fun x => R x y) l1))) l2.
Proof.
  induction l1 as [| x l1 IH].
  - symmetry. apply sumOver_zero, Forall_forall. intros y _. reflexivity.
  - rewrite sumOver_cons, IH, <- sumOver_indicator, <- sumOver_add.
    apply sumOver_ext. intros y. rewrite filter_cons.
    destruct (decide (R x y)); cbn [length]; lia.
Qed.

Lemma filter_eq_NoDup (l : list string) (x : string) :
  NoDup l -> x ∈ l -> length (filter (fun z => x = z) l) = 1%nat.
Proof.
  intros Hnd. induction Hnd as [| z l Hz Hnd IH]; intros Hin.
  - now apply not_elem_of_nil in Hin.
  - rewrite filter_cons. destruct (decide (x = z)) as [-> | Hne].
    + cbn [length]. f_equal. apply length_zero_iff_nil, filter_none.
      apply Forall_forall. intros y Hy ->. contradiction.
    + apply IH. apply elem_of_cons in Hin as [-> | Hin]; [contradiction | exact Hin].
Qed.

Lemma filter_or_length {A : Type} (P Q : A -> Prop)
    `{!forall x, Decision (P x)} `{!forall x, Decision (Q x)} (l : list A) :
  (forall z, P z -> Q z -> False) ->
  length (filter (fun z => P z \/ Q z) l)
  = (length (filter P l) + length (filter Q l))%nat.
Proof.
  intros Hdisj. induction l as [| z l IH]; [reflexivity |].
  rewrite !filter_cons.
  destruct (decide (P z)) as [Hp | Hp]; destruct (decide (Q z)) as [Hq | Hq].
  - exfalso. exact (Hdisj z Hp Hq).
  - rewrite decide_True by tauto. cbn [length]. lia.
  - rewrite decide_True by tauto. cbn [length]. lia.
  - rewrite decide_False by tauto. exact IH.
Qed.

Lemma sidesAmong_cases (ids : list string) (m : Match) :
  NoDup ids -> homeTeam m ∈ ids -> awayTeam m ∈ ids ->
  sidesAmong ids m = if decide (homeTeam m = awayTeam m) then 1 else 2.
Proof.
  intros Hnd Hh Ha. unfold sidesAmong.
  destruct (decide (homeTeam m = awayTeam m)) as [Heq | Hne].
  - rewrite (list_filter_iff _ (fun z => homeTeam m = z))
      by (intros z; rewrite <- Heq; tauto).
    match goal with
    | |- Z.of_nat ?X = _ =>
        assert (X = 1%nat) as -> by (apply filter_eq_NoDup; assumption)
    end.
    reflexivity.
  - rewrite filter_or_length by (intros z Hz1 Hz2; apply Hne; congruence).
    match goal with
    | |- Z.of_nat (?X + ?Y)%nat = _ =>
        assert (X = 1%nat) as -> by (apply filter_eq_NoDup; assumption);
        assert (Y = 1%nat) as -> by (apply filter_eq_NoDup; assumption)
    end.
    reflexivity.
Qed.

Lemma sumOver_le_bound {A : Type} (g : A -> Z) (b : Z) (l : list A) :
  Forall (fun x => g x <= b) l -> sumOver g l <= b * Z.of_nat (length l).
Proof.
  induction 1 as [| x l Hx _ IH]; [cbn; lia |].
  rewrite sumOver_cons. cbn [length]. lia.
Qed.

Lemma sumOver_lt_bound {A : Type} (g : A -> Z) (b : Z) (l : list A) (x0 : A) :
  Forall (fun x => g x <= b) l -> x0 ∈ l -> g x0 < b ->
  sumOver g l < b * Z.of_nat (length l).
Proof.
  intros Hall. induction Hall as [| x l Hx Hall IH]; intros Hin Hlt.
  - now apply not_elem_of_nil in Hin.
  - rewrite sumOver_cons. cbn [length].
    apply elem_of_cons in Hin as [<- | Hin].
    + pose proof (sumOver_le_bound g b l Hall). lia.
    + specialize (IH Hin Hlt). lia.
Qed.

Lemma sumOver_constant {A : Type} (g : A -> Z) (c : Z) (l : list A) :
  Forall (fun x => g x = c) l -> sumOver g l = c * Z.of_nat (length l).
Proof.
  induction 1 as [| x l Hx _ IH]; [cbn; lia |].
  rewrite sumOver_cons, Hx, IH. cbn [length]. lia.
Qed.

(** Seven teams with six matches each and twenty-one matches in all leave no
    room for a team playing itself. *)
Lemma no_self_matches (ids : list string) (ms : list Match) :
  NoDup ids ->
  length ids = maxTeams -> length ms = expectedMatches ->
  Forall (fun m => homeTeam m ∈ ids /\ awayTeam m ∈ ids) ms ->
  Forall (fun x => length (teamMatches ms x) = (maxTeams - 1)%nat) ids ->
  Forall (fun m => homeTeam m <> awayTeam m) ms.
Proof.
  intros Hnd Hteams Hmatches Hvalid Hdeg.
  assert (sumOver (sidesAmong ids) ms = 42) as Hsum.
  { unfold sidesAmong.
    rewrite <- (count_both_ways (fun x (m : Match) => homeTeam m = x \/ awayTeam m = x)
                  ids ms).
    rewrite (sumOver_constant _ 6).
    - rewrite Hteams. reflexivity.
    - eapply Forall_impl; [exact Hdeg |]. intros x Hx. cbn beta.
      unfold teamMatches in Hx. rewrite Hx. reflexivity. }
  assert (Forall (fun m => sidesAmong ids m <= 2) ms) as Hle.
  { eapply Forall_impl; [exact Hvalid |]. intros m [Hh Ha].
    rewrite (sidesAmong_cases ids m Hnd Hh Ha). destruct (decide _); lia. }
  apply Forall_forall. intros m Hm Hself.
  assert (sidesAmong ids m < 2) as Hlt.
  { destruct (proj1 (Forall_forall _ _) Hvalid m Hm) as [Hh Ha].
    rewrite (sidesAmong_cases ids m Hnd Hh Ha).
    rewrite decide_True by exact Hself. lia. }
  pose proof (sumOver_lt_bound (sidesAmong ids) 2 ms m Hle Hm Hlt) as Hbound.
  rewrite Hmatches, Hsum in Hbound. vm_compute in Hbound. discriminate.
Qed.

Lemma meets_opponent (ms : list Match) (x : string) (m : Match) :
  m ∈ teamMatches ms x -> m ∈ ms /\ meets m x (opponent x m).
Proof.
  unfold teamMatches. intros Hm. apply list_elem_of_filter in Hm as [Hinv Hm].
  split; [exact Hm |]. unfold meets, opponent.
  destruct (decide (homeTeam m = x)) as [Hh | Hh].
  - rewrite (bool_decide_eq_true_2 _ Hh). now left.
  - rewrite (bool_decide_eq_false_2 _ Hh). right. split; [reflexivity | tauto].
Qed.

(** Each team meets every other team. *)
Lemma every_pair_meets (ids : list string) (ms : list Match) (x y : string) :
  NoDup ids -> length ids = maxTeams ->
  Forall (fun m => homeTeam m ∈ ids /\ awayTeam m ∈ ids) ms ->
  Forall (fun m => homeTeam m <> awayTeam m) ms ->
  noRematch ms ->
  length (teamMatches ms x) = (maxTeams - 1)%nat ->
  x ∈ ids -> y ∈ ids -> x <> y ->
  exists m, m ∈ ms /\ meets m x y.
Proof.
  intros Hnd Hteams Hvalid Hself Hno Hdeg Hx Hy Hxy.
  set (opps := opponent x <$> teamMatches ms x).
  set (others := filter (fun z => x <> z) ids).
  assert (NoDup opps) as Hnd_opps.
  { apply NoDup_fmap_2_strong.
    - intros m1 m2 H1 H2 Heq.
      apply meets_opponent in H1 as [H1 Hm1], H2 as [H2 Hm2].
      rewrite Heq in Hm1. exact (noRematch_unique ms m1 m2 _ _ Hno H1 H2 Hm1 Hm2).
    - apply NoDup_filter, noRematch_NoDup, Hno. }
  assert (forall z, z ∈ opps -> z ∈ others) as Hsub.
  { intros z Hz. apply list_elem_of_fmap in Hz as (m & -> & Hm).
    pose proof Hm as Hm'. apply meets_opponent in Hm' as [Hin Hmeet].
    destruct (proj1 (Forall_forall _ _) Hvalid m Hin) as [Hh Ha].
    pose proof (proj1 (Forall_forall _ _) Hself m Hin) as Hne.
    apply list_elem_of_filter. unfold opponent.
    destruct (decide (homeTeam m = x)) as [Heq | Hneq].
    - rewrite (bool_decide_eq_true_2 _ Heq). split; [congruence | exact Ha].
    - rewrite (bool_decide_eq_false_2 _ Hneq). split; [congruence | exact Hh]. }
  assert (length others = 6%nat) as Hothers.
  { pose proof (Permutation_length
                  (filter_app_complement (fun z => x = z) ids)) as Hlen.
    rewrite length_app, (filter_eq_NoDup ids x Hnd Hx), Hteams in Hlen.
    subst others. unfold maxTeams in Hlen. lia. }
  assert (length opps = 6%nat) as Hopps
    by (subst opps; rewrite length_fmap; exact Hdeg).
  assert (opps ≡ₚ others) as Hperm.
  { apply submseteq_length_Permutation; [| lia].
    apply NoDup_submseteq; assumption. }
  assert (y ∈ opps) as Hyo.
  { rewrite Hperm. apply list_elem_of_filter. now split. }
  apply list_elem_of_fmap in Hyo as (m & -> & Hm).
  exists m. now apply meets_opponent.
Qed.

(** X30: a structure [validateTournamentStructure] accepts is a round robin.
    When the team ids are unique and the check returns valid, there are
    seven teams and twenty-one matches, every match is between two
    different stored teams, and any two different teams meet in exactly one
    match. *)
Theorem validateTournamentStructure_round_robin (teams : list Team)
    (ms : list Match) (s : Structure) :
  NoDup (t_id <$> teams) ->
  validateTournamentStructure (mkStorage (Some teams) (Some ms)) = inr s ->
  s = mkStructure 7 21
  /\ length teams = 7%nat /\ length ms = 21%nat
  /\ Forall (fun m => homeTeam m ∈ t_id <$> teams /\ awayTeam m ∈ t_id <$> teams
                      /\ homeTeam m <> awayTeam m) ms
  /\ (forall x y, x ∈ t_id <$> teams -> y ∈ t_id <$> teams -> x <> y ->
        exists m, m ∈ ms /\ meets m x y
                  /\ forall m', m' ∈ ms -> meets m' x y -> m' = m).
Proof.
  intros Hnd. unfold validateTournamentStructure. cbn [ls_teams ls_matches].
  destruct (Nat.eqb_spec (length teams) maxTeams) as [Hteams | ?]; [| discriminate].
  destruct (Nat.eqb_spec (length ms) expectedMatches) as [Hmatches | ?];
    [| discriminate].
  cbn [negb]. cbv zeta.
  destruct (foldl (checkPair (t_id <$> teams)) (inr []) ms) as [e | pairs] eqn:Hfold;
    [discriminate |].
  destruct (list_find _ (t_id <$> teams)) as [[i bad] |] eqn:Hfind; [discriminate |].
  intros [= <-].
  apply foldl_checkPair_inr in Hfold as (Hvalid & _ & Hno).
  apply list_find_None in Hfind.
  assert (Forall (fun x => length (teamMatches ms x) = (maxTeams - 1)%nat)
            (t_id <$> teams)) as Hdeg.
  { eapply Forall_impl; [exact Hfind |]. intros x Hx. cbn beta in Hx.
    destruct (decide (length (teamMatches ms x) = (maxTeams - 1)%nat)); tauto. }
  assert (length (t_id <$> teams) = maxTeams) as Hids
    by (rewrite length_fmap; exact Hteams).
  pose proof (no_self_matches _ ms Hnd Hids Hmatches Hvalid Hdeg) as Hself.
  split; [now rewrite Hteams, Hmatches |].
  split; [exact Hteams |]. split; [exact Hmatches |].
  split.
  - apply Forall_forall. intros m Hm.
    destruct (proj1 (Forall_forall _ _) Hvalid m Hm) as [Hh Ha].
    pose proof (proj1 (Forall_forall _ _) Hself m Hm). repeat split; assumption.
  - intros x y Hx Hy Hxy.
    destruct (every_pair_meets _ ms x y Hnd Hids Hvalid Hself Hno
                (proj1 (Forall_forall _ _) Hdeg x Hx) Hx Hy Hxy) as (m & Hm & Hmeet).
    exists m. split; [exact Hm |]. split; [exact Hmeet |].
    intros m' Hm' Hmeet'. exact (noRematch_unique ms m' m x y Hno Hm' Hm Hmeet' Hmeet).
Qed.

Lemma validateTournamentStructure_round_robin_witness :
  exists m, m ∈ leagueMatches /\ meets m "T5" "T2".
Proof.
  destruct (validateTournamentStructure_round_robin leagueTeams leagueMatches
              (mkStructure 7 21)) as (_ & _ & _ & _ & Hmeet).
  - apply (bool_decide_unpack _). vm_compute. exact I.
  - vm_compute. reflexivity.
  - destruct (Hmeet "T5" "T2") as (m & Hm & Hmeets & _).
    + apply (bool_decide_unpack _). vm_compute. exact I.
    + apply (bool_decide_unpack _). vm_compute. exact I.
    + discriminate.
    + exists m. split; assumption.
Defined.

End RoundRobin.
